(** * Downwind foil simulator: wave field, physics step and race tracker

    A shallow embedding of the simulation core of [src/main.ts]
    (wave sampling, [updatePhysics], [updateRace]) together with the
    properties stated about it.

    Numbers.  A JavaScript [number] is modelled as a real number ([R]):
    [Math.sin], [Math.cos], [Math.sqrt], [Math.exp], [Math.PI],
    [Math.min], [Math.max], [Math.abs] and [Math.floor] become [sin],
    [cos], [sqrt], [exp], [PI], [Rmin], [Rmax], [Rabs] and [Zfloor].
    Rounding, infinities and NaN are outside the model.  Integer-valued
    counters ([lastKmReached], loop indexes) are [Z].

    State.  The module-level variables of [main.ts] that the simulation
    reads or writes ([gameState], [foilState], [input], [race],
    [activeFoil], [PARAMS.windSpeed]) are gathered in one record
    ([Sim.World]) that every function takes and returns. *)

From Stdlib Require Import String.
From Stdlib Require Import Reals Lra Lia ZArith List Bool.
Import ListNotations.

Open Scope R_scope.

(** ** Comparisons as booleans *)

Definition Rleb (a b : R) : bool := if Rle_dec a b then true else false.
Definition Rltb (a b : R) : bool := if Rlt_dec a b then true else false.

(** [THREE.MathUtils.clamp(value, min, max)] is
    [Math.max(min, Math.min(max, value))]. *)
Definition clamp (value lo hi : R) : R := Rmax lo (Rmin hi value).

(** ** THREE.Vector2 and THREE.Vector3 *)

Module Vector2.
Record t : Type := mk { x : R; y : R }.
End Vector2.

Module Vector3.
Record t : Type := mk { x : R; y : R; z : R }.

Definition set_x (v : t) (a : R) : t := mk a (y v) (z v).
Definition set_y (v : t) (a : R) : t := mk (x v) a (z v).
Definition set_z (v : t) (a : R) : t := mk (x v) (y v) a.

Definition add (a b : t) : t := mk (x a + x b) (y a + y b) (z a + z b).

Definition multiplyScalar (v : t) (s : R) : t := mk (x v * s) (y v * s) (z v * s).

(** [divideScalar(s)] is [multiplyScalar(1 / s)]. *)
Definition divideScalar (v : t) (s : R) : t := multiplyScalar v (1 / s).

Definition addScaledVector (a v : t) (s : R) : t :=
  mk (x a + x v * s) (y a + y v * s) (z a + z v * s).

Definition dot (a b : t) : R := x a * x b + y a * y b + z a * z b.

Definition length (v : t) : R := sqrt (x v * x v + y v * y v + z v * z v).

(** [normalize()] is [divideScalar(length() || 1)]: a zero length is
    replaced by 1. *)
Definition normalize (v : t) : t :=
  let l := length v in
  divideScalar v (if Req_dec_T l 0 then 1 else l).

Definition crossVectors (a b : t) : t :=
  mk (y a * z b - z a * y b)
     (z a * x b - x a * z b)
     (x a * y b - y a * x b).
End Vector3.

(** ** Wave field *)

Module Wave.

Record WaveComponent : Type := mkWave {
  dir : Vector2.t;
  steepness : R;
  wavelength : R;
  speed : R
}.

(** The four swell components, in the order of the source table. *)
Definition waveConfig : list WaveComponent :=
  [ mkWave (Vector2.mk 0.2 0.9) 0.15 40.0 1.2;
    mkWave (Vector2.mk (-0.1) 0.95) 0.1 25.0 1.1;
    mkWave (Vector2.mk 0.3 0.8) 0.08 15.0 1.3;
    mkWave (Vector2.mk (-0.2) 0.9) 0.05 8.0 1.5 ].

(** What [getWaterDisplacement] returns. *)
Record SurfaceInfo : Type := mkInfo {
  position : Vector3.t;
  normal : Vector3.t
}.

(** The three accumulators of the loop in [getWaterDisplacement]. *)
Record Accum : Type := mkAccum {
  acc_p : Vector3.t;
  acc_tangent : Vector3.t;
  acc_binormal : Vector3.t
}.

Section Sample.
Variables (x z time windSpeed : R).

(** One iteration of the loop body of [getWaterDisplacement]. *)
Definition displaceStep (a0 : Accum) (w : WaveComponent) : Accum :=
  let k := 2.0 * PI / wavelength w in
  let c := sqrt (9.8 / k) * speed w * windSpeed in
  let d := Vector2.x (dir w) * x + Vector2.y (dir w) * z in
  let f := k * (d - c * time) in
  let effectiveSteepness := steepness w * windSpeed * windSpeed in
  let a := effectiveSteepness / k in
  let p := acc_p a0 in
  let tangent := acc_tangent a0 in
  let binormal := acc_binormal a0 in
  mkAccum
    (Vector3.mk
       (Vector3.x p + Vector2.x (dir w) * a * cos f)
       (Vector3.y p + a * sin f)
       (Vector3.z p + Vector2.y (dir w) * a * cos f))
    (Vector3.mk
       (Vector3.x tangent - Vector2.x (dir w) * Vector2.x (dir w) * effectiveSteepness * sin f)
       (Vector3.y tangent + Vector2.x (dir w) * effectiveSteepness * cos f)
       (Vector3.z tangent - Vector2.x (dir w) * Vector2.y (dir w) * effectiveSteepness * sin f))
    (Vector3.mk
       (Vector3.x binormal - Vector2.x (dir w) * Vector2.y (dir w) * effectiveSteepness * sin f)
       (Vector3.y binormal + Vector2.y (dir w) * effectiveSteepness * cos f)
       (Vector3.z binormal - Vector2.y (dir w) * Vector2.y (dir w) * effectiveSteepness * sin f)).

Definition displaceInit : Accum :=
  mkAccum (Vector3.mk x 0 z) (Vector3.mk 1 0 0) (Vector3.mk 0 0 1).

Definition displaceOver (ws : list WaveComponent) : SurfaceInfo :=
  let a := fold_left displaceStep ws displaceInit in
  mkInfo (acc_p a)
    (Vector3.normalize (Vector3.crossVectors (acc_binormal a) (acc_tangent a))).

Definition getWaterDisplacement : SurfaceInfo := displaceOver waveConfig.

(** One iteration of the loop body of [getWaterHeightFast]. *)
Definition heightStep (y : R) (w : WaveComponent) : R :=
  let k := 2.0 * PI / wavelength w in
  let c := sqrt (9.8 / k) * speed w * windSpeed in
  let d := Vector2.x (dir w) * x + Vector2.y (dir w) * z in
  let f := k * (d - c * time) in
  let eSteep := steepness w * windSpeed * windSpeed in
  y + (eSteep / k) * sin f.

Definition heightOver (ws : list WaveComponent) : R := fold_left heightStep ws 0.

Definition getWaterHeightFast : R := heightOver waveConfig.

(** The vertical term of one wave component as the specification
    words it: amplitude [steepness * windSpeed^2 / k] times the sine of
    the phase [k * (d . (x, z) - c * t)], with [k = 2 pi / lambda] and
    [c = sqrt (9.8 / k) * speedMultiplier * windSpeed]. *)
Definition specHeightTerm (w : WaveComponent) : R :=
  let k := 2 * PI / wavelength w in
  let c := sqrt (9.8 / k) * speed w * windSpeed in
  (steepness w * windSpeed ^ 2 / k)
  * sin (k * ((Vector2.x (dir w) * x + Vector2.y (dir w) * z) - c * time)).

Definition specHeightSum (ws : list WaveComponent) : R :=
  fold_right (fun w s => specHeightTerm w + s) 0 ws.
End Sample.

(** *** Surface solver

    [getSurfaceInfoAtWorldPos] calls [getWaterDisplacement] several
    times.  To speak about those calls, the solver is written in a
    writer monad whose log holds the grid point of every evaluation. *)

Definition Eval (A : Type) : Type := (A * list (R * R))%type.

Definition ret {A : Type} (a : A) : Eval A := (a, []).

Definition bind {A B : Type} (m : Eval A) (f : A -> Eval B) : Eval B :=
  let (a, l1) := m in
  let (b, l2) := f a in
  (b, l1 ++ l2).

Notation "x <- m ;; k" := (bind m (fun x => k))
  (at level 61, m at next level, right associativity).

(** An evaluation of the wave field: the result of
    [getWaterDisplacement], logged. *)
Definition evalDisplacement (x z time windSpeed : R) : Eval SurfaceInfo :=
  (getWaterDisplacement x z time windSpeed, [(x, z)]).

Section Solver.
Variables (worldX worldZ time windSpeed : R).

(** The state carried by the [for] loop: [testX], [testZ], [info]. *)
Definition solveBody (st : R * R * SurfaceInfo) : Eval (R * R * SurfaceInfo) :=
  let '(testX, testZ, info) := st in
  let errX := worldX - Vector3.x (position info) in
  let errZ := worldZ - Vector3.z (position info) in
  let testX := testX + errX in
  let testZ := testZ + errZ in
  info' <- evalDisplacement testX testZ time windSpeed ;;
  ret (testX, testZ, info').

(** [for (let i = 0; i < 3; i++) body], as [n] remaining rounds. *)
Fixpoint solveLoop (n : nat) (st : R * R * SurfaceInfo) : Eval (R * R * SurfaceInfo) :=
  match n with
  | O => ret st
  | S n' => st' <- solveBody st ;; solveLoop n' st'
  end.

Definition getSurfaceInfoAtWorldPosM : Eval SurfaceInfo :=
  let testX := worldX in
  let testZ := worldZ in
  info <- evalDisplacement testX testZ time windSpeed ;;
  st <- solveLoop 3 (testX, testZ, info) ;;
  ret (snd st).

Definition getSurfaceInfoAtWorldPos : SurfaceInfo := fst getSurfaceInfoAtWorldPosM.

(** The grid point tried after [p], as the algorithm shifts it: by
    the residual between the world target and the displaced [p]. *)
Definition shiftPoint (p : R * R) : R * R :=
  let info := getWaterDisplacement (fst p) (snd p) time windSpeed in
  (fst p + (worldX - Vector3.x (position info)),
   snd p + (worldZ - Vector3.z (position info))).
End Solver.

End Wave.

(** ** Simulation state *)

Module Sim.

Inductive GameState : Type := Starting | Riding | Crashed.

Record FoilConfig : Type := mkFoilConfig {
  wingSpan : R;
  wingArea : R;
  chord : R;
  aspectRatio : R;
  stallSpeed : R;
  maxLiftCoeff : R;
  baseDragCoeff : R;
  turnRateMax : R
}.

(** [FOIL_PRESETS]; the [name] field is the key of the table. *)
Definition HighAspectRace : FoilConfig :=
  mkFoilConfig 1.0 0.08 0.08 12.5 7.0 0.5 0.01 2.

Definition MidAspectCruise : FoilConfig :=
  mkFoilConfig 1.2 0.234 0.195 6.15 4.0 0.5 0.012 0.6.

Definition SPAWN_POINT : Vector3.t := Vector3.mk 0 0 (-800).

Definition RACE_LENGTH_KM : Z := 1.
Definition RACE_START_Z : R := Vector3.z SPAWN_POINT.

Definition GRAVITY : R := 9.81.
Definition RHO_WATER : R := 1025.
Definition RIDER_MASS : R := 80.
Definition MAST_LENGTH : R := 0.8.
Definition MAST_DRAG_AREA : R := 0.0015.
Definition PUMP_IMPULSE : R := 2.5.
Definition PUMP_COST : R := 20.
Definition PUMP_COOLDOWN : R := 0.35.
Definition ENERGY_REGEN : R := 5.
Definition MAX_ROLL : R := PI / 6.
Definition MAX_PITCH : R := PI / 36.
Definition ROLL_SPRING : R := 6.0.
Definition ROLL_DAMPING : R := 3.0.
Definition WAVE_TORQUE_GAIN : R := 2.0.
Definition HEIGHT_SPRING : R := 8.0.
Definition HEIGHT_DAMPING : R := 8.0.
Definition WAVE_ENERGY_MULT : R := 2.5.
Definition LATERAL_RESISTANCE : R := 1.0.

Record FoilState : Type := mkFoilState {
  position : Vector3.t;
  velocity : Vector3.t;
  heading : R;
  pitch : R;
  roll : R;
  rollRate : R;
  rideHeight : R;
  rideHeightVel : R;
  onFoil : bool;
  energy : R;
  speed : R;
  lastPumpTime : R;
  distanceTravelled : R
}.

Definition set_position (a : Vector3.t) (s : FoilState) : FoilState :=
  mkFoilState a (velocity s) (heading s) (pitch s) (roll s) (rollRate s)
    (rideHeight s) (rideHeightVel s) (onFoil s) (energy s) (speed s)
    (lastPumpTime s) (distanceTravelled s).

Definition set_velocity (a : Vector3.t) (s : FoilState) : FoilState :=
  mkFoilState (position s) a (heading s) (pitch s) (roll s) (rollRate s)
    (rideHeight s) (rideHeightVel s) (onFoil s) (energy s) (speed s)
    (lastPumpTime s) (distanceTravelled s).

Definition set_heading (a : R) (s : FoilState) : FoilState :=
  mkFoilState (position s) (velocity s) a (pitch s) (roll s) (rollRate s)
    (rideHeight s) (rideHeightVel s) (onFoil s) (energy s) (speed s)
    (lastPumpTime s) (distanceTravelled s).

Definition set_pitch (a : R) (s : FoilState) : FoilState :=
  mkFoilState (position s) (velocity s) (heading s) a (roll s) (rollRate s)
    (rideHeight s) (rideHeightVel s) (onFoil s) (energy s) (speed s)
    (lastPumpTime s) (distanceTravelled s).

Definition set_roll (a : R) (s : FoilState) : FoilState :=
  mkFoilState (position s) (velocity s) (heading s) (pitch s) a (rollRate s)
    (rideHeight s) (rideHeightVel s) (onFoil s) (energy s) (speed s)
    (lastPumpTime s) (distanceTravelled s).

Definition set_rollRate (a : R) (s : FoilState) : FoilState :=
  mkFoilState (position s) (velocity s) (heading s) (pitch s) (roll s) a
    (rideHeight s) (rideHeightVel s) (onFoil s) (energy s) (speed s)
    (lastPumpTime s) (distanceTravelled s).

Definition set_rideHeight (a : R) (s : FoilState) : FoilState :=
  mkFoilState (position s) (velocity s) (heading s) (pitch s) (roll s) (rollRate s)
    a (rideHeightVel s) (onFoil s) (energy s) (speed s)
    (lastPumpTime s) (distanceTravelled s).

Definition set_rideHeightVel (a : R) (s : FoilState) : FoilState :=
  mkFoilState (position s) (velocity s) (heading s) (pitch s) (roll s) (rollRate s)
    (rideHeight s) a (onFoil s) (energy s) (speed s)
    (lastPumpTime s) (distanceTravelled s).

Definition set_onFoil (a : bool) (s : FoilState) : FoilState :=
  mkFoilState (position s) (velocity s) (heading s) (pitch s) (roll s) (rollRate s)
    (rideHeight s) (rideHeightVel s) a (energy s) (speed s)
    (lastPumpTime s) (distanceTravelled s).

Definition set_energy (a : R) (s : FoilState) : FoilState :=
  mkFoilState (position s) (velocity s) (heading s) (pitch s) (roll s) (rollRate s)
    (rideHeight s) (rideHeightVel s) (onFoil s) a (speed s)
    (lastPumpTime s) (distanceTravelled s).

Definition set_speed (a : R) (s : FoilState) : FoilState :=
  mkFoilState (position s) (velocity s) (heading s) (pitch s) (roll s) (rollRate s)
    (rideHeight s) (rideHeightVel s) (onFoil s) (energy s) a
    (lastPumpTime s) (distanceTravelled s).

Definition set_lastPumpTime (a : R) (s : FoilState) : FoilState :=
  mkFoilState (position s) (velocity s) (heading s) (pitch s) (roll s) (rollRate s)
    (rideHeight s) (rideHeightVel s) (onFoil s) (energy s) (speed s)
    a (distanceTravelled s).

Definition set_distanceTravelled (a : R) (s : FoilState) : FoilState :=
  mkFoilState (position s) (velocity s) (heading s) (pitch s) (roll s) (rollRate s)
    (rideHeight s) (rideHeightVel s) (onFoil s) (energy s) (speed s)
    (lastPumpTime s) a.

Record Input : Type := mkInput {
  left : bool;
  right : bool;
  up : bool;
  down : bool;
  pump : bool
}.

Definition set_pump (a : bool) (i : Input) : Input :=
  mkInput (left i) (right i) (up i) (down i) a.

(** [splitFlashText] is either the empty string or the text
    [KM k] followed by [fmtTime(split)] on a second line; the model keeps
    the pair [(k, split)] the text is rendered from. *)
Inductive FlashText : Type :=
| NoFlash
| KmFlash (k : Z) (split : R).

Record RaceData : Type := mkRace {
  active : bool;
  finished : bool;
  startTime : R;
  kmSplitTimes : list R;
  lastKmReached : Z;
  totalElapsed : R;
  splitFlashText : FlashText;
  splitFlashTimer : R
}.

Definition set_active (a : bool) (r : RaceData) : RaceData :=
  mkRace a (finished r) (startTime r) (kmSplitTimes r) (lastKmReached r)
    (totalElapsed r) (splitFlashText r) (splitFlashTimer r).

Definition set_finished (a : bool) (r : RaceData) : RaceData :=
  mkRace (active r) a (startTime r) (kmSplitTimes r) (lastKmReached r)
    (totalElapsed r) (splitFlashText r) (splitFlashTimer r).

Definition set_kmSplitTimes (a : list R) (r : RaceData) : RaceData :=
  mkRace (active r) (finished r) (startTime r) a (lastKmReached r)
    (totalElapsed r) (splitFlashText r) (splitFlashTimer r).

Definition set_lastKmReached (a : Z) (r : RaceData) : RaceData :=
  mkRace (active r) (finished r) (startTime r) (kmSplitTimes r) a
    (totalElapsed r) (splitFlashText r) (splitFlashTimer r).

Definition set_totalElapsed (a : R) (r : RaceData) : RaceData :=
  mkRace (active r) (finished r) (startTime r) (kmSplitTimes r) (lastKmReached r)
    a (splitFlashText r) (splitFlashTimer r).

Definition set_splitFlashText (a : FlashText) (r : RaceData) : RaceData :=
  mkRace (active r) (finished r) (startTime r) (kmSplitTimes r) (lastKmReached r)
    (totalElapsed r) a (splitFlashTimer r).

Definition set_splitFlashTimer (a : R) (r : RaceData) : RaceData :=
  mkRace (active r) (finished r) (startTime r) (kmSplitTimes r) (lastKmReached r)
    (totalElapsed r) (splitFlashText r) a.

(** The module-level variables of the simulation.  [pumpAnims] counts the
    calls of [triggerPumpAnim] and [resultsShown] those of
    [showRaceResults]: both only drive the presentation layer. *)
Record World : Type := mkWorld {
  gameState : GameState;
  foilState : FoilState;
  input : Input;
  race : RaceData;
  activeFoil : FoilConfig;
  windSpeed : R;
  pumpAnims : nat;
  resultsShown : nat
}.

Definition set_gameState (a : GameState) (w : World) : World :=
  mkWorld a (foilState w) (input w) (race w) (activeFoil w) (windSpeed w)
    (pumpAnims w) (resultsShown w).

Definition set_foilState (a : FoilState) (w : World) : World :=
  mkWorld (gameState w) a (input w) (race w) (activeFoil w) (windSpeed w)
    (pumpAnims w) (resultsShown w).

Definition set_input (a : Input) (w : World) : World :=
  mkWorld (gameState w) (foilState w) a (race w) (activeFoil w) (windSpeed w)
    (pumpAnims w) (resultsShown w).

Definition set_race (a : RaceData) (w : World) : World :=
  mkWorld (gameState w) (foilState w) (input w) a (activeFoil w) (windSpeed w)
    (pumpAnims w) (resultsShown w).

Definition set_pumpAnims (a : nat) (w : World) : World :=
  mkWorld (gameState w) (foilState w) (input w) (race w) (activeFoil w) (windSpeed w)
    a (resultsShown w).

Definition set_resultsShown (a : nat) (w : World) : World :=
  mkWorld (gameState w) (foilState w) (input w) (race w) (activeFoil w) (windSpeed w)
    (pumpAnims w) a.

(** The state the module starts in. *)
Definition initialFoilState : FoilState :=
  mkFoilState SPAWN_POINT (Vector3.mk 0 0 0) 0 0 0 0 0.35 0 true 100 0 (-10) 0.

Definition initialRace : RaceData :=
  mkRace false false 0 [] 0 0 NoFlash 0.

Definition initialInput : Input := mkInput false false false false false.

Definition initialWorld : World :=
  mkWorld Starting initialFoilState initialInput initialRace HighAspectRace 1.18 0%nat 0%nat.

Definition resetRace (r : RaceData) : RaceData :=
  mkRace false false 0 [] 0 0 NoFlash 0.

Definition startRace (clockTime : R) (r : RaceData) : RaceData :=
  mkRace true false clockTime [] 0 0 NoFlash 0.

Definition smoothstep (edge0 edge1 x : R) : R :=
  let t := Rmax 0 (Rmin 1 ((x - edge0) / (edge1 - edge0))) in
  t * t * (3 - 2 * t).

Definition headingToDir (heading : R) : Vector3.t :=
  Vector3.mk (sin heading) 0 (cos heading).

(** [resetFoilState], restricted to the simulation state (it also clears
    the wake trail, the bubbles and the finish overlay). *)
Definition resetFoilState (w : World) : World :=
  mkWorld Starting
    (mkFoilState SPAWN_POINT (Vector3.mk 0 0 0) 0 0 0 0 0.35 0 true 100 0 (-10) 0)
    (input w) (resetRace (race w)) (activeFoil w) (windSpeed w)
    (pumpAnims w) (resultsShown w).

Definition launchFoil (w : World) : World :=
  let initialSpeed := stallSpeed (activeFoil w) * 1.5 in
  let dir := headingToDir (heading (foilState w)) in
  let fs := set_velocity (Vector3.multiplyScalar dir initialSpeed) (foilState w) in
  let fs := set_rideHeight 0.35 fs in
  let fs := set_onFoil true fs in
  set_gameState Riding (set_foilState fs w).

(** *** Wave sampling across the wing span *)

Record WaveSample : Type := mkSample {
  center : Wave.SurfaceInfo;
  leftTip : Wave.SurfaceInfo;
  rightTip : Wave.SurfaceInfo;
  gradient : Vector2.t
}.

Definition sampleWaveAtFoilPoints (time windSpeed : R) (w : World) : WaveSample :=
  let dir := headingToDir (heading (foilState w)) in
  let right := Vector3.mk (Vector3.z dir) 0 (- Vector3.x dir) in
  let halfSpan := wingSpan (activeFoil w) / 2 in
  let cx := Vector3.x (position (foilState w)) in
  let cz := Vector3.z (position (foilState w)) in
  let center := Wave.getSurfaceInfoAtWorldPos cx cz time windSpeed in
  let leftTip :=
    Wave.getSurfaceInfoAtWorldPos
      (cx - Vector3.x right * halfSpan) (cz - Vector3.z right * halfSpan)
      time windSpeed in
  let rightTip :=
    Wave.getSurfaceInfoAtWorldPos
      (cx + Vector3.x right * halfSpan) (cz + Vector3.z right * halfSpan)
      time windSpeed in
  let n := Wave.normal center in
  let ny := Rmax (Vector3.y n) 0.01 in
  let gradient := Vector2.mk (- Vector3.x n / ny) (- Vector3.z n / ny) in
  mkSample center leftTip rightTip gradient.

(** *** The physics step

    [updatePhysics] is a straight line of assignments.  It is cut here
    into the blocks its comments name, each a function on the state; the
    constants a block computes from the state on entry ([speed], [wave],
    [liftMag], [force]) are gathered in [Locals]. *)

Definition targetRollOf (i : Input) : R :=
  let targetRoll := 0 in
  let targetRoll := if left i then MAX_ROLL else targetRoll in
  let targetRoll := if right i then - MAX_ROLL else targetRoll in
  targetRoll.

Definition targetPitchOf (i : Input) : R :=
  let targetPitch := 0 in
  let targetPitch := if up i then MAX_PITCH else targetPitch in
  let targetPitch := if down i then - MAX_PITCH else targetPitch in
  targetPitch.

Record Locals : Type := mkLocals {
  l_dt : R;
  l_speed : R;
  l_waveTorque : R;
  l_liftMag : R;
  l_force : Vector3.t
}.

(** [dt] is the argument of [updatePhysics]; [l_dt] is the clamped step. *)
Definition stepLocals (dt time : R) (w : World) : Locals :=
  let dt := Rmin dt (1 / 30) in
  let foil := activeFoil w in
  let speed := Vector3.length (velocity (foilState w)) in
  let wave := sampleWaveAtFoilPoints time (windSpeed w) w in
  let heightDiff :=
    Vector3.y (Wave.position (rightTip wave)) - Vector3.y (Wave.position (leftTip wave)) in
  let waveTorque := (heightDiff / wingSpan foil) * WAVE_TORQUE_GAIN in
  let clFactor := smoothstep (stallSpeed foil * 0.7) (stallSpeed foil * 1.3) speed in
  let CL := maxLiftCoeff foil * clFactor in
  let liftMag := 0.5 * RHO_WATER * speed * speed * CL * wingArea foil in
  let inducedCD := (CL * CL) / (PI * aspectRatio foil * 0.85) in
  let totalCD := baseDragCoeff foil + inducedCD in
  let dragMag := 0.5 * RHO_WATER * speed * speed * totalCD * wingArea foil in
  let dragMag := dragMag + 0.5 * RHO_WATER * speed * speed * 0.8 * MAST_DRAG_AREA in
  let dragMag :=
    if Rltb (rideHeight (foilState w)) 0.1 then
      let wetFactor := 1.0 - rideHeight (foilState w) / 0.1 in
      dragMag + wetFactor * 0.5 * RHO_WATER * speed * speed * 0.3 * 0.05
    else dragMag in
  let force := Vector3.mk 0 0 0 in
  let force :=
    Vector3.set_x force
      (Vector3.x force
       + RIDER_MASS * GRAVITY * (- Vector2.x (gradient wave)) * WAVE_ENERGY_MULT) in
  let force :=
    Vector3.set_z force
      (Vector3.z force
       + RIDER_MASS * GRAVITY * (- Vector2.y (gradient wave)) * WAVE_ENERGY_MULT) in
  let force :=
    if Rltb 0.01 speed then
      let dragDir := Vector3.normalize (velocity (foilState w)) in
      Vector3.addScaledVector force dragDir (- dragMag)
    else force in
  mkLocals dt speed waveTorque liftMag force.

(** Roll spring-damper with wave torque, then the pitch spring. *)
Definition rollPitchStep (L : Locals) (i : Input) (s : FoilState) : FoilState :=
  let dt := l_dt L in
  let s := set_speed (l_speed L) s in
  let rollError := targetRollOf i - roll s in
  let rollAccel := rollError * ROLL_SPRING - rollRate s * ROLL_DAMPING + l_waveTorque L in
  let s := set_rollRate (rollRate s + rollAccel * dt) s in
  let s := set_roll (roll s + rollRate s * dt) s in
  let s := set_roll (clamp (roll s) (- MAX_ROLL * 1.2) (MAX_ROLL * 1.2)) s in
  set_pitch (pitch s + (targetPitchOf i - pitch s) * 5.0 * dt) s.

(** Turning from roll. *)
Definition turnStep (L : Locals) (foil : FoilConfig) (s : FoilState) : FoilState :=
  if Rltb 0.01 (Rabs (roll s)) && Rltb 1.0 (l_speed L) then
    let centripetal := l_liftMag L * sin (roll s) in
    let headingRate := centripetal / (RIDER_MASS * Rmax (l_speed L) 2.0) in
    let headingRate := clamp headingRate (- turnRateMax foil) (turnRateMax foil) in
    set_heading (heading s + headingRate * l_dt L) s
  else s.

(** The state just before the pump block. *)
Definition prePump (dt time : R) (w : World) : World :=
  let L := stepLocals dt time w in
  set_foilState (turnStep L (activeFoil w) (rollPitchStep L (input w) (foilState w))) w.

(** The guard of the pump block. *)
Definition pumpFires (time : R) (w : World) : bool :=
  pump (input w)
  && Rleb PUMP_COST (energy (foilState w))
  && Rltb PUMP_COOLDOWN (time - lastPumpTime (foilState w)).

(** The pump block, with the assignment [input.pump = false] after it. *)
Definition pumpStep (time : R) (w : World) : World :=
  let w :=
    if pumpFires time w then
      let s := foilState w in
      let pumpDir := headingToDir (heading s) in
      let s := set_velocity (Vector3.addScaledVector (velocity s) pumpDir PUMP_IMPULSE) s in
      let s := set_energy (energy s - PUMP_COST) s in
      let s := set_lastPumpTime time s in
      let s := set_rideHeight (Rmin (rideHeight s + 0.05) MAST_LENGTH) s in
      let w := set_foilState s w in
      let w := set_pumpAnims (S (pumpAnims w)) w in
      set_input (set_pump false (input w)) w
    else w in
  set_input (set_pump false (input w)) w.

(** Energy regeneration. *)
Definition regenStep (L : Locals) (s : FoilState) : FoilState :=
  set_energy (Rmin 100 (energy s + ENERGY_REGEN * l_dt L)) s.

(** Velocity integration, lateral slip decay, position integration. *)
Definition integrateStep (L : Locals) (s : FoilState) : FoilState :=
  let dt := l_dt L in
  let accel := Vector3.divideScalar (l_force L) RIDER_MASS in
  let s := set_velocity (Vector3.addScaledVector (velocity s) accel dt) s in
  let s := set_velocity (Vector3.set_y (velocity s) 0) s in
  let dir := headingToDir (heading s) in
  let fwdSpeed := Vector3.dot (velocity s) dir in
  let lateral := Vector3.addScaledVector (velocity s) dir (- fwdSpeed) in
  let lateral := Vector3.multiplyScalar lateral (exp (- LATERAL_RESISTANCE * dt)) in
  let s := set_velocity (Vector3.add (Vector3.multiplyScalar dir fwdSpeed) lateral) s in
  let s := set_position (Vector3.addScaledVector (position s) (velocity s) dt) s in
  set_distanceTravelled (distanceTravelled s + l_speed L * dt) s.

Definition liftRatioOf (L : Locals) : R := l_liftMag L / (RIDER_MASS * GRAVITY).

Definition minRideHeightOf (L : Locals) : R :=
  if Rltb 1.0 (liftRatioOf L) then 0.12 else 0.

(** Ride height spring-damper and its clamp, then the speed read back
    from the velocity. *)
Definition rideHeightStep (L : Locals) (s : FoilState) : FoilState :=
  let dt := l_dt L in
  let liftRatio := liftRatioOf L in
  let targetHeight := clamp ((liftRatio - 0.8) / 1.2 * MAST_LENGTH * 0.8) 0 MAST_LENGTH in
  let pitchBias := pitch s * 0.3 in
  let effectiveTarget := clamp (targetHeight + pitchBias) 0 MAST_LENGTH in
  let heightError := effectiveTarget - rideHeight s in
  let heightAccel := heightError * HEIGHT_SPRING - rideHeightVel s * HEIGHT_DAMPING in
  let s := set_rideHeightVel (rideHeightVel s + heightAccel * dt) s in
  let s := set_rideHeight (rideHeight s + rideHeightVel s * dt) s in
  let minRideHeight := minRideHeightOf L in
  let s := set_rideHeight (Rmax minRideHeight (Rmin MAST_LENGTH (rideHeight s))) s in
  set_speed (Vector3.length (velocity s)) s.

(** The state just before the crash check. *)
Definition preCrash (dt time : R) (w : World) : World :=
  let L := stepLocals dt time w in
  let w := pumpStep time (prePump dt time w) in
  set_foilState (rideHeightStep L (integrateStep L (regenStep L (foilState w)))) w.

Definition crashNow (w : World) : World :=
  let s := set_rideHeight 0 (foilState w) in
  let s := set_onFoil false s in
  set_gameState Crashed (set_foilState s w).

Definition crashCheck (w : World) : World :=
  let foil := activeFoil w in
  if Rleb (rideHeight (foilState w)) 0.001 then crashNow w
  else if Rltb (rideHeight (foilState w)) 0.05
          && Rltb (speed (foilState w)) (stallSpeed foil) then crashNow w
  else w.

Definition updatePhysics (dt time : R) (w : World) : World :=
  match gameState w with
  | Riding => crashCheck (preCrash dt time w)
  | _ => w
  end.

(** *** Race tracker *)

Definition downwindDist (w : World) : R :=
  Rmax 0 (Vector3.z (position (foilState w)) - RACE_START_Z).

(** The body of the split loop of [updateRace], for the km index [k]. *)
Definition recordSplit (k : Z) (r : RaceData) : RaceData :=
  let r := set_kmSplitTimes (kmSplitTimes r ++ [totalElapsed r]) r in
  let n := length (kmSplitTimes r) in
  let prev := if (1 <? n)%nat then nth (n - 2) (kmSplitTimes r) 0 else 0 in
  let split := totalElapsed r - prev in
  let r := set_splitFlashText (KmFlash k split) r in
  let r := set_splitFlashTimer 3.0 r in
  set_lastKmReached k r.

(** [for (let k = ...; k <= hi; k++) body]: [fuel] bounds the number of
    rounds and the guard is tested at each of them. *)
Fixpoint splitLoop (fuel : nat) (k hi : Z) (r : RaceData) : RaceData :=
  match fuel with
  | O => r
  | S fuel' =>
      if (k <=? hi)%Z then splitLoop fuel' (k + 1) hi (recordSplit k r) else r
  end.

(** [while (race.kmSplitTimes.length < len) push(totalElapsed)]. *)
Fixpoint backfill (fuel : nat) (len : Z) (r : RaceData) : RaceData :=
  match fuel with
  | O => r
  | S fuel' =>
      if (Z.of_nat (length (kmSplitTimes r)) <? len)%Z
      then backfill fuel' len (set_kmSplitTimes (kmSplitTimes r ++ [totalElapsed r]) r)
      else r
  end.

(** [updateRace] for a course of [courseKm] kilometres; the source fixes
    the length by the constant [RACE_LENGTH_KM].  The function is cut into
    the blocks its comments name. *)

(** Auto-start when the player launches. *)
Definition autoStart (time : R) (w : World) : World :=
  match gameState w with
  | Riding =>
      if negb (active (race w)) && negb (finished (race w))
      then set_race (startRace time (race w)) w
      else w
  | _ => w
  end.

(** Elapsed time, the split of each newly crossed km mark, flash decay. *)
Definition raceSplits (courseKm : Z) (dt time dwind : R) (w : World) : World :=
  let r := set_totalElapsed (time - startTime (race w)) (race w) in
  let kmReached := Zfloor (dwind / 1000) in
  let hi := Z.min kmReached courseKm in
  let k0 := (lastKmReached r + 1)%Z in
  let r := splitLoop (Z.to_nat (hi + 1 - k0)) k0 hi r in
  let r :=
    if Rltb 0 (splitFlashTimer r)
    then set_splitFlashTimer (splitFlashTimer r - dt) r
    else r in
  set_race r w.

(** Check finish. *)
Definition raceFinish (courseKm : Z) (time dwind : R) (w : World) : World :=
  if Rleb (IZR courseKm * 1000) dwind then
    let r := set_finished true (race w) in
    let r := set_active false r in
    let r := set_totalElapsed (time - startTime r) r in
    let r := set_splitFlashTimer 0 r in
    let r :=
      backfill (Z.to_nat (courseKm - Z.of_nat (length (kmSplitTimes r)))) courseKm r in
    set_resultsShown (S (resultsShown w)) (set_race r w)
  else w.

(** Crash during race. *)
Definition raceCrash (w : World) : World :=
  match gameState w with
  | Crashed => set_race (set_active false (race w)) w
  | _ => w
  end.

Definition updateRaceFor (courseKm : Z) (dt time : R) (w : World) : World :=
  let w := autoStart time w in
  if negb (active (race w)) then w
  else
    let dwind := downwindDist w in
    raceCrash (raceFinish courseKm time dwind (raceSplits courseKm dt time dwind w)).

Definition updateRace (dt time : R) (w : World) : World :=
  updateRaceFor RACE_LENGTH_KM dt time w.

(** One pass of [animate], as far as the simulation goes. *)
Definition animate (dt time : R) (w : World) : World :=
  updateRace dt time (updatePhysics dt time w).

(** The key handler of [KeyR]. *)
Definition keyRestart (w : World) : World :=
  match gameState w with
  | Crashed => resetFoilState w
  | _ => w
  end.

(** *** Runs of the race tracker

    Between two race updates the rest of the program moves the rider and
    changes [gameState] but leaves [race] alone, except for a restart.  A
    [Frame] holds what one call of [updateRace] gets to see. *)

Record Frame : Type := mkFrame {
  f_dt : R;
  f_time : R;
  f_gameState : GameState;
  f_z : R
}.

Definition observe (f : Frame) (w : World) : World :=
  let s := foilState w in
  set_gameState (f_gameState f)
    (set_foilState (set_position (Vector3.set_z (position s) (f_z f)) s) w).

Definition raceFrame (courseKm : Z) (w : World) (f : Frame) : World :=
  updateRaceFor courseKm (f_dt f) (f_time f) (observe f w).

Inductive Event : Type :=
| Tick (f : Frame)
| Restart.

Definition raceEvent (courseKm : Z) (w : World) (e : Event) : World :=
  match e with
  | Tick f => raceFrame courseKm w f
  | Restart => keyRestart w
  end.

Definition raceRun (courseKm : Z) (es : list Event) (w : World) : World :=
  fold_left (raceEvent courseKm) es w.

Definition frameDwind (f : Frame) : R := Rmax 0 (f_z f - RACE_START_Z).

(** The clock value of the first frame at which the rider is at or past
    the mark of kilometre [k]. *)
Definition firstReach (k : Z) (fs : list Frame) : option R :=
  option_map f_time (find (fun f => Rleb (IZR k * 1000) (frameDwind f)) fs).

(** A frame after which an active race is still on: no crash and the
    finish line not reached. *)
Definition raceGoesOn (courseKm : Z) (f : Frame) : Prop :=
  f_gameState f <> Crashed /\ frameDwind f < IZR courseKm * 1000.

Fixpoint nondecreasing (l : list R) : Prop :=
  match l with
  | a :: t =>
      match t with
      | b :: _ => a <= b /\ nondecreasing t
      | [] => True
      end
  | [] => True
  end.

Fixpoint eventTimes (es : list Event) : list R :=
  match es with
  | Tick f :: es' => f_time f :: eventTimes es'
  | Restart :: es' => eventTimes es'
  | [] => []
  end.

(** *** Runs of the whole simulation

    The key handlers that change the simulation state, and a run of the
    program as a list of key events and animation frames. *)

Definition keySpace (w : World) : World :=
  match gameState w with
  | Starting => launchFoil w
  | Riding => set_input (set_pump true (input w)) w
  | Crashed => w
  end.

(** [keydown] and [keyup] of the arrow keys set the four held flags. *)
Definition keyArrows (l r u d : bool) (w : World) : World :=
  set_input (mkInput l r u d (pump (input w))) w.

Inductive Action : Type :=
| Step (dt time : R)
| KeySpace
| KeyR
| KeyArrows (l r u d : bool).

Definition act (w : World) (a : Action) : World :=
  match a with
  | Step dt time => animate dt time w
  | KeySpace => keySpace w
  | KeyR => keyRestart w
  | KeyArrows l r u d => keyArrows l r u d w
  end.

Definition session (acts : list Action) (w : World) : World :=
  fold_left act acts w.

(** Every frame of the run advances the clock by a step that is not
    negative. *)
Fixpoint stepsForward (acts : list Action) : Prop :=
  match acts with
  | Step dt _ :: acts' => 0 <= dt /\ stepsForward acts'
  | _ :: acts' => stepsForward acts'
  | [] => True
  end.

(** Two states that agree on everything but the race data and the
    presentation counters. *)
Definition sameRider (w' w : World) : Prop :=
  gameState w' = gameState w /\ foilState w' = foilState w
  /\ input w' = input w /\ activeFoil w' = activeFoil w.

(** The invariant behind the order of the splits: they are in order and,
    while the race is active, none is later than the elapsed time at the
    clock value [bound]. *)
Definition splitsBounded (bound : R) (r : RaceData) : Prop :=
  nondecreasing (kmSplitTimes r)
  /\ (active r = true ->
      Forall (fun s => s <= bound - startTime r) (kmSplitTimes r)).

(** The race starts at clock time [t0]: either the state is the one
    [startRace] has just left, or the race is idle and the first of the
    frames [fs] sees the rider riding at [t0], so that the race update of
    that frame starts it. *)
Definition raceStarts (t0 : R) (w : World) (fs : list Frame) : Prop :=
  race w = startRace t0 (race w)
  \/ (active (race w) = false /\ finished (race w) = false
      /\ match fs with
         | f0 :: _ => f_gameState f0 = Riding /\ f_time f0 = t0
         | [] => False
         end).

(** The invariant of a race started at clock time [t0] that has seen the
    frames [fs]: it is still active, the number of splits is
    [lastKmReached], and the split of each kilometre is the elapsed time of
    the first frame at or past its mark. *)
Definition raceInv (courseKm : Z) (t0 : R) (fs : list Frame) (r : RaceData) : Prop :=
  active r = true /\ finished r = false /\ startTime r = t0
  /\ Z.of_nat (length (kmSplitTimes r)) = lastKmReached r
  /\ (lastKmReached r <= Z.max 0 courseKm)%Z
  /\ forall k : Z,
       (1 <= k <= courseKm)%Z ->
       nth_error (kmSplitTimes r) (Z.to_nat (k - 1))
       = option_map (fun t => t - t0) (firstReach k fs).

(** The ranges stated for the ride height and for the energy. *)
Definition heightInRange (w : World) : Prop :=
  0 <= rideHeight (foilState w) <= MAST_LENGTH.

Definition energyInRange (w : World) : Prop :=
  0 <= energy (foilState w) <= 100.

(** Calls of the physics step alone, one per pair [(dt, time)]. *)
Definition physicsRun (args : list (R * R)) (w : World) : World :=
  fold_left (fun w a => updatePhysics (fst a) (snd a) w) args w.

End Sim.

(** ** Sample states *)

(** A rider that has crashed at the spawn point. *)
Definition crashedWorld : Sim.World := Sim.crashNow Sim.initialWorld.

(** A rider just launched from the spawn point. *)
Definition launchedWorld : Sim.World := Sim.launchFoil Sim.initialWorld.

(** A rider 1000.5 m downwind of the start, in a race started at clock
    time 10, who has just crashed. *)
Definition crashAtLineWorld : Sim.World :=
  Sim.crashNow
    (Sim.set_race (Sim.startRace 10 Sim.initialRace)
       (Sim.set_foilState
          (Sim.set_position (Vector3.mk 0 0 200.5) (Sim.foilState launchedWorld))
          launchedWorld)).

(** Three frames of a rider going downwind: 500 m from the start at clock
    time 100, 1050 m at 200 and 2100 m at 400. *)
Definition frameA : Sim.Frame := Sim.mkFrame (1 / 60) 100 Sim.Riding (-300).
Definition frameB : Sim.Frame := Sim.mkFrame (1 / 60) 200 Sim.Riding 250.
Definition frameC : Sim.Frame := Sim.mkFrame (1 / 60) 400 Sim.Riding 1300.

(** The launched rider with the pump key pressed. *)
Definition pumpingWorld : Sim.World := Sim.keySpace launchedWorld.

(** The launched rider with a recorded speed of 6 m/s. *)
Definition glidingWorld : Sim.World :=
  Sim.set_foilState (Sim.set_speed 6 (Sim.foilState launchedWorld)) launchedWorld.

(** ** Further predicates on the simulation state *)

(** The clamp range of the roll angle and the range of the pitch targets. *)
Definition rollInRange (w : Sim.World) : Prop :=
  - Sim.MAX_ROLL * 1.2 <= Sim.roll (Sim.foilState w) <= Sim.MAX_ROLL * 1.2.

Definition pitchInRange (w : Sim.World) : Prop :=
  - Sim.MAX_PITCH <= Sim.pitch (Sim.foilState w) <= Sim.MAX_PITCH.

(** The changes of [gameState] each kind of event may make. *)
Definition mayChange (a : Sim.Action) (g g' : Sim.GameState) : Prop :=
  g' = g
  \/ match a with
     | Sim.Step _ _ => g = Sim.Riding /\ g' = Sim.Crashed
     | Sim.KeySpace => g = Sim.Starting /\ g' = Sim.Riding
     | Sim.KeyR => g = Sim.Crashed /\ g' = Sim.Starting
     | Sim.KeyArrows _ _ _ _ => False
     end.

(** The rider is off the foil exactly in the crashed state, and then lies
    on the water. *)
Definition foilMatchesState (w : Sim.World) : Prop :=
  (Sim.gameState w = Sim.Crashed <-> Sim.onFoil (Sim.foilState w) = false)
  /\ (Sim.gameState w = Sim.Crashed -> Sim.rideHeight (Sim.foilState w) = 0).

(** What no block of the physics step touches. *)
Definition sameSurroundings (w' w : Sim.World) : Prop :=
  Sim.race w' = Sim.race w
  /\ Sim.activeFoil w' = Sim.activeFoil w
  /\ Sim.windSpeed w' = Sim.windSpeed w
  /\ Sim.resultsShown w' = Sim.resultsShown w
  /\ Sim.left (Sim.input w') = Sim.left (Sim.input w)
  /\ Sim.right (Sim.input w') = Sim.right (Sim.input w)
  /\ Sim.up (Sim.input w') = Sim.up (Sim.input w)
  /\ Sim.down (Sim.input w') = Sim.down (Sim.input w).

(** A rider lying still on the water at the spawn point in the riding
    state, in a race started at clock time 10. *)
Definition restingWorld : Sim.World :=
  Sim.set_race (Sim.startRace 10 Sim.initialRace)
    (Sim.set_foilState (Sim.set_rideHeight 0 Sim.initialFoilState)
       (Sim.set_gameState Sim.Riding Sim.initialWorld)).

(** A rider with no speed, no height and level trim, no key held. *)
Definition atRest (w : Sim.World) : Prop :=
  Sim.gameState w = Sim.Riding
  /\ Sim.velocity (Sim.foilState w) = Vector3.mk 0 0 0
  /\ Sim.rideHeight (Sim.foilState w) = 0
  /\ Sim.rideHeightVel (Sim.foilState w) = 0
  /\ Sim.pitch (Sim.foilState w) = 0
  /\ Sim.up (Sim.input w) = false
  /\ Sim.down (Sim.input w) = false
  /\ Sim.pump (Sim.input w) = false.

(** ** Foam wake trail

    The list of wake points that [updateWakeTrail] keeps.  The second half
    of that function writes the vertex buffers of the trail mesh from the
    list and changes neither the list nor the emit time; it is not
    modelled. *)

Module Trail.

Record WakePoint : Type := mkWakePoint {
  x : R;
  z : R;
  perpX : R;
  perpZ : R;
  age : R;
  speedFactor : R
}.

Definition set_age (a : R) (p : WakePoint) : WakePoint :=
  mkWakePoint (x p) (z p) (perpX p) (perpZ p) a (speedFactor p).

Definition WAKE_MAX_POINTS : nat := 200.
Definition WAKE_MAX_AGE : R := 3.5.
Definition WAKE_EMIT_INTERVAL : R := 0.018.
Definition WAKE_MAST_OFFSET : R := -0.6.
Definition WAKE_MIN_SPACING_SQ : R := 0.15 * 0.15.

(** The module-level variables [wakePoints] and [lastWakeEmitTime]. *)
Record WakeState : Type := mkWake {
  wakePoints : list WakePoint;
  lastWakeEmitTime : R
}.

Definition initialWake : WakeState := mkWake [] 0.

(** [wakePoints.length = 0]. *)
Definition clearWakeTrail (k : WakeState) : WakeState :=
  mkWake [] (lastWakeEmitTime k).

(** [wakePoints[wakePoints.length - 1]], or [null] for an empty list. *)
Fixpoint lastPoint (l : list WakePoint) : option WakePoint :=
  match l with
  | [] => None
  | p :: t =>
      match t with
      | [] => Some p
      | _ :: _ => lastPoint t
      end
  end.

Definition isRiding (g : Sim.GameState) : bool :=
  match g with
  | Sim.Riding => true
  | _ => false
  end.

(** The emit block.  With no last point the source takes the distance to
    [-Infinity], which passes the spacing test for every finite position:
    the test is then true. *)
Definition emitWake (time : R) (w : Sim.World) (k : WakeState) : WakeState :=
  let s := Sim.foilState w in
  if isRiding (Sim.gameState w) && Sim.onFoil s && Rltb 1.0 (Sim.speed s) then
    if Rleb WAKE_EMIT_INTERVAL (time - lastWakeEmitTime k) then
      let dir := Sim.headingToDir (Sim.heading s) in
      let ex := Vector3.x (Sim.position s) + Vector3.x dir * WAKE_MAST_OFFSET in
      let ez := Vector3.z (Sim.position s) + Vector3.z dir * WAKE_MAST_OFFSET in
      let far :=
        match lastPoint (wakePoints k) with
        | None => true
        | Some last =>
            let dx := ex - x last in
            let dz := ez - z last in
            Rleb WAKE_MIN_SPACING_SQ (dx * dx + dz * dz)
        end in
      if far then
        let speedNorm := Rmin (Sim.speed s / 12.0) 1.0 in
        let pts :=
          wakePoints k
          ++ [mkWakePoint ex ez (- Vector3.z dir) (Vector3.x dir) 0 speedNorm] in
        let pts := if (WAKE_MAX_POINTS <? length pts)%nat then tl pts else pts in
        mkWake pts time
      else k
    else k
  else k.

(** [while (length > 0 && wakePoints[0].age >= WAKE_MAX_AGE) shift()]. *)
Fixpoint dropOld (l : list WakePoint) : list WakePoint :=
  match l with
  | [] => []
  | p :: t => if Rleb WAKE_MAX_AGE (age p) then dropOld t else l
  end.

(** The ageing block. *)
Definition ageWake (dt : R) (w : Sim.World) (k : WakeState) : WakeState :=
  let notFoiling :=
    negb (isRiding (Sim.gameState w)) || negb (Sim.onFoil (Sim.foilState w)) in
  let ageStep := if notFoiling then dt * 7.0 else dt in
  let pts := map (fun wp => set_age (age wp + ageStep) wp) (wakePoints k) in
  mkWake (dropOld pts) (lastWakeEmitTime k).

Definition updateWakeTrail (dt time : R) (w : Sim.World) (k : WakeState) : WakeState :=
  ageWake dt w (emitWake time w k).

(** Older points come first and no age is negative. *)
Fixpoint olderFirst (l : list WakePoint) : Prop :=
  match l with
  | p :: t =>
      match t with
      | q :: _ => age q <= age p /\ olderFirst t
      | [] => True
      end
  | [] => True
  end.

Definition agesOrdered (l : list WakePoint) : Prop :=
  olderFirst l /\ Forall (fun p => 0 <= age p) l.

(** Neighbours in the list are at least the minimum spacing apart. *)
Fixpoint wellSpaced (l : list WakePoint) : Prop :=
  match l with
  | p :: t =>
      match t with
      | q :: _ =>
          WAKE_MIN_SPACING_SQ
          <= (x q - x p) * (x q - x p) + (z q - z p) * (z q - z p)
          /\ wellSpaced t
      | [] => True
      end
  | [] => True
  end.

End Trail.

(** *** Sample wake trails *)

(** The object that the emit block pushes. *)
Definition emittedPoint (w : Sim.World) : Trail.WakePoint :=
  let s := Sim.foilState w in
  let dir := Sim.headingToDir (Sim.heading s) in
  Trail.mkWakePoint
    (Vector3.x (Sim.position s) + Vector3.x dir * Trail.WAKE_MAST_OFFSET)
    (Vector3.z (Sim.position s) + Vector3.z dir * Trail.WAKE_MAST_OFFSET)
    (- Vector3.z dir) (Vector3.x dir) 0 (Rmin (Sim.speed s / 12.0) 1.0).

(** A wake point on the centre line of the course. *)
Definition trailPoint (z age : R) : Trail.WakePoint :=
  Trail.mkWakePoint 0 z 1 0 age 0.5.

(** A trail at the cap of 200 points, whose last point lies 0.4 m behind
    the place where the rider at the spawn point emits. *)
Definition fullTrail : list Trail.WakePoint :=
  repeat (trailPoint (-802) 1) 199 ++ [trailPoint (-801) 0.5].

(** Three points, oldest first, the first of them about to expire. *)
Definition agedTrail : list Trail.WakePoint :=
  [trailPoint (-803) 3.49; trailPoint (-802) 2; trailPoint (-801) 0.5].

(** Two points 1 m apart. *)
Definition shortTrail : list Trail.WakePoint :=
  [trailPoint (-802) 2; trailPoint (-801) 0.5].

(** ** High scores

    [loadHighScores] and [saveHighScore] over a model of the browser's
    [localStorage].  The store is seen at the keys
    [downwind-highscores-<km>km], one per course length [km].  What a key
    holds is seen through what the code tells apart: text that [JSON.parse]
    rejects (the empty string among it), a value that is not an array, or
    an array, whose elements are [null] (reading [e.time] throws), an
    object with a number [time] and a string [date], or anything else (the
    filter drops it).  [JSON.stringify] followed by [JSON.parse] is taken to
    give back the entries written.  The date of a new entry is the
    argument [now]; [quotaOk] tells whether [setItem] succeeds. *)

Module Scores.

Definition HIGH_SCORE_MAX : nat := 3.

Record HighScoreEntry : Type := mkEntry {
  time : R;
  date : string
}.

Inductive Stored : Type :=
| SNull
| SOther
| SEntry (e : HighScoreEntry).

Inductive Raw : Type :=
| Garbage
| NotArray
| Arr (l : list Stored).

Definition Storage : Type := Z -> option Raw.

Definition emptyStorage : Storage := fun _ => None.

Definition setItem (km : Z) (v : Raw) (st : Storage) : Storage :=
  fun k => if (k =? km)%Z then Some v else st k.

Definition isNull (s : Stored) : bool :=
  match s with
  | SNull => true
  | _ => false
  end.

(** The filter on [typeof e.time] and [typeof e.date], on an array without
    [null]. *)
Definition validEntries (l : list Stored) : list HighScoreEntry :=
  flat_map (fun s => match s with SEntry e => [e] | _ => [] end) l.

(** [Array.prototype.sort] with the comparator [a.time - b.time] is a
    stable sort by [time]: here by insertion, an element going before the
    first one that is not smaller. *)
Fixpoint insertBy {A : Type} (key : A -> R) (e : A) (l : list A) : list A :=
  match l with
  | [] => [e]
  | y :: t => if Rleb (key e) (key y) then e :: l else y :: insertBy key e t
  end.

Definition sortBy {A : Type} (key : A -> R) (l : list A) : list A :=
  fold_right (insertBy key) [] l.

Definition loadHighScores (km : Z) (st : Storage) : list HighScoreEntry :=
  match st km with
  | None => []
  | Some Garbage => []
  | Some NotArray => []
  | Some (Arr l) =>
      if existsb isNull l then []
      else firstn HIGH_SCORE_MAX (sortBy time (validEntries l))
  end.

(** [findIndex]: the index of the first element that passes, or -1. *)
Fixpoint findIndex {A : Type} (f : A -> bool) (l : list A) : Z :=
  match l with
  | [] => -1
  | a :: t =>
      if f a then 0
      else
        let i := findIndex f t in
        if (i <? 0)%Z then -1 else (i + 1)%Z
  end.

(** [saveHighScore].  The object [entry] is told from the loaded ones, as
    [e === entry] does, by a flag carried through the sort.  The result is
    [rank], [isNew] and the store afterwards. *)
Definition saveHighScore (km : Z) (t : R) (now : string) (quotaOk : bool)
    (st : Storage) : Z * bool * Storage :=
  let scores := loadHighScores km st in
  let entry := mkEntry t now in
  let scores := map (fun e => (e, false)) scores ++ [(entry, true)] in
  let scores := sortBy (fun p => time (fst p)) scores in
  let rank := (findIndex snd scores + 1)%Z in
  let trimmed := firstn HIGH_SCORE_MAX (map fst scores) in
  let isNew := (rank <=? Z.of_nat HIGH_SCORE_MAX)%Z in
  let st := if quotaOk then setItem km (Arr (map SEntry trimmed)) st else st in
  (rank, isNew, st).

(** A list in non-decreasing order of [key]. *)
Definition sortedBy {A : Type} (key : A -> R) (l : list A) : Prop :=
  Sim.nondecreasing (map key l).

(** The entries of [l] at or before the time [t], and those after it. *)
Definition notAfter (t : R) (l : list HighScoreEntry) : list HighScoreEntry :=
  filter (fun e => Rleb (time e) t) l.

Definition after (t : R) (l : list HighScoreEntry) : list HighScoreEntry :=
  filter (fun e => negb (Rleb (time e) t)) l.

End Scores.

(** * Properties *)

(** ** Arithmetic helpers *)

Lemma Rleb_true (a b : R) : Rleb a b = true <-> a <= b.
Proof.
  unfold Rleb; destruct (Rle_dec a b); split; intros; try lra; discriminate.
Qed.

Lemma Rleb_false (a b : R) : Rleb a b = false <-> b < a.
Proof.
  unfold Rleb; destruct (Rle_dec a b); split; intros;
    try lra; try discriminate; reflexivity.
Qed.

Lemma Rltb_true (a b : R) : Rltb a b = true <-> a < b.
Proof.
  unfold Rltb; destruct (Rlt_dec a b); split; intros; try lra; discriminate.
Qed.

Lemma Rltb_false (a b : R) : Rltb a b = false <-> b <= a.
Proof.
  unfold Rltb; destruct (Rlt_dec a b); split; intros;
    try lra; try discriminate; reflexivity.
Qed.

Lemma clamp_bounds (v lo hi : R) : lo <= hi -> lo <= clamp v lo hi <= hi.
Proof.
  intros Hle; unfold clamp; split.
  - apply Rmax_l.
  - apply Rmax_lub; [exact Hle | apply Rmin_l].
Qed.

(** ** Wave field *)

Section WaveFacts.
Import Wave.
Variables (x z time windSpeed : R).

Lemma displace_height_step (a0 : Accum) (w : WaveComponent) :
  Vector3.y (acc_p (displaceStep x z time windSpeed a0 w))
  = heightStep x z time windSpeed (Vector3.y (acc_p a0)) w.
Proof. reflexivity. Qed.

(** The vertical accumulator of the displacement loop runs through the
    same values as the accumulator of the height loop. *)
Lemma displace_height_fold (ws : list WaveComponent) :
  forall a0 : Accum,
    Vector3.y (acc_p (fold_left (displaceStep x z time windSpeed) ws a0))
    = fold_left (heightStep x z time windSpeed) ws (Vector3.y (acc_p a0)).
Proof.
  induction ws as [| w ws IH]; intros a0; simpl.
  - reflexivity.
  - rewrite IH, displace_height_step. reflexivity.
Qed.

Lemma heightStep_spec (y : R) (w : WaveComponent) :
  heightStep x z time windSpeed y w = y + specHeightTerm x z time windSpeed w.
Proof.
  unfold heightStep, specHeightTerm.
  replace 2.0 with 2 by lra.
  replace (windSpeed ^ 2) with (windSpeed * windSpeed) by ring.
  rewrite <- Rmult_assoc. reflexivity.
Qed.

Lemma height_fold_spec (ws : list WaveComponent) :
  forall y : R,
    fold_left (heightStep x z time windSpeed) ws y
    = y + specHeightSum x z time windSpeed ws.
Proof.
  induction ws as [| w ws IH]; intros y; simpl.
  - ring.
  - rewrite IH, heightStep_spec. ring.
Qed.

End WaveFacts.

(** C9.  For every [x], [z], [t] and [windSpeed], the cheap height function
    returns exactly the y-component of the position of the full displacement
    sample, and both are the sum over the 4 wave components of
    [(steepness * windSpeed^2 / k) * sin (k * (d . (x,z) - c * t))] with
    [k = 2 pi / lambda] and [c = sqrt (9.8 / k) * speed * windSpeed]. *)
Theorem height_fast_is_displacement_y (x z t windSpeed : R) :
  Wave.getWaterHeightFast x z t windSpeed
  = Vector3.y (Wave.position (Wave.getWaterDisplacement x z t windSpeed))
  /\ Wave.getWaterHeightFast x z t windSpeed
     = Wave.specHeightSum x z t windSpeed Wave.waveConfig
  /\ length Wave.waveConfig = 4%nat.
Proof.
  split; [| split].
  - unfold Wave.getWaterHeightFast, Wave.heightOver, Wave.getWaterDisplacement,
      Wave.displaceOver.
    cbv zeta. cbn [Wave.position].
    rewrite displace_height_fold. reflexivity.
  - unfold Wave.getWaterHeightFast, Wave.heightOver.
    rewrite height_fold_spec. ring.
  - reflexivity.
Qed.

(** C7.  The surface solver evaluates the wave displacement exactly 4
    times, whatever the input: first at [(worldX, worldZ)], then 3 times at
    the previous point shifted by the residual between the world target and
    the displaced point; it returns the sample of the last evaluation.  No
    test on the residual decides the number of rounds. *)
Theorem surface_solver_four_evaluations (worldX worldZ t windSpeed : R) :
  let D := fun p : R * R => Wave.getWaterDisplacement (fst p) (snd p) t windSpeed in
  let p0 := (worldX, worldZ) in
  let p1 := Wave.shiftPoint worldX worldZ t windSpeed p0 in
  let p2 := Wave.shiftPoint worldX worldZ t windSpeed p1 in
  let p3 := Wave.shiftPoint worldX worldZ t windSpeed p2 in
  Wave.getSurfaceInfoAtWorldPosM worldX worldZ t windSpeed = (D p3, [p0; p1; p2; p3])
  /\ length (snd (Wave.getSurfaceInfoAtWorldPosM worldX worldZ t windSpeed)) = 4%nat
  /\ Wave.getSurfaceInfoAtWorldPos worldX worldZ t windSpeed = D p3.
Proof.
  cbv zeta. split; [| split]; reflexivity.
Qed.

(** ** Physics step *)

Section PhysicsFacts.
Import Sim.

(** *** What the blocks leave alone *)

Lemma turnStep_keeps (L : Locals) (foil : FoilConfig) (s : FoilState) :
  let s' := turnStep L foil s in
  position s' = position s /\ velocity s' = velocity s
  /\ rideHeight s' = rideHeight s /\ energy s' = energy s
  /\ lastPumpTime s' = lastPumpTime s /\ onFoil s' = onFoil s.
Proof.
  unfold turnStep.
  destruct (Rltb 0.01 (Rabs (roll s)) && Rltb 1.0 (l_speed L)); cbn; repeat split.
Qed.

Lemma prePump_keeps (dt time : R) (w : World) :
  let b := prePump dt time w in
  gameState b = gameState w /\ input b = input w /\ activeFoil b = activeFoil w
  /\ pumpAnims b = pumpAnims w /\ race b = race w
  /\ position (foilState b) = position (foilState w)
  /\ velocity (foilState b) = velocity (foilState w)
  /\ rideHeight (foilState b) = rideHeight (foilState w)
  /\ energy (foilState b) = energy (foilState w)
  /\ lastPumpTime (foilState b) = lastPumpTime (foilState w)
  /\ onFoil (foilState b) = onFoil (foilState w).
Proof.
  unfold prePump; cbv zeta; cbn [gameState input activeFoil pumpAnims race foilState set_foilState].
  repeat (split; [reflexivity |]).
  destruct (turnStep_keeps (stepLocals dt time w) (activeFoil w)
              (rollPitchStep (stepLocals dt time w) (input w) (foilState w)))
    as (Hp & Hv & Hr & He & Hl & Ho).
  rewrite Hp, Hv, Hr, He, Hl, Ho. cbn. repeat split.
Qed.

Lemma pumpStep_keeps (time : R) (w : World) :
  let a := pumpStep time w in
  gameState a = gameState w /\ activeFoil a = activeFoil w /\ race a = race w
  /\ position (foilState a) = position (foilState w)
  /\ heading (foilState a) = heading (foilState w)
  /\ onFoil (foilState a) = onFoil (foilState w)
  /\ pump (input a) = false.
Proof.
  unfold pumpStep. destruct (pumpFires time w); cbn; repeat split.
Qed.

Lemma preCrash_keeps (dt time : R) (w : World) :
  let p := preCrash dt time w in
  gameState p = gameState w /\ activeFoil p = activeFoil w /\ race p = race w
  /\ onFoil (foilState p) = onFoil (foilState w)
  /\ pump (input p) = false.
Proof.
  unfold preCrash; cbv zeta.
  destruct (pumpStep_keeps time (prePump dt time w)) as (Hg & Hf & Hr & _ & _ & Ho & Hp).
  destruct (prePump_keeps dt time w) as (Hg' & _ & Hf' & _ & Hr' & _ & _ & _ & _ & _ & Ho').
  cbn [gameState activeFoil race input foilState set_foilState].
  rewrite Hg, Hf, Hr, Hp, Hg', Hf', Hr'.
  repeat (split; [reflexivity |]).
  split; [| reflexivity].
  change (onFoil (foilState (pumpStep time (prePump dt time w)))
          = onFoil (foilState w)).
  rewrite Ho, Ho'. reflexivity.
Qed.

Lemma crashCheck_cases (w : World) :
  crashCheck w = w \/ crashCheck w = crashNow w.
Proof.
  unfold crashCheck; cbv zeta.
  destruct (Rleb (rideHeight (foilState w)) 0.001); [right; reflexivity |].
  destruct (Rltb (rideHeight (foilState w)) 0.05
            && Rltb (speed (foilState w)) (stallSpeed (activeFoil w)));
    [right | left]; reflexivity.
Qed.

Lemma crashCheck_input (w : World) : input (crashCheck w) = input w.
Proof.
  destruct (crashCheck_cases w) as [E | E]; rewrite E; reflexivity.
Qed.

Lemma updatePhysics_riding (dt time : R) (w : World) :
  gameState w = Riding ->
  updatePhysics dt time w = crashCheck (preCrash dt time w).
Proof. intros H; unfold updatePhysics; rewrite H; reflexivity. Qed.

Lemma updatePhysics_not_riding (dt time : R) (w : World) :
  gameState w <> Riding -> updatePhysics dt time w = w.
Proof.
  intros H; unfold updatePhysics.
  destruct (gameState w); try reflexivity. contradiction H; reflexivity.
Qed.

Lemma physicsRun_not_riding (args : list (R * R)) (w : World) :
  gameState w <> Riding -> physicsRun args w = w.
Proof.
  intros H; unfold physicsRun.
  induction args as [| a args IH]; simpl.
  - reflexivity.
  - rewrite updatePhysics_not_riding by exact H. exact IH.
Qed.

End PhysicsFacts.

(** C1.  A call of the physics step made while [gameState] is not
    [Riding], in particular once it is [Crashed], returns the whole state
    unchanged, the rider state included; so does any number of further
    calls, whatever their arguments.  Only the restart key leaves the
    crashed state, and it puts the rider state back to its spawn values. *)
Theorem physics_noop_unless_riding (dt time : R) (args : list (R * R)) (w : Sim.World) :
  Sim.gameState w <> Sim.Riding ->
  Sim.updatePhysics dt time w = w
  /\ Sim.foilState (Sim.updatePhysics dt time w) = Sim.foilState w
  /\ Sim.physicsRun args w = w
  /\ (Sim.gameState w = Sim.Crashed ->
      Sim.gameState (Sim.keyRestart w) = Sim.Starting
      /\ Sim.foilState (Sim.keyRestart w) = Sim.initialFoilState).
Proof.
  intros H. split; [| split; [| split]].
  - apply updatePhysics_not_riding; exact H.
  - rewrite updatePhysics_not_riding by exact H; reflexivity.
  - apply physicsRun_not_riding; exact H.
  - intros Hc; unfold Sim.keyRestart; rewrite Hc; split; reflexivity.
Qed.

Lemma physics_noop_unless_riding_witness :
  Sim.updatePhysics (1 / 60) 12 crashedWorld = crashedWorld
  /\ Sim.physicsRun [(1 / 60, 12); (1 / 50, 12.02); (1, 13.02)] crashedWorld = crashedWorld.
Proof.
  assert (H : Sim.gameState crashedWorld <> Sim.Riding) by (simpl; discriminate).
  split.
  - exact (proj1 (physics_noop_unless_riding (1 / 60) 12 [] crashedWorld H)).
  - exact (proj1 (proj2 (proj2 (physics_noop_unless_riding (1 / 60) 12
             [(1 / 60, 12); (1 / 50, 12.02); (1, 13.02)] crashedWorld H)))).
Defined.

Section StepFacts.
Import Sim.

Lemma stepLocals_dt (dt time : R) (w : World) :
  l_dt (stepLocals dt time w) = Rmin dt (1 / 30).
Proof. reflexivity. Qed.

Lemma stepLocals_dt_nonneg (dt time : R) (w : World) :
  0 <= dt -> 0 <= l_dt (stepLocals dt time w).
Proof.
  intros H; rewrite stepLocals_dt. apply Rmin_glb; lra.
Qed.

Lemma pumpFires_iff (time : R) (w : World) :
  pumpFires time w = true
  <-> pump (input w) = true
      /\ 20 <= energy (foilState w)
      /\ time - lastPumpTime (foilState w) > 0.35.
Proof.
  unfold pumpFires, PUMP_COST, PUMP_COOLDOWN.
  rewrite !andb_true_iff, Rleb_true, Rltb_true.
  split; intros H; repeat split; try tauto; lra.
Qed.

Lemma pumpStep_fired (time : R) (w : World) :
  pumpFires time w = true ->
  foilState (pumpStep time w)
  = set_rideHeight (Rmin (rideHeight (foilState w) + 0.05) 0.8)
      (set_lastPumpTime time
         (set_energy (energy (foilState w) - 20)
            (set_velocity
               (Vector3.mk
                  (Vector3.x (velocity (foilState w)) + sin (heading (foilState w)) * 2.5)
                  (Vector3.y (velocity (foilState w)) + 0 * 2.5)
                  (Vector3.z (velocity (foilState w)) + cos (heading (foilState w)) * 2.5))
               (foilState w))))
  /\ pumpAnims (pumpStep time w) = S (pumpAnims w).
Proof.
  intros H; unfold pumpStep; rewrite H. split; reflexivity.
Qed.

Lemma pumpStep_idle (time : R) (w : World) :
  pumpFires time w = false ->
  foilState (pumpStep time w) = foilState w
  /\ pumpAnims (pumpStep time w) = pumpAnims w.
Proof.
  intros H; unfold pumpStep; rewrite H. split; reflexivity.
Qed.

(** *** Energy *)

Lemma pumpStep_energy (time : R) (w : World) :
  0 <= energy (foilState w) <= 100 ->
  0 <= energy (foilState (pumpStep time w)) <= 100.
Proof.
  intros H. destruct (pumpFires time w) eqn:F.
  - destruct (pumpStep_fired time w F) as [E _]; rewrite E; cbn.
    apply pumpFires_iff in F. lra.
  - destruct (pumpStep_idle time w F) as [E _]; rewrite E. exact H.
Qed.

Lemma regenStep_energy (L : Locals) (s : FoilState) :
  0 <= l_dt L -> 0 <= energy s ->
  0 <= energy (regenStep L s) <= 100.
Proof.
  intros Hdt He; unfold regenStep, ENERGY_REGEN; cbn. split.
  - apply Rmin_glb; nra.
  - apply Rmin_l.
Qed.

Lemma tail_energy (L : Locals) (s : FoilState) :
  energy (rideHeightStep L (integrateStep L s)) = energy s.
Proof. reflexivity. Qed.

Lemma crashCheck_energy (w : World) :
  energy (foilState (crashCheck w)) = energy (foilState w).
Proof.
  destruct (crashCheck_cases w) as [E | E]; rewrite E; reflexivity.
Qed.

Lemma updatePhysics_energy (dt time : R) (w : World) :
  0 <= dt ->
  0 <= energy (foilState w) <= 100 ->
  0 <= energy (foilState (updatePhysics dt time w)) <= 100.
Proof.
  intros Hdt He.
  destruct (gameState w) eqn:G;
    try (rewrite updatePhysics_not_riding by (rewrite G; discriminate); exact He).
  rewrite updatePhysics_riding by exact G.
  rewrite crashCheck_energy.
  unfold preCrash; cbv zeta; cbn [foilState set_foilState].
  rewrite tail_energy.
  apply regenStep_energy.
  - apply stepLocals_dt_nonneg; exact Hdt.
  - apply pumpStep_energy.
    destruct (prePump_keeps dt time w) as (_ & _ & _ & _ & _ & _ & _ & _ & E & _).
    rewrite E; exact He.
Qed.

(** *** The race update and the keys leave the physics state alone *)

Lemma splitLoop_race_only (fuel : nat) :
  forall (k hi : Z) (r : RaceData),
    active (splitLoop fuel k hi r) = active r
    /\ finished (splitLoop fuel k hi r) = finished r
    /\ startTime (splitLoop fuel k hi r) = startTime r
    /\ totalElapsed (splitLoop fuel k hi r) = totalElapsed r.
Proof.
  induction fuel as [| fuel IH]; intros k hi r; simpl.
  - repeat split.
  - destruct (k <=? hi)%Z; [| repeat split].
    destruct (IH (k + 1)%Z hi (recordSplit k r)) as (A & B & C & D).
    rewrite A, B, C, D. repeat split.
Qed.

Lemma sameRider_trans (w1 w2 w3 : World) :
  sameRider w1 w2 -> sameRider w2 w3 -> sameRider w1 w3.
Proof.
  unfold sameRider; intros (A & B & C & D) (A' & B' & C' & D').
  rewrite A, B, C, D. auto.
Qed.

Lemma autoStart_keeps (time : R) (w : World) : sameRider (autoStart time w) w.
Proof.
  unfold sameRider, autoStart.
  destruct (gameState w) eqn:G;
    try destruct (negb (active (race w)) && negb (finished (race w)));
    cbn; auto.
Qed.

Lemma raceSplits_keeps (courseKm : Z) (dt time dwind : R) (w : World) :
  sameRider (raceSplits courseKm dt time dwind w) w.
Proof. unfold sameRider, raceSplits; cbn; auto. Qed.

Lemma raceFinish_keeps (courseKm : Z) (time dwind : R) (w : World) :
  sameRider (raceFinish courseKm time dwind w) w.
Proof.
  unfold sameRider, raceFinish.
  destruct (Rleb (IZR courseKm * 1000) dwind); cbn; auto.
Qed.

Lemma raceCrash_keeps (w : World) : sameRider (raceCrash w) w.
Proof.
  unfold sameRider, raceCrash. destruct (gameState w) eqn:G; cbn; auto.
Qed.

Lemma updateRaceFor_keeps (courseKm : Z) (dt time : R) (w : World) :
  sameRider (updateRaceFor courseKm dt time w) w.
Proof.
  unfold updateRaceFor; cbv zeta.
  destruct (negb (active (race (autoStart time w)))).
  - apply autoStart_keeps.
  - eapply sameRider_trans; [apply raceCrash_keeps |].
    eapply sameRider_trans; [apply raceFinish_keeps |].
    eapply sameRider_trans; [apply raceSplits_keeps |].
    apply autoStart_keeps.
Qed.

End StepFacts.

Section HeightFacts.
Import Sim.

Lemma minRideHeight_cases (L : Locals) :
  (1 < liftRatioOf L /\ minRideHeightOf L = 0.12)
  \/ (liftRatioOf L <= 1 /\ minRideHeightOf L = 0).
Proof.
  unfold minRideHeightOf.
  destruct (Rltb 1.0 (liftRatioOf L)) eqn:E.
  - left. apply Rltb_true in E. split; [lra | reflexivity].
  - right. apply Rltb_false in E. split; [lra | reflexivity].
Qed.

Lemma rideHeightStep_value (L : Locals) (s : FoilState) :
  exists h : R,
    rideHeight (rideHeightStep L s) = Rmax (minRideHeightOf L) (Rmin MAST_LENGTH h).
Proof. eexists; reflexivity. Qed.

Lemma rideHeightStep_range (L : Locals) (s : FoilState) :
  minRideHeightOf L <= rideHeight (rideHeightStep L s) <= MAST_LENGTH
  /\ 0 <= minRideHeightOf L.
Proof.
  destruct (rideHeightStep_value L s) as [h E]; rewrite E.
  assert (Hm : 0 <= minRideHeightOf L <= MAST_LENGTH).
  { unfold MAST_LENGTH.
    destruct (minRideHeight_cases L) as [[_ M] | [_ M]]; rewrite M; lra. }
  split; [split |].
  - apply Rmax_l.
  - apply Rmax_lub; [apply Hm | apply Rmin_l].
  - apply Hm.
Qed.

Lemma pumpStep_height (time : R) (w : World) :
  heightInRange w -> heightInRange (pumpStep time w).
Proof.
  unfold heightInRange, MAST_LENGTH; intros H.
  destruct (pumpFires time w) eqn:F.
  - destruct (pumpStep_fired time w F) as [E _]; rewrite E; cbn. split.
    + apply Rmin_glb; lra.
    + apply Rmin_r.
  - destruct (pumpStep_idle time w F) as [E _]; rewrite E. exact H.
Qed.

Lemma preCrash_height (dt time : R) (w : World) :
  heightInRange (preCrash dt time w).
Proof.
  unfold heightInRange, preCrash; cbv zeta; cbn [foilState set_foilState].
  pose proof (rideHeightStep_range (stepLocals dt time w)
    (integrateStep (stepLocals dt time w)
       (regenStep (stepLocals dt time w)
          (foilState (pumpStep time (prePump dt time w)))))) as [[A B] C].
  split; [eapply Rle_trans; eassumption | exact B].
Qed.

Lemma crashCheck_height (w : World) :
  heightInRange w -> heightInRange (crashCheck w).
Proof.
  intros H. destruct (crashCheck_cases w) as [E | E]; rewrite E; [exact H |].
  unfold heightInRange, MAST_LENGTH; cbn. lra.
Qed.

Lemma updatePhysics_height (dt time : R) (w : World) :
  heightInRange w -> heightInRange (updatePhysics dt time w).
Proof.
  intros H.
  destruct (gameState w) eqn:G;
    try (rewrite updatePhysics_not_riding by (rewrite G; discriminate); exact H).
  rewrite updatePhysics_riding by exact G.
  apply crashCheck_height, preCrash_height.
Qed.

(** *** Vertical position *)

Lemma integrateStep_vertical (L : Locals) (s : FoilState) :
  Vector3.y (velocity (integrateStep L s)) = 0
  /\ Vector3.y (position (integrateStep L s)) = Vector3.y (position s).
Proof.
  unfold integrateStep; cbn. split; ring.
Qed.

Lemma rideHeightStep_keeps (L : Locals) (s : FoilState) :
  velocity (rideHeightStep L s) = velocity s
  /\ position (rideHeightStep L s) = position s.
Proof. split; reflexivity. Qed.

Lemma rideHeightStep_speed (L : Locals) (s : FoilState) :
  speed (rideHeightStep L s) = Vector3.length (velocity (rideHeightStep L s)).
Proof. reflexivity. Qed.

Lemma regenStep_keeps (L : Locals) (s : FoilState) :
  position (regenStep L s) = position s.
Proof. reflexivity. Qed.

Lemma preCrash_foilState (dt time : R) (w : World) :
  foilState (preCrash dt time w)
  = rideHeightStep (stepLocals dt time w)
      (integrateStep (stepLocals dt time w)
         (regenStep (stepLocals dt time w)
            (foilState (pumpStep time (prePump dt time w))))).
Proof. reflexivity. Qed.

Lemma preCrash_vertical (dt time : R) (w : World) :
  Vector3.y (velocity (foilState (preCrash dt time w))) = 0
  /\ Vector3.y (position (foilState (preCrash dt time w)))
     = Vector3.y (position (foilState w)).
Proof.
  rewrite preCrash_foilState.
  set (L := stepLocals dt time w).
  set (s := regenStep L (foilState (pumpStep time (prePump dt time w)))).
  destruct (rideHeightStep_keeps L (integrateStep L s)) as [V P]. rewrite V, P.
  destruct (integrateStep_vertical L s) as [A B]. rewrite A, B.
  split; [reflexivity |].
  subst s. rewrite regenStep_keeps.
  destruct (pumpStep_keeps time (prePump dt time w)) as (_ & _ & _ & Q & _).
  destruct (prePump_keeps dt time w) as (_ & _ & _ & _ & _ & Q' & _).
  rewrite Q, Q'. reflexivity.
Qed.

Lemma crashCheck_position (w : World) :
  position (foilState (crashCheck w)) = position (foilState w).
Proof.
  destruct (crashCheck_cases w) as [E | E]; rewrite E; reflexivity.
Qed.

Lemma crashCheck_velocity (w : World) :
  velocity (foilState (crashCheck w)) = velocity (foilState w).
Proof.
  destruct (crashCheck_cases w) as [E | E]; rewrite E; reflexivity.
Qed.

Lemma crashNow_effect (w : World) :
  rideHeight (foilState (crashNow w)) = 0
  /\ onFoil (foilState (crashNow w)) = false
  /\ gameState (crashNow w) = Crashed.
Proof. repeat split. Qed.

Lemma updatePhysics_vertical (dt time : R) (w : World) :
  Vector3.y (position (foilState (updatePhysics dt time w)))
  = Vector3.y (position (foilState w)).
Proof.
  destruct (gameState w) eqn:G;
    try (rewrite updatePhysics_not_riding by (rewrite G; discriminate); reflexivity).
  rewrite updatePhysics_riding by exact G.
  rewrite crashCheck_position. apply preCrash_vertical.
Qed.

(** *** Invariants along a run *)

Lemma animate_foilState (dt time : R) (w : World) :
  foilState (animate dt time w) = foilState (updatePhysics dt time w).
Proof.
  unfold animate, updateRace.
  destruct (updateRaceFor_keeps RACE_LENGTH_KM dt time (updatePhysics dt time w))
    as (_ & F & _).
  exact F.
Qed.

Lemma keys_energy (a : Action) (w : World) :
  match a with Step _ _ => False | _ => True end ->
  energyInRange w -> energyInRange (act w a).
Proof.
  unfold energyInRange.
  destruct a; simpl; intros Hk H; try contradiction.
  - unfold keySpace; destruct (gameState w); cbn; exact H.
  - unfold keyRestart; destruct (gameState w); cbn; try exact H. lra.
  - exact H.
Qed.

Lemma session_energy (acts : list Action) :
  forall w : World,
    stepsForward acts -> energyInRange w -> energyInRange (session acts w).
Proof.
  unfold session.
  induction acts as [| a acts IH]; intros w Hs H; simpl; [exact H |].
  destruct a as [dt time | | |]; simpl in Hs.
  - destruct Hs as [Hdt Hs]. apply IH; [exact Hs |].
    unfold energyInRange; simpl act; rewrite animate_foilState.
    apply updatePhysics_energy; assumption.
  - apply IH; [exact Hs |]. apply (keys_energy KeySpace); [exact I | exact H].
  - apply IH; [exact Hs |]. apply (keys_energy KeyR); [exact I | exact H].
  - apply IH; [exact Hs |]. apply (keys_energy (KeyArrows l r u d)); [exact I | exact H].
Qed.

Lemma keys_height (a : Action) (w : World) :
  match a with Step _ _ => False | _ => True end ->
  heightInRange w -> heightInRange (act w a).
Proof.
  unfold heightInRange, MAST_LENGTH.
  destruct a; simpl; intros Hk H; try contradiction.
  - unfold keySpace; destruct (gameState w); cbn; try exact H. lra.
  - unfold keyRestart; destruct (gameState w); cbn; try exact H. lra.
  - exact H.
Qed.

Lemma session_height (acts : list Action) :
  forall w : World, heightInRange w -> heightInRange (session acts w).
Proof.
  unfold session.
  induction acts as [| a acts IH]; intros w H; simpl; [exact H |].
  apply IH. destruct a as [dt time | | |].
  - unfold heightInRange; simpl act; rewrite animate_foilState.
    apply updatePhysics_height; exact H.
  - apply (keys_height KeySpace); [exact I | exact H].
  - apply (keys_height KeyR); [exact I | exact H].
  - apply (keys_height (KeyArrows l r u d)); [exact I | exact H].
Qed.

Lemma session_vertical (acts : list Action) :
  forall w : World,
    Vector3.y (position (foilState w)) = 0 ->
    Vector3.y (position (foilState (session acts w))) = 0.
Proof.
  unfold session.
  induction acts as [| a acts IH]; intros w H; simpl; [exact H |].
  apply IH. destruct a as [dt time | | |]; simpl act.
  - rewrite animate_foilState, updatePhysics_vertical. exact H.
  - unfold keySpace; destruct (gameState w); cbn; exact H.
  - unfold keyRestart; destruct (gameState w); cbn; try exact H. reflexivity.
  - exact H.
Qed.

End HeightFacts.

(** C2.  A riding physics step ends with the crash check, run on the
    state [p] reached after the ride height clamp and the recomputation of
    the speed from the velocity.  In this order: if the ride height of [p]
    is at most 0.001 the step ends in [crashNow p] (ride height 0, off the
    foil, crashed); otherwise, if the ride height is below 0.05 and the
    speed below the stall speed of the active foil, it ends in [crashNow p]
    as well; otherwise it ends in [p] itself, still riding, with [onFoil]
    as it was on entry. *)
Theorem crash_check_order (dt time : R) (w : Sim.World) :
  Sim.gameState w = Sim.Riding ->
  let p := Sim.preCrash dt time w in
  let w' := Sim.updatePhysics dt time w in
  let h := Sim.rideHeight (Sim.foilState p) in
  let v := Sim.speed (Sim.foilState p) in
  Sim.gameState p = Sim.Riding
  /\ v = Vector3.length (Sim.velocity (Sim.foilState p))
  /\ (h <= 0.001 -> w' = Sim.crashNow p)
  /\ (0.001 < h -> h < 0.05 /\ v < Sim.stallSpeed (Sim.activeFoil w) ->
      w' = Sim.crashNow p)
  /\ (0.001 < h -> ~ (h < 0.05 /\ v < Sim.stallSpeed (Sim.activeFoil w)) ->
      w' = p /\ Sim.gameState w' = Sim.Riding
      /\ Sim.onFoil (Sim.foilState w') = Sim.onFoil (Sim.foilState w))
  /\ Sim.rideHeight (Sim.foilState (Sim.crashNow p)) = 0
  /\ Sim.onFoil (Sim.foilState (Sim.crashNow p)) = false
  /\ Sim.gameState (Sim.crashNow p) = Sim.Crashed.
Proof.
  intros G p w' h v.
  destruct (preCrash_keeps dt time w) as (Hg & Hf & _ & Ho & _).
  fold p in Hg, Hf, Ho.
  assert (Hw : w' = Sim.crashCheck p)
    by (subst w' p; apply updatePhysics_riding; exact G).
  split; [rewrite Hg; exact G |].
  split; [subst v p; rewrite preCrash_foilState; apply rideHeightStep_speed |].
  split; [| split; [| split]].
  - intros Hh. rewrite Hw. unfold Sim.crashCheck; cbv zeta.
    fold h. rewrite (proj2 (Rleb_true h 0.001) Hh). reflexivity.
  - intros Hh [Hl Hv]. rewrite Hw. unfold Sim.crashCheck; cbv zeta.
    fold h v. rewrite (proj2 (Rleb_false h 0.001) Hh).
    rewrite (proj2 (Rltb_true h 0.05) Hl).
    rewrite Hf, (proj2 (Rltb_true v _) Hv). reflexivity.
  - intros Hh Hn.
    assert (E : w' = p).
    { rewrite Hw. unfold Sim.crashCheck; cbv zeta.
      fold h v. rewrite (proj2 (Rleb_false h 0.001) Hh), Hf.
      destruct (Rltb h 0.05) eqn:A; [| reflexivity].
      destruct (Rltb v (Sim.stallSpeed (Sim.activeFoil w))) eqn:B; [| reflexivity].
      exfalso; apply Hn; split; [apply Rltb_true, A | apply Rltb_true, B]. }
    rewrite E. split; [reflexivity |]. split; [rewrite Hg; exact G | exact Ho].
  - apply crashNow_effect.
Qed.

Lemma crash_check_order_witness :
  Sim.gameState launchedWorld = Sim.Riding
  /\ Sim.gameState (Sim.preCrash (1 / 60) 0 launchedWorld) = Sim.Riding.
Proof.
  split; [reflexivity |].
  exact (proj1 (crash_check_order (1 / 60) 0 launchedWorld eq_refl)).
Defined.



(** C4.  For a physics step with [dt >= 0], an energy within [0, 100] on
    entry is within [0, 100] on exit; and so it stays along any run of key
    presses (pump attempts among them) and frames whose steps are not
    negative.  The pump takes 20 only when at least 20 is there and the
    regeneration is capped at 100. *)
Theorem energy_stays_in_range (dt time : R) (acts : list Sim.Action) (w : Sim.World) :
  0 <= dt ->
  Sim.stepsForward acts ->
  0 <= Sim.energy (Sim.foilState w) <= 100 ->
  0 <= Sim.energy (Sim.foilState (Sim.updatePhysics dt time w)) <= 100
  /\ 0 <= Sim.energy (Sim.foilState (Sim.session acts w)) <= 100.
Proof.
  intros Hdt Hs He. split.
  - apply updatePhysics_energy; assumption.
  - apply (session_energy acts w Hs He).
Qed.

Lemma energy_stays_in_range_witness :
  0 <= Sim.energy (Sim.foilState (Sim.updatePhysics (1 / 60) 0 pumpingWorld)) <= 100
  /\ 0 <= Sim.energy (Sim.foilState
            (Sim.session [Sim.KeySpace; Sim.Step (1 / 60) 0; Sim.KeySpace;
                          Sim.Step (1 / 60) (1 / 60)] Sim.initialWorld)) <= 100.
Proof.
  split.
  - apply (energy_stays_in_range (1 / 60) 0 [] pumpingWorld);
      [lra | exact I | simpl; lra].
  - apply (energy_stays_in_range 0 0
             [Sim.KeySpace; Sim.Step (1 / 60) 0; Sim.KeySpace;
              Sim.Step (1 / 60) (1 / 60)] Sim.initialWorld);
      [lra | simpl; lra | simpl; lra].
Defined.

(** C8.  The ride height stays within [0, mastLength], with
    [mastLength = 0.8].  From a state where it is in that range: the pump
    block leaves it in range (its bump is capped at the mast length); after
    the height spring and its clamp it lies between [minRideHeight] and the
    mast length, whatever it was before, where [minRideHeight] is 0.12 when
    [liftRatio > 1] and 0 otherwise; a crash sets it to 0; so it is in range
    after every physics step and along every run of keys and frames. *)
Theorem ride_height_within_mast (dt time : R) (acts : list Sim.Action) (w : Sim.World) :
  Sim.heightInRange w ->
  let L := Sim.stepLocals dt time w in
  Sim.heightInRange (Sim.pumpStep time (Sim.prePump dt time w))
  /\ Sim.minRideHeightOf L
     <= Sim.rideHeight (Sim.foilState (Sim.preCrash dt time w))
     <= Sim.MAST_LENGTH
  /\ ((1 < Sim.liftRatioOf L /\ Sim.minRideHeightOf L = 0.12)
      \/ (Sim.liftRatioOf L <= 1 /\ Sim.minRideHeightOf L = 0))
  /\ Sim.rideHeight (Sim.foilState (Sim.crashNow (Sim.preCrash dt time w))) = 0
  /\ Sim.heightInRange (Sim.updatePhysics dt time w)
  /\ Sim.heightInRange (Sim.session acts w)
  /\ Sim.MAST_LENGTH = 0.8.
Proof.
  intros H L.
  split; [| split; [| split; [| split; [| split; [| split]]]]].
  - apply pumpStep_height.
    destruct (prePump_keeps dt time w) as (_ & _ & _ & _ & _ & _ & _ & E & _).
    unfold Sim.heightInRange. rewrite E. exact H.
  - rewrite preCrash_foilState. apply rideHeightStep_range.
  - apply minRideHeight_cases.
  - apply crashNow_effect.
  - apply updatePhysics_height; exact H.
  - apply session_height; exact H.
  - reflexivity.
Qed.

Lemma ride_height_within_mast_witness :
  Sim.heightInRange pumpingWorld
  /\ Sim.heightInRange (Sim.updatePhysics (1 / 60) 0 pumpingWorld).
Proof.
  assert (H : Sim.heightInRange pumpingWorld)
    by (unfold Sim.heightInRange, Sim.MAST_LENGTH; simpl; lra).
  split; [exact H |].
  exact (proj1 (proj2 (proj2 (proj2 (proj2
           (ride_height_within_mast (1 / 60) 0 [] pumpingWorld H)))))).
Defined.

(** C10.  The physics step never changes the y-component of the rider's
    position: the velocity it integrates has y-component 0.  The position
    spawns at height 0, so along every run of keys and frames from the
    initial state its y-component is 0; the height above the water is
    carried by [rideHeight] alone. *)
Theorem position_y_never_changes (dt time : R) (acts : list Sim.Action) (w : Sim.World) :
  Vector3.y (Sim.position (Sim.foilState (Sim.updatePhysics dt time w)))
  = Vector3.y (Sim.position (Sim.foilState w))
  /\ Vector3.y (Sim.velocity (Sim.foilState (Sim.preCrash dt time w))) = 0
  /\ Sim.velocity (Sim.foilState (Sim.crashCheck (Sim.preCrash dt time w)))
     = Sim.velocity (Sim.foilState (Sim.preCrash dt time w))
  /\ Vector3.y (Sim.position Sim.initialFoilState) = 0
  /\ Vector3.y (Sim.position (Sim.foilState (Sim.session acts Sim.initialWorld))) = 0.
Proof.
  split; [| split; [| split; [| split]]].
  - apply updatePhysics_vertical.
  - exact (proj1 (preCrash_vertical dt time w)).
  - apply crashCheck_velocity.
  - reflexivity.
  - apply session_vertical. reflexivity.
Qed.

(** ** Race tracker *)

Section RaceFacts.
Import Sim.

(** *** Non-decreasing lists *)

Lemma nondecreasing_cons (l : list R) :
  forall a : R,
    nondecreasing (a :: l) <-> Forall (fun b => a <= b) l /\ nondecreasing l.
Proof.
  induction l as [| b l IH]; intros a.
  - simpl; split; [intros _; split; [constructor | exact I] | intros _; exact I].
  - change (nondecreasing (a :: b :: l)) with (a <= b /\ nondecreasing (b :: l)).
    split.
    + intros [Hab Hl]. split; [| exact Hl].
      constructor; [exact Hab |].
      apply IH in Hl. destruct Hl as [Hf _].
      eapply Forall_impl; [| exact Hf]. intros c Hc; simpl in Hc; lra.
    + intros [Hf Hl]. split; [| exact Hl].
      inversion Hf; assumption.
Qed.

Lemma nondecreasing_app (l1 l2 : list R) :
  nondecreasing l1 -> nondecreasing l2 ->
  (forall a b, In a l1 -> In b l2 -> a <= b) ->
  nondecreasing (l1 ++ l2).
Proof.
  induction l1 as [| a l1 IH]; intros H1 H2 H; simpl; [exact H2 |].
  apply nondecreasing_cons in H1. destruct H1 as [Hf H1].
  apply nondecreasing_cons. split.
  - apply Forall_app. split; [exact Hf |].
    apply Forall_forall. intros b Hb. apply H; [left; reflexivity | exact Hb].
  - apply IH; [exact H1 | exact H2 |].
    intros x y Hx Hy. apply H; [right; exact Hx | exact Hy].
Qed.

Lemma nondecreasing_repeat (t : R) (n : nat) : nondecreasing (repeat t n).
Proof.
  induction n as [| n IH]; [exact I |].
  change (repeat t (S n)) with (t :: repeat t n).
  apply nondecreasing_cons. split; [| exact IH].
  apply Forall_forall. intros b Hb. apply repeat_spec in Hb. lra.
Qed.

Lemma nondecreasing_push (l : list R) (t : R) (n : nat) :
  nondecreasing l -> Forall (fun s => s <= t) l ->
  nondecreasing (l ++ repeat t n) /\ Forall (fun s => s <= t) (l ++ repeat t n).
Proof.
  intros Hl Hf. split.
  - apply nondecreasing_app; [exact Hl | apply nondecreasing_repeat |].
    intros a b Ha Hb. apply repeat_spec in Hb. subst b.
    rewrite Forall_forall in Hf. apply Hf; exact Ha.
  - apply Forall_app. split; [exact Hf |].
    apply Forall_forall. intros b Hb. apply repeat_spec in Hb. lra.
Qed.

(** *** The two loops *)

Lemma splitLoop_exact (fuel : nat) :
  forall (k hi : Z) (r : RaceData),
    Z.to_nat (hi + 1 - k) = fuel ->
    kmSplitTimes (splitLoop fuel k hi r)
    = kmSplitTimes r ++ repeat (totalElapsed r) fuel
    /\ lastKmReached (splitLoop fuel k hi r)
       = match fuel with O => lastKmReached r | S _ => hi end.
Proof.
  induction fuel as [| fuel IH]; intros k hi r H; simpl.
  - rewrite app_nil_r. split; reflexivity.
  - assert (Hk : (k <=? hi)%Z = true) by (apply Z.leb_le; lia).
    rewrite Hk.
    destruct (IH (k + 1)%Z hi (recordSplit k r)) as [A B]; [lia |].
    rewrite A, B. split.
    + cbn. rewrite <- app_assoc. reflexivity.
    + destruct fuel; [cbn; lia | reflexivity].
Qed.

Lemma backfill_exact (fuel : nat) :
  forall (len : Z) (r : RaceData),
    Z.to_nat (len - Z.of_nat (length (kmSplitTimes r))) = fuel ->
    kmSplitTimes (backfill fuel len r)
    = kmSplitTimes r ++ repeat (totalElapsed r) fuel
    /\ active (backfill fuel len r) = active r
    /\ finished (backfill fuel len r) = finished r
    /\ startTime (backfill fuel len r) = startTime r
    /\ lastKmReached (backfill fuel len r) = lastKmReached r.
Proof.
  induction fuel as [| fuel IH]; intros len r H; simpl.
  - rewrite app_nil_r. repeat split.
  - assert (Hk : (Z.of_nat (length (kmSplitTimes r)) <? len)%Z = true)
      by (apply Z.ltb_lt; lia).
    rewrite Hk.
    destruct (IH len (set_kmSplitTimes (kmSplitTimes r ++ [totalElapsed r]) r))
      as (A & B & C & D & E).
    { cbn. rewrite length_app. simpl length. lia. }
    rewrite A, B, C, D, E. cbn. rewrite <- app_assoc. repeat split.
Qed.

(** The fuel given to the two loops is enough: with any larger amount
    they stop at the same state, by their guard. *)
Lemma splitLoop_fuel (fuel : nat) :
  forall (k hi : Z) (r : RaceData),
    (Z.to_nat (hi + 1 - k) <= fuel)%nat ->
    splitLoop fuel k hi r = splitLoop (Z.to_nat (hi + 1 - k)) k hi r.
Proof.
  induction fuel as [| fuel IH]; intros k hi r H.
  - replace (Z.to_nat (hi + 1 - k)) with 0%nat by lia. reflexivity.
  - simpl. destruct (k <=? hi)%Z eqn:E.
    + apply Z.leb_le in E.
      replace (Z.to_nat (hi + 1 - k)) with (S (Z.to_nat (hi + 1 - (k + 1)))) by lia.
      simpl. rewrite (proj2 (Z.leb_le k hi) E).
      apply IH. lia.
    + apply Z.leb_gt in E.
      replace (Z.to_nat (hi + 1 - k)) with 0%nat by lia. reflexivity.
Qed.

Lemma backfill_fuel (fuel : nat) :
  forall (len : Z) (r : RaceData),
    (Z.to_nat (len - Z.of_nat (length (kmSplitTimes r))) <= fuel)%nat ->
    backfill fuel len r
    = backfill (Z.to_nat (len - Z.of_nat (length (kmSplitTimes r)))) len r.
Proof.
  induction fuel as [| fuel IH]; intros len r H.
  - replace (Z.to_nat (len - Z.of_nat (length (kmSplitTimes r)))) with 0%nat by lia.
    reflexivity.
  - simpl. destruct (Z.of_nat (length (kmSplitTimes r)) <? len)%Z eqn:E.
    + apply Z.ltb_lt in E.
      set (r1 := set_kmSplitTimes (kmSplitTimes r ++ [totalElapsed r]) r).
      assert (L1 : length (kmSplitTimes r1) = S (length (kmSplitTimes r)))
        by (subst r1; cbn; rewrite length_app; simpl; lia).
      replace (Z.to_nat (len - Z.of_nat (length (kmSplitTimes r))))
        with (S (Z.to_nat (len - Z.of_nat (length (kmSplitTimes r1))))) by lia.
      simpl. rewrite (proj2 (Z.ltb_lt _ _) E). fold r1.
      apply IH. lia.
    + apply Z.ltb_ge in E.
      replace (Z.to_nat (len - Z.of_nat (length (kmSplitTimes r)))) with 0%nat by lia.
      reflexivity.
Qed.

(** *** The blocks of the race update *)

Lemma autoStart_race (time : R) (w : World) :
  (race (autoStart time w) = race w)
  \/ (active (race w) = false /\ finished (race w) = false
      /\ gameState w = Riding
      /\ race (autoStart time w) = startRace time (race w)).
Proof.
  unfold autoStart. destruct (gameState w) eqn:G; auto.
  destruct (active (race w)) eqn:A; simpl; auto.
  destruct (finished (race w)) eqn:F; simpl; auto.
Qed.

Lemma raceSplits_fields (courseKm : Z) (dt time dwind : R) (w : World) :
  let r := race w in
  let hi := Z.min (Zfloor (dwind / 1000)) courseKm in
  let n := Z.to_nat (hi - lastKmReached r) in
  let r' := race (raceSplits courseKm dt time dwind w) in
  kmSplitTimes r' = kmSplitTimes r ++ repeat (time - startTime r) n
  /\ lastKmReached r' = match n with O => lastKmReached r | S _ => hi end
  /\ startTime r' = startTime r
  /\ finished r' = finished r
  /\ active r' = active r
  /\ totalElapsed r' = time - startTime r.
Proof.
  intros r hi n r'.
  set (r0 := set_totalElapsed (time - startTime r) r).
  set (rl := splitLoop (Z.to_nat (hi + 1 - (lastKmReached r0 + 1)))
               (lastKmReached r0 + 1) hi r0).
  assert (Hr' : r' = if Rltb 0 (splitFlashTimer rl)
                     then set_splitFlashTimer (splitFlashTimer rl - dt) rl else rl)
    by reflexivity.
  assert (Hn : Z.to_nat (hi + 1 - (lastKmReached r0 + 1)) = n)
    by (subst n r0; cbn; f_equal; lia).
  destruct (splitLoop_exact (Z.to_nat (hi + 1 - (lastKmReached r0 + 1)))
              (lastKmReached r0 + 1) hi r0) as [A B];
    [reflexivity |].
  destruct (splitLoop_race_only (Z.to_nat (hi + 1 - (lastKmReached r0 + 1)))
              (lastKmReached r0 + 1) hi r0) as (C & D & E & F).
  fold rl in A, B, C, D, E, F. rewrite Hn in A, B.
  assert (G : kmSplitTimes r' = kmSplitTimes rl /\ lastKmReached r' = lastKmReached rl
              /\ startTime r' = startTime rl /\ finished r' = finished rl
              /\ active r' = active rl /\ totalElapsed r' = totalElapsed rl).
  { rewrite Hr'. destruct (Rltb 0 (splitFlashTimer rl)); repeat split. }
  destruct G as (G1 & G2 & G3 & G4 & G5 & G6).
  rewrite G1, G2, G3, G4, G5, G6, A, B, C, D, E, F.
  subst r0; cbn. repeat split.
Qed.

Lemma raceFinish_fields (courseKm : Z) (time dwind : R) (w : World) :
  let r := race w in
  let fin := Rleb (IZR courseKm * 1000) dwind in
  let m := Z.to_nat (courseKm - Z.of_nat (length (kmSplitTimes r))) in
  let r' := race (raceFinish courseKm time dwind w) in
  kmSplitTimes r'
  = kmSplitTimes r ++ (if fin then repeat (time - startTime r) m else [])
  /\ lastKmReached r' = lastKmReached r
  /\ startTime r' = startTime r
  /\ finished r' = (if fin then true else finished r)
  /\ active r' = (if fin then false else active r).
Proof.
  intros r fin m r'. subst r' fin. unfold raceFinish.
  destruct (Rleb (IZR courseKm * 1000) dwind).
  - cbn [race set_resultsShown set_race].
    set (r0 := set_splitFlashTimer 0
                 (set_totalElapsed
                    (time - startTime (set_active false (set_finished true (race w))))
                    (set_active false (set_finished true (race w))))).
    destruct (backfill_exact
                (Z.to_nat (courseKm - Z.of_nat (length (kmSplitTimes r0)))) courseKm r0)
      as (A & B & C & D & E); [reflexivity |].
    rewrite A, B, C, D, E. subst r0 m r; cbn. repeat split.
  - rewrite app_nil_r. repeat split.
Qed.

Lemma raceCrash_fields (w : World) :
  let r := race w in
  let r' := race (raceCrash w) in
  kmSplitTimes r' = kmSplitTimes r
  /\ lastKmReached r' = lastKmReached r
  /\ startTime r' = startTime r
  /\ finished r' = finished r
  /\ active r' = match gameState w with Crashed => false | _ => active r end.
Proof.
  unfold raceCrash. destruct (gameState w); cbn; repeat split.
Qed.

(** The race data after the three blocks that follow the auto-start. *)
Lemma race_body_fields (courseKm : Z) (dt time dwind : R) (w : World) :
  let r := race w in
  let t := time - startTime r in
  let hi := Z.min (Zfloor (dwind / 1000)) courseKm in
  let n := Z.to_nat (hi - lastKmReached r) in
  let fin := Rleb (IZR courseKm * 1000) dwind in
  let m := Z.to_nat (courseKm - Z.of_nat (length (kmSplitTimes r) + n)) in
  let r' :=
    race (raceCrash (raceFinish courseKm time dwind
                       (raceSplits courseKm dt time dwind w))) in
  kmSplitTimes r'
  = kmSplitTimes r ++ repeat t (n + (if fin then m else 0))
  /\ lastKmReached r' = match n with O => lastKmReached r | S _ => hi end
  /\ startTime r' = startTime r
  /\ finished r' = (if fin then true else finished r)
  /\ active r'
     = (if fin then false
        else match gameState w with Crashed => false | _ => active r end).
Proof.
  intros r t hi n fin m r'.
  set (w1 := raceSplits courseKm dt time dwind w).
  set (w2 := raceFinish courseKm time dwind w1).
  destruct (raceSplits_fields courseKm dt time dwind w) as (A1 & A2 & A3 & A4 & A5 & _).
  destruct (raceFinish_fields courseKm time dwind w1) as (B1 & B2 & B3 & B4 & B5).
  destruct (raceCrash_fields w2) as (C1 & C2 & C3 & C4 & C5).
  fold w1 in A1, A2, A3, A4, A5. fold w2 in B1, B2, B3, B4, B5.
  fold r hi n in A1, A2, A3, A4, A5. fold t in A1. fold fin in B1, B4, B5.
  assert (G : gameState w2 = gameState w).
  { destruct (raceFinish_keeps courseKm time dwind w1) as [G2 _].
    destruct (raceSplits_keeps courseKm dt time dwind w) as [G1 _].
    fold w1 in G1, G2. fold w2 in G2. rewrite G2, G1. reflexivity. }
  subst r'. fold w1. fold w2.
  rewrite C1, C2, C3, C4, C5, B1, B2, B3, B4, B5, A1, A2, A3, A4, A5, G.
  split; [| split; [| split; [| split]]]; try reflexivity.
  - rewrite length_app, repeat_length, repeat_app, <- app_assoc.
    fold t m. destruct fin; reflexivity.
  - destruct fin; destruct (gameState w); reflexivity.
Qed.

Lemma updateRaceFor_inactive (courseKm : Z) (dt time : R) (w : World) :
  active (race (autoStart time w)) = false ->
  updateRaceFor courseKm dt time w = autoStart time w.
Proof.
  intros H; unfold updateRaceFor; cbv zeta. rewrite H. reflexivity.
Qed.

Lemma updateRaceFor_active (courseKm : Z) (dt time : R) (w : World) :
  active (race (autoStart time w)) = true ->
  updateRaceFor courseKm dt time w
  = raceCrash (raceFinish courseKm time (downwindDist w)
                 (raceSplits courseKm dt time (downwindDist w) (autoStart time w))).
Proof.
  intros H; unfold updateRaceFor; cbv zeta. rewrite H; simpl negb; cbv iota.
  destruct (autoStart_keeps time w) as (_ & F & _).
  unfold downwindDist. rewrite F. reflexivity.
Qed.

End RaceFacts.

Section CrashFacts.
Import Sim.

Lemma autoStart_crashed (time : R) (w : World) :
  gameState w = Crashed -> autoStart time w = w.
Proof. intros G; unfold autoStart; rewrite G; reflexivity. Qed.

(** What the race update makes of an active race when the rider has
    crashed. *)
Lemma crashed_race_update (courseKm : Z) (dt time : R) (w : World) :
  gameState w = Crashed -> active (race w) = true ->
  let r' := race (updateRaceFor courseKm dt time w) in
  active r' = false
  /\ finished r'
     = (if Rleb (IZR courseKm * 1000) (downwindDist w) then true
        else finished (race w)).
Proof.
  intros G A r'. subst r'.
  rewrite updateRaceFor_active by (rewrite autoStart_crashed; assumption).
  rewrite autoStart_crashed by exact G.
  destruct (race_body_fields courseKm dt time (downwindDist w) w)
    as (_ & _ & _ & F & B).
  rewrite F, B, G. split; [| reflexivity].
  destruct (Rleb (IZR courseKm * 1000) (downwindDist w)); reflexivity.
Qed.

(** The race update marks a race finished only at the course distance. *)
Lemma finished_only_at_distance (courseKm : Z) (dt time : R) (w : World) :
  finished (race w) = false ->
  finished (race (updateRaceFor courseKm dt time w)) = true ->
  IZR courseKm * 1000 <= downwindDist w.
Proof.
  intros F H.
  assert (F1 : finished (race (autoStart time w)) = false).
  { destruct (autoStart_race time w) as [E | (_ & _ & _ & E)]; rewrite E;
      [exact F | reflexivity]. }
  destruct (active (race (autoStart time w))) eqn:A.
  - rewrite updateRaceFor_active in H by exact A.
    destruct (race_body_fields courseKm dt time (downwindDist w) (autoStart time w))
      as (_ & _ & _ & Fi & _).
    rewrite Fi, F1 in H.
    destruct (Rleb (IZR courseKm * 1000) (downwindDist w)) eqn:E;
      [apply Rleb_true; exact E | discriminate].
  - rewrite updateRaceFor_inactive in H by exact A. congruence.
Qed.

End CrashFacts.

(** C6, as the code has it.  When [gameState] is [Crashed] at a race
    update and the race is active and not finished, the update sets
    [active] to false; [finished] stays false if the downwind distance is
    below the course distance, and becomes true if the distance has reached
    it (the finish is checked before the crash).  In any state, a race
    becomes finished only at an update where the downwind distance has
    reached the course distance. *)
Theorem crash_abandons_race (courseKm : Z) (dt time : R) (w u : Sim.World) :
  Sim.gameState w = Sim.Crashed ->
  Sim.active (Sim.race w) = true ->
  Sim.finished (Sim.race w) = false ->
  Sim.finished (Sim.race u) = false ->
  let r' := Sim.race (Sim.updateRaceFor courseKm dt time w) in
  Sim.active r' = false
  /\ (Sim.downwindDist w < IZR courseKm * 1000 -> Sim.finished r' = false)
  /\ (IZR courseKm * 1000 <= Sim.downwindDist w -> Sim.finished r' = true)
  /\ (Sim.finished (Sim.race (Sim.updateRaceFor courseKm dt time u)) = true ->
      IZR courseKm * 1000 <= Sim.downwindDist u).
Proof.
  intros G A F Fu r'.
  destruct (crashed_race_update courseKm dt time w G A) as [A' F'].
  fold r' in A', F'.
  split; [exact A' |]. split; [| split].
  - intros H. rewrite F', (proj2 (Rleb_false _ _) H). exact F.
  - intros H. rewrite F', (proj2 (Rleb_true _ _) H). reflexivity.
  - apply finished_only_at_distance; exact Fu.
Qed.

Lemma crash_at_line_distance : Sim.downwindDist crashAtLineWorld = 1000.5.
Proof.
  unfold Sim.downwindDist, crashAtLineWorld, Sim.RACE_START_Z; cbn.
  unfold Rmax. destruct (Rle_dec 0 (200.5 - -800)); lra.
Qed.

Lemma crash_abandons_race_witness :
  Sim.active (Sim.race (Sim.updateRaceFor 2 (1 / 60) 95 crashAtLineWorld)) = false
  /\ Sim.finished (Sim.race (Sim.updateRaceFor 2 (1 / 60) 95 crashAtLineWorld)) = false.
Proof.
  destruct (crash_abandons_race 2 (1 / 60) 95 crashAtLineWorld Sim.initialWorld
              eq_refl eq_refl eq_refl eq_refl) as (A & F & _).
  split; [exact A |].
  apply F. rewrite crash_at_line_distance. lra.
Defined.

(** C6 as stated fails: a rider who crashes in the frame that carries the
    rider over the finish line of the 1 km course leaves a race that was active
    and unfinished marked finished. *)
Lemma crash_on_finish_line_is_finished :
  Sim.gameState crashAtLineWorld = Sim.Crashed
  /\ Sim.active (Sim.race crashAtLineWorld) = true
  /\ Sim.finished (Sim.race crashAtLineWorld) = false
  /\ Sim.finished (Sim.race (Sim.updateRace (1 / 60) 95 crashAtLineWorld)) = true.
Proof.
  repeat (split; [reflexivity |]).
  unfold Sim.updateRace.
  destruct (crashed_race_update Sim.RACE_LENGTH_KM (1 / 60) 95 crashAtLineWorld
              eq_refl eq_refl) as [_ F].
  rewrite F, crash_at_line_distance.
  assert (H : IZR Sim.RACE_LENGTH_KM * 1000 <= 1000.5)
    by (unfold Sim.RACE_LENGTH_KM; lra).
  rewrite (proj2 (Rleb_true _ _) H). reflexivity.
Qed.

Section SplitOrder.
Import Sim.
Variable courseKm : Z.

Lemma observe_fields (f : Frame) (w : World) :
  race (observe f w) = race w
  /\ gameState (observe f w) = f_gameState f
  /\ downwindDist (observe f w) = frameDwind f.
Proof. repeat split. Qed.

Lemma raceFrame_bounded (w : World) (f : Frame) (tl : R) :
  splitsBounded tl (race w) -> tl <= f_time f ->
  splitsBounded (f_time f) (race (raceFrame courseKm w f)).
Proof.
  intros [Hs Hb] Hle. unfold raceFrame.
  set (wo := observe f w).
  assert (Hr : race wo = race w) by reflexivity.
  set (w1 := autoStart (f_time f) wo).
  assert (H1 : nondecreasing (kmSplitTimes (race w1))
               /\ (active (race w1) = true ->
                   Forall (fun s => s <= f_time f - startTime (race w1))
                     (kmSplitTimes (race w1)))).
  { destruct (autoStart_race (f_time f) wo) as [E | (_ & _ & _ & E)];
      fold w1 in E; rewrite E.
    - rewrite Hr. split; [exact Hs |]. intros A.
      eapply Forall_impl; [| exact (Hb A)]. intros s Hs'; simpl in Hs'; lra.
    - split; [exact I | intros _; constructor]. }
  destruct H1 as [Hs1 Hb1].
  destruct (active (race w1)) eqn:A.
  - rewrite updateRaceFor_active by exact A. fold w1.
    destruct (race_body_fields courseKm (f_dt f) (f_time f) (downwindDist wo) w1)
      as (S' & _ & T' & _ & _).
    unfold splitsBounded. rewrite S', T'.
    destruct (nondecreasing_push (kmSplitTimes (race w1))
                (f_time f - startTime (race w1))
                (Z.to_nat
                   (Z.min (Zfloor (downwindDist wo / 1000)) courseKm
                    - lastKmReached (race w1))
                 + (if Rleb (IZR courseKm * 1000) (downwindDist wo)
                    then
                      Z.to_nat
                        (courseKm
                         - Z.of_nat
                             (length (kmSplitTimes (race w1))
                              + Z.to_nat
                                  (Z.min (Zfloor (downwindDist wo / 1000)) courseKm
                                   - lastKmReached (race w1))))
                    else 0%nat))
                Hs1 (Hb1 eq_refl)) as [N F].
    split; [exact N | intros _; exact F].
  - rewrite updateRaceFor_inactive by exact A. fold w1.
    split; [exact Hs1 | rewrite A; discriminate].
Qed.

Lemma keyRestart_bounded (w : World) (tl : R) :
  splitsBounded tl (race w) -> splitsBounded tl (race (keyRestart w)).
Proof.
  intros H. unfold keyRestart. destruct (gameState w); try exact H.
  split; [exact I | intros A; discriminate A].
Qed.

Lemma raceRun_bounded (es : list Event) :
  forall (w : World) (tl : R),
    splitsBounded tl (race w) ->
    nondecreasing (tl :: eventTimes es) ->
    exists tl' : R, splitsBounded tl' (race (raceRun courseKm es w)).
Proof.
  unfold raceRun.
  induction es as [| e es IH]; intros w tl H Hm; simpl.
  - exists tl; exact H.
  - destruct e as [f |].
    + change (eventTimes (Tick f :: es)) with (f_time f :: eventTimes es) in Hm.
      destruct Hm as [Hle Hm].
      apply (IH _ (f_time f)); [| exact Hm].
      apply (raceFrame_bounded w f tl); assumption.
    + apply (IH _ tl); [| exact Hm].
      apply keyRestart_bounded; exact H.
Qed.

Lemma raceRun_sorted (es : list Event) :
  nondecreasing (eventTimes es) ->
  nondecreasing (kmSplitTimes (race (raceRun courseKm es initialWorld))).
Proof.
  intros Hm.
  destruct (raceRun_bounded es initialWorld (hd 0 (eventTimes es))) as [tl' [H _]].
  - split; [exact I | intros A; discriminate A].
  - destruct (eventTimes es) as [| a l] eqn:E; [exact I |].
    simpl hd. split; [lra | exact Hm].
  - exact H.
Qed.

End SplitOrder.

Section FirstReach.
Import Sim.
Variable courseKm : Z.

Lemma firstReach_snoc (k : Z) (fs : list Frame) (f : Frame) :
  firstReach k (fs ++ [f])
  = match firstReach k fs with
    | Some t => Some t
    | None => if Rleb (IZR k * 1000) (frameDwind f) then Some (f_time f) else None
    end.
Proof.
  unfold firstReach.
  induction fs as [| g fs IH]; simpl.
  - destruct (Rleb (IZR k * 1000) (frameDwind f)); reflexivity.
  - destruct (Rleb (IZR k * 1000) (frameDwind g)); [reflexivity | exact IH].
Qed.

(** The km mark [k] is at or below [floor (d / 1000)] exactly when the
    distance [d] has reached [k * 1000]. *)
Lemma floor_km (k : Z) (d : R) :
  (k <= Zfloor (d / 1000))%Z <-> IZR k * 1000 <= d.
Proof.
  split; intros H.
  - apply IZR_le in H. pose proof (Zfloor_bound (d / 1000)) as [B _]. lra.
  - apply Zfloor_lub. lra.
Qed.

Lemma raceInv_start (t0 : R) (r : RaceData) :
  raceInv courseKm t0 [] (startRace t0 r).
Proof.
  unfold raceInv; cbn. repeat split; try lia.
  intros k _. destruct (Z.to_nat (k - 1)); reflexivity.
Qed.

(** One race update on a race that satisfies the invariant. *)
Lemma raceFrame_step (t0 : R) (fs : list Frame) (f : Frame) (w : World) :
  raceInv courseKm t0 fs (race w) ->
  let r' := race (raceFrame courseKm w f) in
  (forall k : Z,
      (1 <= k <= courseKm)%Z ->
      nth_error (kmSplitTimes r') (Z.to_nat (k - 1))
      = option_map (fun t => t - t0) (firstReach k (fs ++ [f])))
  /\ (Z.of_nat (length (kmSplitTimes r')) <= Z.max 0 courseKm)%Z
  /\ (raceGoesOn courseKm f -> raceInv courseKm t0 (fs ++ [f]) r').
Proof.
  intros (A & F & T & Len & Hi & Nth) r'.
  set (wo := observe f w).
  set (w1 := autoStart (f_time f) wo).
  assert (Hr : race w1 = race w).
  { destruct (autoStart_race (f_time f) wo) as [E | (A' & _)]; [exact E |].
    change (race wo) with (race w) in A'. congruence. }
  assert (Hg : gameState w1 = f_gameState f)
    by (destruct (autoStart_keeps (f_time f) wo) as [G _]; exact G).
  assert (Hu : raceFrame courseKm w f
               = raceCrash (raceFinish courseKm (f_time f) (frameDwind f)
                   (raceSplits courseKm (f_dt f) (f_time f) (frameDwind f) w1))).
  { unfold raceFrame. fold wo. rewrite updateRaceFor_active; [reflexivity |].
    fold w1. rewrite Hr. exact A. }
  destruct (race_body_fields courseKm (f_dt f) (f_time f) (frameDwind f) w1)
    as (S' & L' & T' & F' & A').
  rewrite <- Hu in S', L', T', F', A'. fold r' in S', L', T', F', A'.
  rewrite Hr in S', L', T', F', A'. rewrite Hg in A'. rewrite T in S'.
  set (hi := Z.min (Zfloor (frameDwind f / 1000)) courseKm) in *.
  set (n := Z.to_nat (hi - lastKmReached (race w))) in *.
  set (S0 := kmSplitTimes (race w)) in *.
  (* the backfill of the finish block has nothing left to add *)
  assert (Hm : (if Rleb (IZR courseKm * 1000) (frameDwind f)
                then Z.to_nat (courseKm - Z.of_nat (length S0 + n)) else 0%nat)
               = 0%nat).
  { destruct (Rleb (IZR courseKm * 1000) (frameDwind f)) eqn:E; [| reflexivity].
    apply Rleb_true, floor_km in E. subst n hi. lia. }
  rewrite Hm, Nat.add_0_r in S'.
  assert (Hlen : Z.of_nat (length (kmSplitTimes r')) = (Z.of_nat (length S0) + Z.of_nat n)%Z).
  { rewrite S', length_app, repeat_length. lia. }
  assert (HN : forall k : Z,
             (1 <= k <= courseKm)%Z ->
             nth_error (kmSplitTimes r') (Z.to_nat (k - 1))
             = option_map (fun t => t - t0) (firstReach k (fs ++ [f]))).
  { intros k Hk. rewrite firstReach_snoc, S'.
    specialize (Nth k Hk). fold S0 in Nth.
    destruct (Z_le_gt_dec k (Z.of_nat (length S0))) as [Hin | Hout].
    - rewrite nth_error_app1 by lia. rewrite Nth.
      destruct (firstReach k fs) as [t |] eqn:E; [reflexivity |].
      simpl in Nth. apply nth_error_None in Nth. lia.
    - assert (E : firstReach k fs = None).
      { destruct (firstReach k fs) as [t |]; [| reflexivity].
        assert (N : nth_error S0 (Z.to_nat (k - 1)) = None)
          by (apply nth_error_None; lia).
        rewrite N in Nth. discriminate Nth. }
      rewrite E, nth_error_app2 by lia.
      destruct (Rleb (IZR k * 1000) (frameDwind f)) eqn:R1.
      + apply Rleb_true, floor_km in R1.
        rewrite nth_error_repeat by (subst n hi; lia). reflexivity.
      + assert (R2 : ~ (k <= Zfloor (frameDwind f / 1000))%Z).
        { intros C. apply floor_km in C. apply Rleb_false in R1. lra. }
        simpl. apply nth_error_None. rewrite repeat_length. subst n hi. lia. }
  split; [exact HN |]. split; [subst n hi; lia |].
  intros [Hc Hd].
  unfold raceInv. rewrite A', F', T', L'.
  rewrite (proj2 (Rleb_false _ _) Hd).
  split; [destruct (f_gameState f); [exact A | exact A | contradiction Hc; reflexivity] |].
  split; [exact F |]. split; [exact T |].
  split; [rewrite Hlen; destruct n eqn:En; subst hi; lia |].
  split; [destruct n eqn:En; subst hi; lia | exact HN].
Qed.

Lemma raceRun_snoc (fs : list Frame) (f : Frame) (w : World) :
  raceRun courseKm (map Tick (fs ++ [f])) w
  = raceFrame courseKm (raceRun courseKm (map Tick fs) w) f.
Proof.
  unfold raceRun. rewrite map_app, fold_left_app. reflexivity.
Qed.

Lemma raceRun_inv (t0 : R) (w : World) (fs : list Frame) :
  raceInv courseKm t0 [] (race w) ->
  Forall (raceGoesOn courseKm) fs ->
  raceInv courseKm t0 fs (race (raceRun courseKm (map Tick fs) w)).
Proof.
  intros H0. induction fs as [| f fs IH] using rev_ind; intros Hg.
  - exact H0.
  - apply Forall_app in Hg. destruct Hg as [Hfs Hf].
    rewrite raceRun_snoc.
    apply (raceFrame_step t0 fs f _ (IH Hfs)).
    inversion Hf; assumption.
Qed.

(** The update that starts an idle race continues as an update of the
    race just started. *)
Lemma raceFrame_autostart (w : World) (f : Frame) :
  active (race w) = false -> finished (race w) = false ->
  f_gameState f = Riding ->
  raceFrame courseKm w f
  = raceFrame courseKm (set_race (startRace (f_time f) (race w)) w) f.
Proof.
  intros A F G.
  unfold raceFrame, updateRaceFor, autoStart.
  cbn [gameState observe set_gameState set_foilState set_race race].
  rewrite G, A, F. reflexivity.
Qed.

Lemma raceRun_started (t0 : R) (w : World) (fs : list Frame) :
  raceStarts t0 w fs ->
  raceRun courseKm (map Tick fs) w
  = raceRun courseKm (map Tick fs) (set_race (startRace t0 (race w)) w).
Proof.
  intros [E | (A & F & H)].
  - replace (set_race (startRace t0 (race w)) w) with w; [reflexivity |].
    rewrite <- E. destruct w; reflexivity.
  - destruct fs as [| f0 fs]; [contradiction |].
    destruct H as [G T].
    unfold raceRun; simpl. rewrite <- T.
    rewrite (raceFrame_autostart w f0 A F G). reflexivity.
Qed.

End FirstReach.

(** C5.  Under a clock that never runs backwards, the list of km splits is
    non-decreasing after every run of race updates and restarts from the
    initial state.  In a race that starts at clock time [t0], after any
    frames that leave it on (no crash, finish line not reached) and one more
    frame of any kind, the split of each kilometre [k] from 1 to the course
    length is there exactly if some frame so far was at or past
    [k * 1000] m downwind, and it is the elapsed time of the first such
    frame; the list holds no other entry.  At the finish every kilometre is
    thus already recorded, with the final elapsed time for those reached in
    the finishing frame, and the backfill of the finish has nothing to
    add. *)
Theorem splits_ordered_and_recorded_once
    (courseKm : Z) (es : list Sim.Event) (t0 : R) (w : Sim.World)
    (fs : list Sim.Frame) (f : Sim.Frame) :
  Sim.nondecreasing (Sim.eventTimes es) ->
  Sim.raceStarts t0 w (fs ++ [f]) ->
  Forall (Sim.raceGoesOn courseKm) fs ->
  let r' := Sim.race (Sim.raceRun courseKm (map Sim.Tick (fs ++ [f])) w) in
  Sim.nondecreasing
    (Sim.kmSplitTimes (Sim.race (Sim.raceRun courseKm es Sim.initialWorld)))
  /\ (forall k : Z,
        (1 <= k <= courseKm)%Z ->
        nth_error (Sim.kmSplitTimes r') (Z.to_nat (k - 1))
        = option_map (fun t => t - t0) (Sim.firstReach k (fs ++ [f])))
  /\ (Z.of_nat (length (Sim.kmSplitTimes r')) <= Z.max 0 courseKm)%Z.
Proof.
  intros Hm Hs Hg r'.
  split; [apply raceRun_sorted; exact Hm |].
  subst r'. rewrite (raceRun_started courseKm t0 w (fs ++ [f]) Hs).
  set (ws := Sim.set_race (Sim.startRace t0 (Sim.race w)) w).
  pose proof (raceRun_inv courseKm t0 ws fs (raceInv_start courseKm t0 (Sim.race w)) Hg)
    as Hi.
  destruct (raceFrame_step courseKm t0 fs f _ Hi) as (A & B & _).
  rewrite raceRun_snoc. split; [exact A | exact B].
Qed.

Lemma sample_frame_distances :
  Sim.frameDwind frameA = 500 /\ Sim.frameDwind frameB = 1050
  /\ Sim.frameDwind frameC = 2100.
Proof.
  unfold Sim.frameDwind, Sim.RACE_START_Z, Rmax; cbn.
  repeat split;
    match goal with |- context [Rle_dec ?a ?b] => destruct (Rle_dec a b) end; lra.
Qed.

Lemma splits_ordered_and_recorded_once_witness :
  Sim.nondecreasing
    (Sim.kmSplitTimes
       (Sim.race
          (Sim.raceRun 2
             [Sim.Tick frameA; Sim.Restart; Sim.Tick frameB; Sim.Tick frameC]
             Sim.initialWorld)))
  /\ nth_error
       (Sim.kmSplitTimes
          (Sim.race
             (Sim.raceRun 2 (map Sim.Tick ([frameA; frameB] ++ [frameC])) launchedWorld)))
       (Z.to_nat (1 - 1))
     = option_map (fun t => t - 100) (Sim.firstReach 1 ([frameA; frameB] ++ [frameC])).
Proof.
  destruct sample_frame_distances as (DA & DB & _).
  assert (Hm : Sim.nondecreasing
                 (Sim.eventTimes
                    [Sim.Tick frameA; Sim.Restart; Sim.Tick frameB; Sim.Tick frameC]))
    by (simpl; lra).
  assert (Hs : Sim.raceStarts 100 launchedWorld ([frameA; frameB] ++ [frameC])).
  { right. split; [reflexivity |]. split; [reflexivity |]. split; reflexivity. }
  assert (Hg : Forall (Sim.raceGoesOn 2) [frameA; frameB]).
  { repeat constructor; try discriminate; rewrite ?DA, ?DB; lra. }
  destruct (splits_ordered_and_recorded_once 2
              [Sim.Tick frameA; Sim.Restart; Sim.Tick frameB; Sim.Tick frameC]
              100 launchedWorld [frameA; frameB] frameC Hm Hs Hg)
    as (S & N & _).
  split; [exact S |].
  apply N. lia.
Defined.

(** The splits of the sample race: kilometre 1 at the second frame,
    kilometre 2 at the third. *)
Lemma sample_race_splits :
  Sim.firstReach 1 [frameA; frameB; frameC] = Some 200
  /\ Sim.firstReach 2 [frameA; frameB; frameC] = Some 400.
Proof.
  destruct sample_frame_distances as (DA & DB & DC).
  unfold Sim.firstReach; simpl find. rewrite DA, DB, DC.
  assert (E1 : Rleb (IZR 1 * 1000) 500 = false) by (apply Rleb_false; lra).
  assert (E2 : Rleb (IZR 1 * 1000) 1050 = true) by (apply Rleb_true; lra).
  assert (E3 : Rleb (IZR 2 * 1000) 500 = false) by (apply Rleb_false; lra).
  assert (E4 : Rleb (IZR 2 * 1000) 1050 = false) by (apply Rleb_false; lra).
  assert (E5 : Rleb (IZR 2 * 1000) 2100 = true) by (apply Rleb_true; lra).
  rewrite E1, E2, E3, E4, E5. split; reflexivity.
Qed.

(** * Further properties of the code *)

(** ** Helpers of the physics step *)

Section SmoothstepFacts.
Import Sim.

Lemma cubic_ease_range (t : R) : 0 <= t <= 1 -> 0 <= t * t * (3 - 2 * t) <= 1.
Proof.
  intros [H0 H1]. split.
  - apply Rmult_le_pos; [apply Rmult_le_pos; lra | lra].
  - assert (E : 1 - t * t * (3 - 2 * t) = (1 - t) * (1 - t) * (1 + 2 * t)) by ring.
    assert (P : 0 <= (1 - t) * (1 - t) * (1 + 2 * t))
      by (apply Rmult_le_pos; [apply Rmult_le_pos; lra | lra]).
    lra.
Qed.

Lemma cubic_ease_mono (a b : R) :
  0 <= a -> a <= b -> b <= 1 ->
  a * a * (3 - 2 * a) <= b * b * (3 - 2 * b).
Proof.
  intros Ha Hab Hb.
  assert (E : b * b * (3 - 2 * b) - a * a * (3 - 2 * a)
              = (b - a) * (3 * (a + b) - 2 * (a * a + a * b + b * b))) by ring.
  assert (P : 0 <= 3 * (a + b) - 2 * (a * a + a * b + b * b)) by nra.
  assert (Q : 0 <= (b - a) * (3 * (a + b) - 2 * (a * a + a * b + b * b)))
    by (apply Rmult_le_pos; lra).
  lra.
Qed.

Lemma unit_clamp_range (r : R) : 0 <= Rmax 0 (Rmin 1 r) <= 1.
Proof.
  split; [apply Rmax_l |].
  apply Rmax_lub; [lra | apply Rmin_l].
Qed.

Lemma unit_clamp_mono (r s : R) : r <= s -> Rmax 0 (Rmin 1 r) <= Rmax 0 (Rmin 1 s).
Proof.
  intros H. apply Rle_max_compat_l. apply Rle_min_compat_l. exact H.
Qed.

End SmoothstepFacts.

(** X1.  When [edge0 < edge1], [smoothstep] never leaves [0, 1]; it is 0
    at and below [edge0], 1 at and above [edge1], and one half midway
    between the edges. *)
Theorem smoothstep_shape (edge0 edge1 x : R) :
  edge0 < edge1 ->
  0 <= Sim.smoothstep edge0 edge1 x <= 1
  /\ (x <= edge0 -> Sim.smoothstep edge0 edge1 x = 0)
  /\ (edge1 <= x -> Sim.smoothstep edge0 edge1 x = 1)
  /\ Sim.smoothstep edge0 edge1 ((edge0 + edge1) / 2) = 1 / 2.
Proof.
  intros He. unfold Sim.smoothstep; cbv zeta.
  split; [apply cubic_ease_range, unit_clamp_range |].
  split; [| split].
  - intros Hx.
    assert (Hr : (x - edge0) / (edge1 - edge0) <= 0).
    { apply Rmult_le_compat_r with (r := / (edge1 - edge0)) in Hx.
      - unfold Rdiv. rewrite Rmult_minus_distr_r. lra.
      - left. apply Rinv_0_lt_compat. lra. }
    rewrite Rmin_right by lra. rewrite Rmax_left by lra. ring.
  - intros Hx.
    assert (Hr : 1 <= (x - edge0) / (edge1 - edge0)).
    { apply Rmult_le_reg_r with (r := edge1 - edge0); [lra |].
      unfold Rdiv. rewrite Rmult_assoc, Rinv_l by lra. lra. }
    rewrite Rmin_left by lra. rewrite Rmax_right by lra. ring.
  - replace (((edge0 + edge1) / 2 - edge0) / (edge1 - edge0)) with (1 / 2)
      by (field; lra).
    rewrite Rmin_right by lra. rewrite Rmax_right by lra. field.
Qed.

Lemma smoothstep_shape_witness :
  Sim.smoothstep 4.9 9.1 7 = 1 / 2 /\ 0 <= Sim.smoothstep 4.9 9.1 3 <= 1.
Proof.
  assert (H : 4.9 < 9.1) by lra.
  split.
  - replace 7 with ((4.9 + 9.1) / 2) by lra.
    exact (proj2 (proj2 (proj2 (smoothstep_shape 4.9 9.1 ((4.9 + 9.1) / 2) H)))).
  - exact (proj1 (smoothstep_shape 4.9 9.1 3 H)).
Defined.

(** X2.  When [edge0 < edge1], [smoothstep] is non-decreasing in its last
    argument: more speed never gives less lift factor. *)
Theorem smoothstep_monotone (edge0 edge1 x y : R) :
  edge0 < edge1 -> x <= y ->
  Sim.smoothstep edge0 edge1 x <= Sim.smoothstep edge0 edge1 y.
Proof.
  intros He Hxy. unfold Sim.smoothstep; cbv zeta.
  assert (Hr : (x - edge0) / (edge1 - edge0) <= (y - edge0) / (edge1 - edge0)).
  { unfold Rdiv. apply Rmult_le_compat_r; [| lra].
    left. apply Rinv_0_lt_compat. lra. }
  apply cubic_ease_mono.
  - apply unit_clamp_range.
  - apply unit_clamp_mono; exact Hr.
  - apply unit_clamp_range.
Qed.

Lemma smoothstep_monotone_witness :
  Sim.smoothstep 4.9 9.1 5 <= Sim.smoothstep 4.9 9.1 8.
Proof.
  apply smoothstep_monotone; lra.
Defined.

(** X3.  [headingToDir] is a unit vector of the horizontal plane, for
    every heading. *)
Theorem headingToDir_unit (heading : R) :
  Vector3.length (Sim.headingToDir heading) = 1
  /\ Vector3.y (Sim.headingToDir heading) = 0
  /\ Vector3.dot (Sim.headingToDir heading) (Sim.headingToDir heading) = 1.
Proof.
  assert (H : sin heading * sin heading + cos heading * cos heading = 1).
  { pose proof (sin2_cos2 heading) as P. unfold Rsqr in P. exact P. }
  unfold Vector3.length, Vector3.dot, Sim.headingToDir; cbn.
  split; [| split].
  - replace (sin heading * sin heading + 0 * 0 + cos heading * cos heading) with 1
      by lra.
    apply sqrt_1.
  - reflexivity.
  - lra.
Qed.

Section AttitudeFacts.
Import Sim.

Lemma MAX_ROLL_pos : 0 < MAX_ROLL.
Proof. unfold MAX_ROLL. pose proof PI_RGT_0. lra. Qed.

Lemma MAX_PITCH_pos : 0 < MAX_PITCH.
Proof. unfold MAX_PITCH. pose proof PI_RGT_0. lra. Qed.

Lemma rollPitchStep_fields (L : Locals) (i : Input) (s : FoilState) :
  roll (rollPitchStep L i s)
  = clamp (roll s
           + (rollRate s
              + ((targetRollOf i - roll s) * ROLL_SPRING - rollRate s * ROLL_DAMPING
                 + l_waveTorque L) * l_dt L) * l_dt L)
      (- MAX_ROLL * 1.2) (MAX_ROLL * 1.2)
  /\ pitch (rollPitchStep L i s)
     = pitch s + (targetPitchOf i - pitch s) * 5.0 * l_dt L
  /\ heading (rollPitchStep L i s) = heading s.
Proof. repeat split. Qed.

Lemma turnStep_attitude (L : Locals) (foil : FoilConfig) (s : FoilState) :
  roll (turnStep L foil s) = roll s /\ pitch (turnStep L foil s) = pitch s.
Proof.
  unfold turnStep.
  destruct (Rltb 0.01 (Rabs (roll s)) && Rltb 1.0 (l_speed L)); split; reflexivity.
Qed.

Lemma turnStep_heading (L : Locals) (foil : FoilConfig) (s : FoilState) :
  0 <= l_dt L -> 0 <= turnRateMax foil ->
  Rabs (heading (turnStep L foil s) - heading s) <= turnRateMax foil * l_dt L.
Proof.
  intros Hdt Ht. unfold turnStep.
  destruct (Rltb 0.01 (Rabs (roll s)) && Rltb 1.0 (l_speed L)).
  - cbn [heading set_heading].
    set (c := clamp _ (- turnRateMax foil) (turnRateMax foil)).
    assert (Hc : - turnRateMax foil <= c <= turnRateMax foil)
      by (apply clamp_bounds; lra).
    replace (heading s + c * l_dt L - heading s) with (c * l_dt L) by ring.
    apply Rabs_le. split; nra.
  - replace (heading s - heading s) with 0 by ring.
    rewrite Rabs_R0. apply Rmult_le_pos; assumption.
Qed.

Lemma pumpStep_attitude (time : R) (w : World) :
  roll (foilState (pumpStep time w)) = roll (foilState w)
  /\ pitch (foilState (pumpStep time w)) = pitch (foilState w)
  /\ heading (foilState (pumpStep time w)) = heading (foilState w)
  /\ distanceTravelled (foilState (pumpStep time w)) = distanceTravelled (foilState w).
Proof.
  unfold pumpStep. destruct (pumpFires time w); cbn; repeat split.
Qed.

Lemma tail_attitude (L : Locals) (s : FoilState) :
  let s' := rideHeightStep L (integrateStep L (regenStep L s)) in
  roll s' = roll s /\ pitch s' = pitch s /\ heading s' = heading s
  /\ lastPumpTime s' = lastPumpTime s
  /\ distanceTravelled s' = distanceTravelled s + l_speed L * l_dt L.
Proof. repeat split. Qed.

Lemma crashCheck_attitude (w : World) :
  let s' := foilState (crashCheck w) in
  roll s' = roll (foilState w) /\ pitch s' = pitch (foilState w)
  /\ heading s' = heading (foilState w)
  /\ lastPumpTime s' = lastPumpTime (foilState w)
  /\ distanceTravelled s' = distanceTravelled (foilState w).
Proof.
  destruct (crashCheck_cases w) as [E | E]; cbv zeta; rewrite E; repeat split.
Qed.

(** The attitude at the end of a riding step is the one reached before the
    pump block. *)
Lemma riding_attitude (dt time : R) (w : World) :
  gameState w = Riding ->
  let s' := foilState (updatePhysics dt time w) in
  let b := foilState (prePump dt time w) in
  roll s' = roll b /\ pitch s' = pitch b /\ heading s' = heading b.
Proof.
  intros G s' b. subst s'. rewrite updatePhysics_riding by exact G.
  destruct (crashCheck_attitude (preCrash dt time w)) as (R1 & P1 & H1 & _).
  rewrite R1, P1, H1, preCrash_foilState.
  destruct (tail_attitude (stepLocals dt time w)
              (foilState (pumpStep time (prePump dt time w)))) as (R2 & P2 & H2 & _).
  rewrite R2, P2, H2.
  destruct (pumpStep_attitude time (prePump dt time w)) as (R3 & P3 & H3 & _).
  rewrite R3, P3, H3. repeat split.
Qed.

Lemma prePump_attitude (dt time : R) (w : World) :
  let L := stepLocals dt time w in
  let b := foilState (prePump dt time w) in
  roll b = roll (rollPitchStep L (input w) (foilState w))
  /\ pitch b = pitch (rollPitchStep L (input w) (foilState w))
  /\ heading b
     = heading (turnStep L (activeFoil w) (rollPitchStep L (input w) (foilState w))).
Proof.
  intros L b. subst b. unfold prePump; cbv zeta; cbn [foilState set_foilState].
  destruct (turnStep_attitude (stepLocals dt time w) (activeFoil w)
              (rollPitchStep (stepLocals dt time w) (input w) (foilState w)))
    as [R1 P1].
  fold L. fold L in R1, P1. rewrite R1, P1. repeat split.
Qed.

Lemma updatePhysics_roll (dt time : R) (w : World) :
  rollInRange w -> rollInRange (updatePhysics dt time w).
Proof.
  intros H.
  destruct (gameState w) eqn:G;
    try (rewrite updatePhysics_not_riding by (rewrite G; discriminate); exact H).
  unfold rollInRange.
  destruct (riding_attitude dt time w G) as (R1 & _).
  destruct (prePump_attitude dt time w) as (R2 & _).
  rewrite R1, R2.
  destruct (rollPitchStep_fields (stepLocals dt time w) (input w) (foilState w))
    as (R3 & _).
  rewrite R3. apply clamp_bounds. pose proof MAX_ROLL_pos. lra.
Qed.

Lemma targetPitch_range (i : Input) : - MAX_PITCH <= targetPitchOf i <= MAX_PITCH.
Proof.
  pose proof MAX_PITCH_pos. unfold targetPitchOf.
  destruct (up i), (down i); lra.
Qed.

Lemma updatePhysics_pitch (dt time : R) (w : World) :
  0 <= dt -> pitchInRange w -> pitchInRange (updatePhysics dt time w).
Proof.
  intros Hdt H.
  destruct (gameState w) eqn:G;
    try (rewrite updatePhysics_not_riding by (rewrite G; discriminate); exact H).
  unfold pitchInRange in *.
  destruct (riding_attitude dt time w G) as (_ & P1 & _).
  destruct (prePump_attitude dt time w) as (_ & P2 & _).
  rewrite P1, P2.
  destruct (rollPitchStep_fields (stepLocals dt time w) (input w) (foilState w))
    as (_ & P3 & _).
  rewrite P3, stepLocals_dt.
  pose proof (targetPitch_range (input w)) as Ht.
  assert (Hd : 0 <= Rmin dt (1 / 30) <= 1 / 30).
  { split; [apply Rmin_glb; lra | apply Rmin_r]. }
  set (d := Rmin dt (1 / 30)) in *. set (p := pitch (foilState w)) in *.
  set (g := targetPitchOf (input w)) in *.
  replace (p + (g - p) * 5.0 * d) with ((1 - 5 * d) * p + 5 * d * g) by lra.
  split; nra.
Qed.

End AttitudeFacts.

Section RunFacts.
Import Sim.

(** A property of the state that every frame and every key keeps is kept
    by every run. *)
Lemma session_keeps (P : World -> Prop) (acts : list Action) :
  (forall a w, In a acts -> P w -> P (act w a)) ->
  forall w : World, P w -> P (session acts w).
Proof.
  unfold session.
  induction acts as [| a acts IH]; intros H w Pw; simpl; [exact Pw |].
  apply IH.
  - intros a' w' Hin. apply H. right; exact Hin.
  - apply H; [left; reflexivity | exact Pw].
Qed.

Lemma stepsForward_In (acts : list Action) (dt time : R) :
  stepsForward acts -> In (Step dt time) acts -> 0 <= dt.
Proof.
  induction acts as [| a acts IH]; intros Hs Hin; [contradiction |].
  destruct Hin as [E | Hin].
  - subst a. simpl in Hs. tauto.
  - apply IH; [| exact Hin]. destruct a; simpl in Hs; tauto.
Qed.

Lemma session_roll (acts : list Action) (w : World) :
  rollInRange w -> rollInRange (session acts w).
Proof.
  apply session_keeps. intros a w' _ H'. unfold rollInRange in *.
  destruct a as [dt time | | |]; simpl act.
  - rewrite animate_foilState. apply updatePhysics_roll; exact H'.
  - unfold keySpace; destruct (gameState w'); cbn; exact H'.
  - unfold keyRestart; destruct (gameState w'); cbn; try exact H'.
    pose proof MAX_ROLL_pos. lra.
  - exact H'.
Qed.

Lemma session_pitch (acts : list Action) (w : World) :
  stepsForward acts -> pitchInRange w -> pitchInRange (session acts w).
Proof.
  intros Hs. apply session_keeps. intros a w' Hin H'. unfold pitchInRange in *.
  destruct a as [dt time | | |]; simpl act.
  - rewrite animate_foilState. apply updatePhysics_pitch; [| exact H'].
    apply (stepsForward_In acts dt time Hs Hin).
  - unfold keySpace; destruct (gameState w'); cbn; exact H'.
  - unfold keyRestart; destruct (gameState w'); cbn; try exact H'.
    pose proof MAX_PITCH_pos. lra.
  - exact H'.
Qed.

Lemma stepLocals_clamped (dt time : R) (w : World) :
  1 / 30 <= dt -> stepLocals dt time w = stepLocals (1 / 30) time w.
Proof.
  intros H. unfold stepLocals.
  rewrite (Rmin_right dt (1 / 30)) by exact H.
  rewrite (Rmin_left (1 / 30) (1 / 30)) by lra.
  reflexivity.
Qed.

Lemma preCrash_clamped (dt time : R) (w : World) :
  1 / 30 <= dt -> preCrash dt time w = preCrash (1 / 30) time w.
Proof.
  intros H. unfold preCrash, prePump.
  rewrite (stepLocals_clamped dt time w H). reflexivity.
Qed.

Lemma launch_speed (w : World) :
  0 <= stallSpeed (activeFoil w) ->
  Vector3.length (velocity (foilState (launchFoil w)))
  = stallSpeed (activeFoil w) * 1.5.
Proof.
  intros H. unfold launchFoil; cbn.
  set (h := heading (foilState w)). set (v := stallSpeed (activeFoil w) * 1.5).
  unfold Vector3.length; cbn.
  assert (T : sin h * sin h + cos h * cos h = 1).
  { pose proof (sin2_cos2 h) as P. unfold Rsqr in P. exact P. }
  replace (sin h * v * (sin h * v) + 0 * v * (0 * v) + cos h * v * (cos h * v))
    with ((sin h * sin h + cos h * cos h) * (v * v)) by ring.
  rewrite T, Rmult_1_l. apply sqrt_square. subst v. lra.
Qed.

Lemma preCrash_distance (dt time : R) (w : World) :
  distanceTravelled (foilState (preCrash dt time w))
  = distanceTravelled (foilState w)
    + Vector3.length (velocity (foilState w)) * Rmin dt (1 / 30).
Proof.
  rewrite preCrash_foilState.
  destruct (tail_attitude (stepLocals dt time w)
              (foilState (pumpStep time (prePump dt time w)))) as (_ & _ & _ & _ & D).
  rewrite D.
  destruct (pumpStep_attitude time (prePump dt time w)) as (_ & _ & _ & D').
  rewrite D'.
  assert (P : distanceTravelled (foilState (prePump dt time w))
              = distanceTravelled (foilState w)).
  { unfold prePump; cbv zeta; cbn [foilState set_foilState]. unfold turnStep.
    destruct (Rltb 0.01 _ && Rltb 1.0 _); reflexivity. }
  rewrite P. reflexivity.
Qed.

Lemma vector_length_nonneg (v : Vector3.t) : 0 <= Vector3.length v.
Proof. unfold Vector3.length. apply sqrt_pos. Qed.

End RunFacts.

(** X4.  Pressing space in the starting state launches the rider: the
    state becomes riding, on the foil at ride height 0.35, at the same
    place, with a velocity of 1.5 times the stall speed of the active foil
    along the heading (for a stall speed that is not negative). *)
Theorem launch_at_one_and_a_half_stall (w : Sim.World) :
  Sim.gameState w = Sim.Starting ->
  0 <= Sim.stallSpeed (Sim.activeFoil w) ->
  let w' := Sim.keySpace w in
  Sim.gameState w' = Sim.Riding
  /\ Vector3.length (Sim.velocity (Sim.foilState w'))
     = 1.5 * Sim.stallSpeed (Sim.activeFoil w)
  /\ Sim.velocity (Sim.foilState w')
     = Vector3.multiplyScalar (Sim.headingToDir (Sim.heading (Sim.foilState w)))
         (Sim.stallSpeed (Sim.activeFoil w) * 1.5)
  /\ Sim.rideHeight (Sim.foilState w') = 0.35
  /\ Sim.onFoil (Sim.foilState w') = true
  /\ Sim.position (Sim.foilState w') = Sim.position (Sim.foilState w)
  /\ Sim.energy (Sim.foilState w') = Sim.energy (Sim.foilState w).
Proof.
  intros G Hs w'. subst w'. unfold Sim.keySpace. rewrite G.
  split; [reflexivity |]. split; [rewrite launch_speed by exact Hs; ring |].
  repeat split.
Qed.

Lemma launch_at_one_and_a_half_stall_witness :
  Vector3.length (Sim.velocity (Sim.foilState (Sim.keySpace Sim.initialWorld)))
  = 1.5 * 7.0.
Proof.
  assert (H : 0 <= Sim.stallSpeed (Sim.activeFoil Sim.initialWorld)) by (simpl; lra).
  exact (proj1 (proj2 (launch_at_one_and_a_half_stall Sim.initialWorld eq_refl H))).
Defined.

(** X5.  The roll angle stays within [-1.2 MAX_ROLL, 1.2 MAX_ROLL]: a
    riding step clamps it there whatever it was, and every other step and
    every key keeps it in range. *)
Theorem roll_stays_clamped (dt time : R) (acts : list Sim.Action) (w : Sim.World) :
  rollInRange w ->
  rollInRange (Sim.updatePhysics dt time w)
  /\ rollInRange (Sim.session acts w)
  /\ rollInRange (Sim.prePump dt time w).
Proof.
  intros H. split; [apply updatePhysics_roll; exact H |].
  split; [apply session_roll; exact H |].
  unfold rollInRange.
  destruct (prePump_attitude dt time w) as (R2 & _). rewrite R2.
  destruct (rollPitchStep_fields (Sim.stepLocals dt time w) (Sim.input w)
              (Sim.foilState w)) as (R3 & _).
  rewrite R3. apply clamp_bounds. pose proof MAX_ROLL_pos. lra.
Qed.

Lemma roll_stays_clamped_witness :
  rollInRange (Sim.updatePhysics (1 / 60) 0 launchedWorld).
Proof.
  assert (H : rollInRange launchedWorld).
  { unfold rollInRange; simpl. pose proof MAX_ROLL_pos. lra. }
  exact (proj1 (roll_stays_clamped (1 / 60) 0 [] launchedWorld H)).
Defined.

(** X6.  With steps that are not negative, a pitch within
    [-MAX_PITCH, MAX_PITCH] stays there: the step is clamped to 1/30 s, so
    the pitch moves at most a sixth of the way to its target, which lies in
    that range. *)
Theorem pitch_stays_in_range (dt time : R) (acts : list Sim.Action) (w : Sim.World) :
  0 <= dt ->
  Sim.stepsForward acts ->
  pitchInRange w ->
  pitchInRange (Sim.updatePhysics dt time w) /\ pitchInRange (Sim.session acts w).
Proof.
  intros Hdt Hs H. split.
  - apply updatePhysics_pitch; assumption.
  - apply session_pitch; assumption.
Qed.

Lemma pitch_stays_in_range_witness :
  pitchInRange (Sim.updatePhysics 5 0 (Sim.keyArrows false false true false launchedWorld)).
Proof.
  assert (H : pitchInRange (Sim.keyArrows false false true false launchedWorld)).
  { unfold pitchInRange; simpl. pose proof MAX_PITCH_pos. lra. }
  assert (Hd : 0 <= 5) by lra.
  exact (proj1 (pitch_stays_in_range 5 0 [] _ Hd I H)).
Defined.

(** X7.  A physics step with a step that is not negative turns the heading
    by at most [turnRateMax] of the active foil times the clamped step
    [min dt (1/30)], whatever the lift and the roll. *)
Theorem heading_rate_bounded (dt time : R) (w : Sim.World) :
  0 <= dt ->
  0 <= Sim.turnRateMax (Sim.activeFoil w) ->
  Rabs (Sim.heading (Sim.foilState (Sim.updatePhysics dt time w))
        - Sim.heading (Sim.foilState w))
  <= Sim.turnRateMax (Sim.activeFoil w) * Rmin dt (1 / 30).
Proof.
  intros Hdt Ht.
  assert (Hd : 0 <= Rmin dt (1 / 30)) by (apply Rmin_glb; lra).
  destruct (Sim.gameState w) eqn:G.
  1, 3: rewrite updatePhysics_not_riding by (rewrite G; discriminate);
        replace (Sim.heading (Sim.foilState w) - Sim.heading (Sim.foilState w))
          with 0 by ring;
        rewrite Rabs_R0; apply Rmult_le_pos; assumption.
  destruct (riding_attitude dt time w G) as (_ & _ & H1).
  destruct (prePump_attitude dt time w) as (_ & _ & H2).
  rewrite H1, H2.
  pose proof (turnStep_heading (Sim.stepLocals dt time w) (Sim.activeFoil w)
                (Sim.rollPitchStep (Sim.stepLocals dt time w) (Sim.input w)
                   (Sim.foilState w))) as B.
  rewrite stepLocals_dt in B.
  destruct (rollPitchStep_fields (Sim.stepLocals dt time w) (Sim.input w)
              (Sim.foilState w)) as (_ & _ & H3).
  rewrite H3 in B. apply B; assumption.
Qed.

Lemma heading_rate_bounded_witness :
  Rabs (Sim.heading (Sim.foilState (Sim.updatePhysics (1 / 60) 0 launchedWorld))
        - Sim.heading (Sim.foilState launchedWorld))
  <= 2 * Rmin (1 / 60) (1 / 30).
Proof.
  apply (heading_rate_bounded (1 / 60) 0 launchedWorld); simpl; lra.
Defined.

(** X8.  A frame slower than 1/30 s is simulated as a frame of exactly
    1/30 s: the physics step gives the same state for every [dt >= 1/30]. *)
Theorem slow_frames_step_one_thirtieth (dt time : R) (w : Sim.World) :
  1 / 30 <= dt ->
  Sim.updatePhysics dt time w = Sim.updatePhysics (1 / 30) time w.
Proof.
  intros H. unfold Sim.updatePhysics.
  rewrite (preCrash_clamped dt time w H). reflexivity.
Qed.

Lemma slow_frames_step_one_thirtieth_witness :
  Sim.updatePhysics 2 0 launchedWorld = Sim.updatePhysics (1 / 30) 0 launchedWorld.
Proof.
  apply slow_frames_step_one_thirtieth. lra.
Defined.

(** X9.  With a step that is not negative the distance travelled never
    decreases; a riding step adds the speed on entry times the clamped
    step, whatever the velocity becomes during the step. *)
Theorem distance_travelled_grows (dt time : R) (w : Sim.World) :
  0 <= dt ->
  Sim.distanceTravelled (Sim.foilState w)
  <= Sim.distanceTravelled (Sim.foilState (Sim.updatePhysics dt time w))
  /\ Sim.distanceTravelled (Sim.foilState (Sim.preCrash dt time w))
     = Sim.distanceTravelled (Sim.foilState w)
       + Vector3.length (Sim.velocity (Sim.foilState w)) * Rmin dt (1 / 30)
  /\ Sim.distanceTravelled (Sim.foilState (Sim.crashCheck (Sim.preCrash dt time w)))
     = Sim.distanceTravelled (Sim.foilState (Sim.preCrash dt time w)).
Proof.
  intros Hdt.
  assert (Hd : 0 <= Rmin dt (1 / 30)) by (apply Rmin_glb; lra).
  destruct (crashCheck_attitude (Sim.preCrash dt time w)) as (_ & _ & _ & _ & D).
  split; [| split; [apply preCrash_distance | exact D]].
  destruct (Sim.gameState w) eqn:G;
    try (rewrite updatePhysics_not_riding by (rewrite G; discriminate); lra).
  rewrite updatePhysics_riding by exact G.
  rewrite D, preCrash_distance.
  pose proof (vector_length_nonneg (Sim.velocity (Sim.foilState w))) as Hv.
  nra.
Qed.

Lemma distance_travelled_grows_witness :
  Sim.distanceTravelled (Sim.foilState launchedWorld)
  <= Sim.distanceTravelled (Sim.foilState (Sim.updatePhysics (1 / 60) 0 launchedWorld)).
Proof.
  assert (H : 0 <= 1 / 60) by lra.
  exact (proj1 (distance_travelled_grows (1 / 60) 0 launchedWorld H)).
Defined.

Section FrameFacts.
Import Sim.

Lemma preCrash_world (dt time : R) (w : World) :
  preCrash dt time w
  = set_foilState (foilState (preCrash dt time w)) (pumpStep time (prePump dt time w)).
Proof. reflexivity. Qed.

Lemma prePump_world (dt time : R) (w : World) :
  prePump dt time w = set_foilState (foilState (prePump dt time w)) w.
Proof. reflexivity. Qed.

Lemma sameSurroundings_refl (w : World) : sameSurroundings w w.
Proof. unfold sameSurroundings. repeat split. Qed.

Lemma sameSurroundings_trans (w1 w2 w3 : World) :
  sameSurroundings w1 w2 -> sameSurroundings w2 w3 -> sameSurroundings w1 w3.
Proof.
  unfold sameSurroundings.
  intros (A1 & A2 & A3 & A4 & A5 & A6 & A7 & A8) (B1 & B2 & B3 & B4 & B5 & B6 & B7 & B8).
  rewrite A1, A2, A3, A4, A5, A6, A7, A8. repeat split; assumption.
Qed.

Lemma set_foilState_surroundings (s : FoilState) (w : World) :
  sameSurroundings (set_foilState s w) w /\ pumpAnims (set_foilState s w) = pumpAnims w
  /\ gameState (set_foilState s w) = gameState w.
Proof. unfold sameSurroundings. repeat split. Qed.

Lemma pumpStep_surroundings (time : R) (w : World) :
  sameSurroundings (pumpStep time w) w.
Proof.
  unfold sameSurroundings, pumpStep. destruct (pumpFires time w); cbn; repeat split.
Qed.

Lemma crashCheck_surroundings (w : World) :
  sameSurroundings (crashCheck w) w /\ pumpAnims (crashCheck w) = pumpAnims w.
Proof.
  destruct (crashCheck_cases w) as [E | E]; rewrite E;
    unfold sameSurroundings; repeat split.
Qed.

Lemma preCrash_surroundings (dt time : R) (w : World) :
  sameSurroundings (preCrash dt time w) w
  /\ pumpAnims (preCrash dt time w) = pumpAnims (pumpStep time (prePump dt time w))
  /\ pumpAnims (prePump dt time w) = pumpAnims w.
Proof.
  split; [| split].
  - rewrite preCrash_world.
    eapply sameSurroundings_trans; [apply set_foilState_surroundings |].
    eapply sameSurroundings_trans; [apply pumpStep_surroundings |].
    rewrite prePump_world. apply set_foilState_surroundings.
  - rewrite preCrash_world. apply set_foilState_surroundings.
  - rewrite prePump_world. apply set_foilState_surroundings.
Qed.

Lemma updatePhysics_surroundings (dt time : R) (w : World) :
  sameSurroundings (updatePhysics dt time w) w.
Proof.
  destruct (gameState w) eqn:G;
    try (rewrite updatePhysics_not_riding by (rewrite G; discriminate);
         apply sameSurroundings_refl).
  rewrite updatePhysics_riding by exact G.
  eapply sameSurroundings_trans; [apply crashCheck_surroundings |].
  apply preCrash_surroundings.
Qed.

Lemma updatePhysics_pumpAnims (dt time : R) (w : World) :
  gameState w = Riding ->
  pumpAnims (updatePhysics dt time w)
  = if pumpFires time (prePump dt time w) then S (pumpAnims w) else pumpAnims w.
Proof.
  intros G. rewrite updatePhysics_riding by exact G.
  destruct (crashCheck_surroundings (preCrash dt time w)) as [_ P1].
  destruct (preCrash_surroundings dt time w) as (_ & P2 & P3).
  rewrite P1, P2.
  destruct (pumpFires time (prePump dt time w)) eqn:F.
  - destruct (pumpStep_fired time _ F) as [_ A]. rewrite A, P3. reflexivity.
  - destruct (pumpStep_idle time _ F) as [_ A]. rewrite A, P3. reflexivity.
Qed.

Lemma updatePhysics_gameState (dt time : R) (w : World) :
  gameState (updatePhysics dt time w) = gameState w
  \/ (gameState w = Riding /\ gameState (updatePhysics dt time w) = Crashed).
Proof.
  destruct (gameState w) eqn:G;
    try (left; rewrite updatePhysics_not_riding by (rewrite G; discriminate);
         exact G).
  rewrite updatePhysics_riding by exact G.
  destruct (preCrash_keeps dt time w) as (Hg & _).
  destruct (crashCheck_cases (preCrash dt time w)) as [E | E]; rewrite E.
  - left. rewrite Hg. exact G.
  - right. split; reflexivity.
Qed.

Lemma updatePhysics_lastPump (dt time : R) (w : World) :
  gameState w = Riding ->
  lastPumpTime (foilState (updatePhysics dt time w))
  = if pumpFires time (prePump dt time w) then time else lastPumpTime (foilState w).
Proof.
  intros G. rewrite updatePhysics_riding by exact G.
  destruct (crashCheck_attitude (preCrash dt time w)) as (_ & _ & _ & T1 & _).
  rewrite T1, preCrash_foilState.
  destruct (tail_attitude (stepLocals dt time w)
              (foilState (pumpStep time (prePump dt time w)))) as (_ & _ & _ & T2 & _).
  rewrite T2.
  destruct (prePump_keeps dt time w) as (_ & _ & _ & _ & _ & _ & _ & _ & _ & T3 & _).
  destruct (pumpFires time (prePump dt time w)) eqn:F.
  - destruct (pumpStep_fired time _ F) as [E _]. rewrite E. reflexivity.
  - destruct (pumpStep_idle time _ F) as [E _]. rewrite E. exact T3.
Qed.

(** The pump cannot fire at a clock value within the cooldown of the last
    pump. *)
Lemma cooldown_blocks (dt time : R) (w : World) :
  time - lastPumpTime (foilState w) <= 0.35 ->
  pumpFires time (prePump dt time w) = false.
Proof.
  intros H. destruct (pumpFires time (prePump dt time w)) eqn:F; [| reflexivity].
  apply pumpFires_iff in F. destruct F as (_ & _ & C).
  destruct (prePump_keeps dt time w) as (_ & _ & _ & _ & _ & _ & _ & _ & _ & T & _).
  rewrite T in C. lra.
Qed.

End FrameFacts.

(** X10.  After a pump has fired in a riding step at clock time [t], a new
    pump intent within the cooldown ([t' - t <= 0.35]) is consumed without
    effect: the pump does not fire, no pump animation is signalled and
    [lastPumpTime] stays [t]. *)
Theorem pump_cooldown_blocks_second_pump (dt t dt' t' : R) (w : Sim.World) :
  Sim.gameState w = Sim.Riding ->
  Sim.pumpFires t (Sim.prePump dt t w) = true ->
  t' - t <= 0.35 ->
  let w1 := Sim.updatePhysics dt t w in
  let w2 := Sim.updatePhysics dt' t' (Sim.keySpace w1) in
  Sim.pumpAnims w1 = S (Sim.pumpAnims w)
  /\ Sim.lastPumpTime (Sim.foilState w1) = t
  /\ Sim.pumpFires t' (Sim.prePump dt' t' (Sim.keySpace w1)) = false
  /\ Sim.pumpAnims w2 = Sim.pumpAnims w1
  /\ Sim.lastPumpTime (Sim.foilState w2) = t
  /\ Sim.pump (Sim.input w2) = false.
Proof.
  intros G F Hc w1 w2.
  assert (A1 : Sim.pumpAnims w1 = S (Sim.pumpAnims w)).
  { subst w1. rewrite updatePhysics_pumpAnims by exact G. rewrite F. reflexivity. }
  assert (T1 : Sim.lastPumpTime (Sim.foilState w1) = t).
  { subst w1. rewrite updatePhysics_lastPump by exact G. rewrite F. reflexivity. }
  assert (P1 : Sim.pump (Sim.input w1) = false).
  { subst w1. rewrite updatePhysics_riding by exact G.
    rewrite crashCheck_input. apply preCrash_keeps. }
  split; [exact A1 |]. split; [exact T1 |].
  destruct (updatePhysics_gameState dt t w) as [S1 | [_ S1]]; fold w1 in S1.
  - rewrite G in S1.
    assert (K : Sim.lastPumpTime (Sim.foilState (Sim.keySpace w1)) = t
                /\ Sim.gameState (Sim.keySpace w1) = Sim.Riding
                /\ Sim.pumpAnims (Sim.keySpace w1) = Sim.pumpAnims w1).
    { unfold Sim.keySpace. rewrite S1. cbn. repeat split; assumption. }
    destruct K as (K1 & K2 & K3).
    assert (B : Sim.pumpFires t' (Sim.prePump dt' t' (Sim.keySpace w1)) = false)
      by (apply cooldown_blocks; rewrite K1; exact Hc).
    split; [exact B |]. subst w2.
    rewrite updatePhysics_pumpAnims, updatePhysics_lastPump by exact K2.
    rewrite B. split; [exact K3 |]. split; [exact K1 |].
    rewrite updatePhysics_riding by exact K2.
    rewrite crashCheck_input. apply preCrash_keeps.
  - assert (K : Sim.keySpace w1 = w1) by (unfold Sim.keySpace; rewrite S1; reflexivity).
    subst w2. rewrite K.
    rewrite updatePhysics_not_riding by (rewrite S1; discriminate).
    split; [apply cooldown_blocks; rewrite T1; exact Hc |].
    split; [reflexivity |]. split; assumption.
Qed.

Lemma pumpingWorld_fires : Sim.pumpFires 0 (Sim.prePump (1 / 60) 0 pumpingWorld) = true.
Proof.
  apply pumpFires_iff.
  destruct (prePump_keeps (1 / 60) 0 pumpingWorld)
    as (_ & I & _ & _ & _ & _ & _ & _ & E & T & _).
  rewrite I, E, T. simpl. repeat split; lra.
Qed.

Lemma pump_cooldown_blocks_second_pump_witness :
  Sim.pumpAnims
    (Sim.updatePhysics (1 / 60) 0.3
       (Sim.keySpace (Sim.updatePhysics (1 / 60) 0 pumpingWorld)))
  = Sim.pumpAnims (Sim.updatePhysics (1 / 60) 0 pumpingWorld).
Proof.
  assert (H : 0.3 - 0 <= 0.35) by lra.
  exact (proj1 (proj2 (proj2 (proj2
           (pump_cooldown_blocks_second_pump (1 / 60) 0 (1 / 60) 0.3 pumpingWorld
              eq_refl pumpingWorld_fires H))))).
Defined.

(** X11.  The game state moves only along starting -> riding (space key),
    riding -> crashed (a frame) and crashed -> starting (restart key):
    every event either keeps it or makes the one change of its kind. *)
Theorem game_state_transitions (a : Sim.Action) (w : Sim.World) :
  mayChange a (Sim.gameState w) (Sim.gameState (Sim.act w a)).
Proof.
  unfold mayChange. destruct a as [dt time | | |]; simpl Sim.act.
  - unfold Sim.animate, Sim.updateRace.
    destruct (updateRaceFor_keeps Sim.RACE_LENGTH_KM dt time (Sim.updatePhysics dt time w))
      as (Hg & _).
    rewrite Hg.
    destruct (updatePhysics_gameState dt time w) as [E | E]; [left | right]; exact E.
  - unfold Sim.keySpace. destruct (Sim.gameState w) eqn:G.
    + right. split; reflexivity.
    + left. cbn. exact G.
    + left. exact G.
  - unfold Sim.keyRestart. destruct (Sim.gameState w) eqn:G.
    + left. exact G.
    + left. exact G.
    + right. split; reflexivity.
  - left. reflexivity.
Qed.

(** X12.  The physics step leaves alone everything but the rider state,
    the game state, the pump intent and the count of pump animations: the
    race data, the active foil, the wind speed, the count of result screens
    and the four held keys come out as they went in, and a step signals at
    most one pump animation. *)
Theorem physics_step_frame (dt time : R) (w : Sim.World) :
  let w' := Sim.updatePhysics dt time w in
  Sim.race w' = Sim.race w
  /\ Sim.activeFoil w' = Sim.activeFoil w
  /\ Sim.windSpeed w' = Sim.windSpeed w
  /\ Sim.resultsShown w' = Sim.resultsShown w
  /\ Sim.left (Sim.input w') = Sim.left (Sim.input w)
  /\ Sim.right (Sim.input w') = Sim.right (Sim.input w)
  /\ Sim.up (Sim.input w') = Sim.up (Sim.input w)
  /\ Sim.down (Sim.input w') = Sim.down (Sim.input w)
  /\ (Sim.pumpAnims w' = Sim.pumpAnims w \/ Sim.pumpAnims w' = S (Sim.pumpAnims w)).
Proof.
  intros w'. subst w'.
  destruct (updatePhysics_surroundings dt time w) as (A1 & A2 & A3 & A4 & A5 & A6 & A7 & A8).
  repeat (split; [assumption |]).
  destruct (Sim.gameState w) eqn:G;
    try (left; rewrite updatePhysics_not_riding by (rewrite G; discriminate);
         reflexivity).
  rewrite updatePhysics_pumpAnims by exact G.
  destruct (Sim.pumpFires time (Sim.prePump dt time w)); [right | left]; reflexivity.
Qed.

Section SlipFacts.
Import Sim.

Lemma decay_algebra (a b sn cs e : R) :
  sn * sn + cs * cs = 1 -> 0 <= e <= 1 ->
  let fwd := a * sn + b * cs in
  (sn * fwd + (a - sn * fwd) * e) * (sn * fwd + (a - sn * fwd) * e)
  + (cs * fwd + (b - cs * fwd) * e) * (cs * fwd + (b - cs * fwd) * e)
  <= a * a + b * b.
Proof.
  intros T He fwd.
  assert (E1 : (sn * fwd + (a - sn * fwd) * e) * (sn * fwd + (a - sn * fwd) * e)
               + (cs * fwd + (b - cs * fwd) * e) * (cs * fwd + (b - cs * fwd) * e)
               = fwd * fwd * (1 - e * e) + e * e * (a * a + b * b)
                 + fwd * fwd * (1 - e) * (1 - e) * (sn * sn + cs * cs - 1))
    by (unfold fwd; ring).
  assert (E2 : a * a + b * b - fwd * fwd
               = (a * a + b * b) * (1 - (sn * sn + cs * cs))
                 + (a * cs - b * sn) * (a * cs - b * sn))
    by (unfold fwd; ring).
  rewrite T in E1, E2. rewrite E1.
  pose proof (Rle_0_sqr (a * cs - b * sn)) as Q. unfold Rsqr in Q.
  assert (He2 : 0 <= 1 - e * e).
  { assert (e * e <= 1 * 1) by (apply Rmult_le_compat; lra). lra. }
  pose proof (Rmult_le_pos _ _ He2 Q) as P.
  clearbody fwd.
  assert (E3 : a * a + b * b - fwd * fwd = (a * cs - b * sn) * (a * cs - b * sn))
    by lra.
  assert (E4 : a * a + b * b
               - (fwd * fwd * (1 - e * e) + e * e * (a * a + b * b)
                  + fwd * fwd * (1 - e) * (1 - e) * (1 - 1))
               = (1 - e * e) * (a * a + b * b - fwd * fwd)) by ring.
  rewrite E3 in E4. lra.
Qed.

Lemma decay_factor_range (dt : R) : 0 <= dt -> 0 <= exp (- LATERAL_RESISTANCE * dt) <= 1.
Proof.
  intros H. split; [left; apply exp_pos |].
  assert (Hx : - LATERAL_RESISTANCE * dt <= 0) by (unfold LATERAL_RESISTANCE; lra).
  destruct Hx as [Hx | Hx].
  - left. rewrite <- exp_0. apply exp_increasing. exact Hx.
  - rewrite Hx, exp_0. lra.
Qed.

(** The velocity after the force has been integrated and its y-component
    zeroed: what the lateral slip decay starts from. *)
Lemma integrateStep_velocity (L : Locals) (s : FoilState) :
  let v1 :=
    Vector3.set_y
      (Vector3.addScaledVector (velocity s)
         (Vector3.divideScalar (l_force L) RIDER_MASS) (l_dt L)) 0 in
  let sn := sin (heading s) in
  let cs := cos (heading s) in
  let fwd := Vector3.x v1 * sn + Vector3.z v1 * cs in
  let e := exp (- LATERAL_RESISTANCE * l_dt L) in
  Vector3.x (velocity (integrateStep L s))
  = sn * fwd + (Vector3.x v1 - sn * fwd) * e
  /\ Vector3.y (velocity (integrateStep L s)) = 0
  /\ Vector3.z (velocity (integrateStep L s))
     = cs * fwd + (Vector3.z v1 - cs * fwd) * e.
Proof.
  intros v1 sn cs fwd e. subst v1 sn cs fwd e.
  unfold integrateStep; cbn. unfold Vector3.dot; cbn. split; [| split]; ring.
Qed.

Lemma updatePhysics_foilMatches (dt time : R) (w : World) :
  foilMatchesState w -> foilMatchesState (updatePhysics dt time w).
Proof.
  intros H.
  destruct (gameState w) eqn:G;
    try (rewrite updatePhysics_not_riding by (rewrite G; discriminate); exact H).
  rewrite updatePhysics_riding by exact G.
  destruct (preCrash_keeps dt time w) as (Hg & _ & _ & Ho & _).
  destruct H as [[H1 H2] _].
  assert (O : onFoil (foilState w) = true).
  { destruct (onFoil (foilState w)); [reflexivity |].
    rewrite G in H2. discriminate (H2 eq_refl). }
  destruct (crashCheck_cases (preCrash dt time w)) as [E | E]; rewrite E.
  - unfold foilMatchesState. rewrite Hg, Ho, G, O.
    split; [split |]; intros C; discriminate C.
  - destruct (crashNow_effect (preCrash dt time w)) as (R0 & O0 & G0).
    unfold foilMatchesState. rewrite R0, O0, G0. repeat split.
Qed.

Lemma act_foilMatches (a : Action) (w : World) :
  foilMatchesState w -> foilMatchesState (act w a).
Proof.
  intros H. destruct a as [dt time | | |]; simpl act.
  - unfold animate, updateRace.
    destruct (updateRaceFor_keeps RACE_LENGTH_KM dt time (updatePhysics dt time w))
      as (Hg & Hf & _).
    unfold foilMatchesState. rewrite Hg, Hf.
    apply updatePhysics_foilMatches; exact H.
  - unfold keySpace. destruct (gameState w) eqn:G.
    + unfold foilMatchesState; cbn. split; [split |]; intros C; discriminate C.
    + unfold foilMatchesState in *; cbn. exact H.
    + exact H.
  - unfold keyRestart. destruct (gameState w) eqn:G; try exact H.
    unfold foilMatchesState; cbn. split; [split |]; intros C; discriminate C.
  - exact H.
Qed.

End SlipFacts.

(** X13.  The lateral slip decay of the physics step leaves the speed
    along the heading as the force integration made it and takes away only
    from the sideways part: with a step that is not negative the velocity
    after the decay is no longer than before it, and it is horizontal. *)
Theorem slip_decay_keeps_forward_speed (L : Sim.Locals) (s : Sim.FoilState) :
  0 <= Sim.l_dt L ->
  let v1 :=
    Vector3.set_y
      (Vector3.addScaledVector (Sim.velocity s)
         (Vector3.divideScalar (Sim.l_force L) Sim.RIDER_MASS) (Sim.l_dt L)) 0 in
  let dir := Sim.headingToDir (Sim.heading s) in
  let v' := Sim.velocity (Sim.integrateStep L s) in
  Vector3.dot v' dir = Vector3.dot v1 dir
  /\ Vector3.length v' <= Vector3.length v1
  /\ Vector3.y v' = 0.
Proof.
  intros Hdt v1 dir v'.
  destruct (integrateStep_velocity L s) as (X & Y & Z).
  fold v1 in X, Z. fold v' in X, Y, Z.
  set (sn := sin (Sim.heading s)) in *. set (cs := cos (Sim.heading s)) in *.
  set (e := exp (- Sim.LATERAL_RESISTANCE * Sim.l_dt L)) in *.
  assert (T : sn * sn + cs * cs = 1).
  { pose proof (sin2_cos2 (Sim.heading s)) as P. unfold Rsqr in P. exact P. }
  assert (Y1 : Vector3.y v1 = 0) by reflexivity.
  pose proof (decay_factor_range (Sim.l_dt L) Hdt) as He. fold e in He.
  split; [| split; [| exact Y]].
  - unfold Vector3.dot. rewrite X, Y, Z, Y1.
    change (Vector3.x dir) with sn. change (Vector3.y dir) with 0.
    change (Vector3.z dir) with cs.
    set (a := Vector3.x v1). set (b := Vector3.z v1).
    assert (E : (sn * (a * sn + b * cs) + (a - sn * (a * sn + b * cs)) * e) * sn
                + 0 * 0
                + (cs * (a * sn + b * cs) + (b - cs * (a * sn + b * cs)) * e) * cs
                - (a * sn + 0 * 0 + b * cs)
                = (1 - e) * (a * sn + b * cs) * (sn * sn + cs * cs - 1)) by ring.
    rewrite T in E. lra.
  - unfold Vector3.length. apply sqrt_le_1_alt.
    rewrite X, Y, Z, Y1.
    pose proof (decay_algebra (Vector3.x v1) (Vector3.z v1) sn cs e T He) as D.
    cbv zeta in D. lra.
Qed.

Lemma slip_decay_keeps_forward_speed_witness :
  Vector3.length
    (Sim.velocity
       (Sim.integrateStep (Sim.stepLocals (1 / 60) 0 launchedWorld)
          (Sim.foilState launchedWorld)))
  <= Vector3.length
       (Vector3.set_y
          (Vector3.addScaledVector (Sim.velocity (Sim.foilState launchedWorld))
             (Vector3.divideScalar
                (Sim.l_force (Sim.stepLocals (1 / 60) 0 launchedWorld)) Sim.RIDER_MASS)
             (Sim.l_dt (Sim.stepLocals (1 / 60) 0 launchedWorld))) 0).
Proof.
  assert (H : 0 <= Sim.l_dt (Sim.stepLocals (1 / 60) 0 launchedWorld)).
  { rewrite stepLocals_dt. unfold Rmin.
    destruct (Rle_dec (1 / 60) (1 / 30)); lra. }
  exact (proj1 (proj2 (slip_decay_keeps_forward_speed
                         (Sim.stepLocals (1 / 60) 0 launchedWorld)
                         (Sim.foilState launchedWorld) H))).
Defined.

(** X14.  Along every run from the initial state the rider is off the foil
    exactly when the game state is crashed, and a crashed rider has ride
    height 0. *)
Theorem off_foil_iff_crashed (run : list Sim.Action) :
  foilMatchesState (Sim.session run Sim.initialWorld).
Proof.
  apply session_keeps.
  - intros a w _ H. apply act_foilMatches; exact H.
  - unfold foilMatchesState; cbn. split; [split |]; intros C; discriminate C.
Qed.

(** ** Wave field and surface solver *)

Section CalmFacts.
Import Wave.

Lemma displaceStep_calm (x z time : R) (a0 : Accum) (w : WaveComponent) :
  displaceStep x z time 0 a0 w = a0.
Proof.
  destruct a0 as [[px py pz] [tx ty tz] [bx by' bz]].
  unfold displaceStep; cbn. unfold Rdiv.
  f_equal; f_equal; ring.
Qed.

Lemma displaceFold_calm (x z time : R) (ws : list WaveComponent) :
  forall a0 : Accum, fold_left (displaceStep x z time 0) ws a0 = a0.
Proof.
  induction ws as [| w ws IH]; intros a0; simpl; [reflexivity |].
  rewrite displaceStep_calm. apply IH.
Qed.

Lemma up_normal :
  Vector3.normalize (Vector3.crossVectors (Vector3.mk 0 0 1) (Vector3.mk 1 0 0))
  = Vector3.mk 0 1 0.
Proof.
  assert (C : Vector3.crossVectors (Vector3.mk 0 0 1) (Vector3.mk 1 0 0)
              = Vector3.mk 0 1 0)
    by (unfold Vector3.crossVectors; cbn; f_equal; ring).
  rewrite C. unfold Vector3.normalize, Vector3.length; cbn.
  replace (0 * 0 + 1 * 1 + 0 * 0) with 1 by ring. rewrite sqrt_1.
  destruct (Req_dec_T 1 0) as [E | _]; [lra |].
  unfold Vector3.divideScalar, Vector3.multiplyScalar; cbn.
  f_equal; field.
Qed.

Lemma displacement_calm (x z time : R) :
  getWaterDisplacement x z time 0 = mkInfo (Vector3.mk x 0 z) (Vector3.mk 0 1 0).
Proof.
  unfold getWaterDisplacement, displaceOver; cbv zeta.
  rewrite displaceFold_calm. unfold displaceInit; cbn [acc_p acc_binormal acc_tangent].
  rewrite up_normal. reflexivity.
Qed.

(** At a grid point that the displacement leaves at the world target, a
    round of the solver stays at that point. *)
Lemma solveBody_fixed (worldX worldZ time windSpeed : R) :
  let info := getWaterDisplacement worldX worldZ time windSpeed in
  Vector3.x (position info) = worldX ->
  Vector3.z (position info) = worldZ ->
  solveBody worldX worldZ time windSpeed (worldX, worldZ, info)
  = ((worldX, worldZ, info), [(worldX, worldZ)]).
Proof.
  intros info Hx Hz. unfold solveBody. rewrite Hx, Hz.
  replace (worldX + (worldX - worldX)) with worldX by ring.
  replace (worldZ + (worldZ - worldZ)) with worldZ by ring.
  reflexivity.
Qed.

Lemma solveLoop_fixed (worldX worldZ time windSpeed : R) (n : nat) :
  let info := getWaterDisplacement worldX worldZ time windSpeed in
  Vector3.x (position info) = worldX ->
  Vector3.z (position info) = worldZ ->
  solveLoop worldX worldZ time windSpeed n (worldX, worldZ, info)
  = ((worldX, worldZ, info), repeat (worldX, worldZ) n).
Proof.
  intros info Hx Hz. subst info.
  induction n as [| n IH]; [reflexivity |].
  cbn [solveLoop].
  rewrite (solveBody_fixed worldX worldZ time windSpeed Hx Hz).
  unfold bind at 1. rewrite IH. reflexivity.
Qed.

Lemma solver_fixed (worldX worldZ time windSpeed : R) :
  let info := getWaterDisplacement worldX worldZ time windSpeed in
  Vector3.x (position info) = worldX ->
  Vector3.z (position info) = worldZ ->
  getSurfaceInfoAtWorldPosM worldX worldZ time windSpeed
  = (info, repeat (worldX, worldZ) 4).
Proof.
  intros info Hx Hz. subst info. unfold getSurfaceInfoAtWorldPosM; cbv zeta.
  unfold evalDisplacement at 1. unfold bind at 1.
  rewrite (solveLoop_fixed worldX worldZ time windSpeed 3 Hx Hz).
  reflexivity.
Qed.

Lemma solver_calm (x z time : R) :
  getSurfaceInfoAtWorldPos x z time 0 = mkInfo (Vector3.mk x 0 z) (Vector3.mk 0 1 0).
Proof.
  unfold getSurfaceInfoAtWorldPos.
  rewrite solver_fixed; rewrite displacement_calm; reflexivity.
Qed.

End CalmFacts.

(** X15.  With no wind the water is flat: the displacement sample of a
    grid point is the point itself at height 0 with the normal straight up,
    at every time; the cheap height is 0; the surface solver returns that
    same sample; and the wing sampler finds a zero slope and no height
    difference between the wing tips. *)
Theorem calm_water_is_flat (x z time : R) (w : Sim.World) :
  Wave.getWaterDisplacement x z time 0
  = Wave.mkInfo (Vector3.mk x 0 z) (Vector3.mk 0 1 0)
  /\ Wave.getWaterHeightFast x z time 0 = 0
  /\ Wave.getSurfaceInfoAtWorldPos x z time 0
     = Wave.mkInfo (Vector3.mk x 0 z) (Vector3.mk 0 1 0)
  /\ Sim.gradient (Sim.sampleWaveAtFoilPoints time 0 w) = Vector2.mk 0 0
  /\ Vector3.y (Wave.position (Sim.rightTip (Sim.sampleWaveAtFoilPoints time 0 w)))
     - Vector3.y (Wave.position (Sim.leftTip (Sim.sampleWaveAtFoilPoints time 0 w)))
     = 0.
Proof.
  split; [apply displacement_calm |].
  split.
  { unfold Wave.getWaterHeightFast, Wave.heightOver.
    change 0 with (Vector3.y (Wave.acc_p (Wave.displaceInit x z))) at 2.
    rewrite <- (displace_height_fold x z time 0 Wave.waveConfig
                  (Wave.displaceInit x z)).
    rewrite displaceFold_calm. reflexivity. }
  split; [apply solver_calm |].
  unfold Sim.sampleWaveAtFoilPoints; cbv zeta.
  cbn [Sim.gradient Sim.rightTip Sim.leftTip].
  rewrite !solver_calm. cbn [Wave.normal Wave.position Vector3.x Vector3.y Vector3.z].
  split; [| ring].
  unfold Rdiv. f_equal; ring.
Qed.

(** X17.  The surface solver is exact at a solution: when the wave
    displacement leaves the grid point [(worldX, worldZ)] at the world
    target, all 4 evaluations are made at that point and its sample is
    returned. *)
Theorem surface_solver_stays_at_solution (worldX worldZ time windSpeed : R) :
  Vector3.x (Wave.position (Wave.getWaterDisplacement worldX worldZ time windSpeed))
  = worldX ->
  Vector3.z (Wave.position (Wave.getWaterDisplacement worldX worldZ time windSpeed))
  = worldZ ->
  Wave.getSurfaceInfoAtWorldPosM worldX worldZ time windSpeed
  = (Wave.getWaterDisplacement worldX worldZ time windSpeed,
     [(worldX, worldZ); (worldX, worldZ); (worldX, worldZ); (worldX, worldZ)])
  /\ Wave.getSurfaceInfoAtWorldPos worldX worldZ time windSpeed
     = Wave.getWaterDisplacement worldX worldZ time windSpeed.
Proof.
  intros Hx Hz.
  pose proof (solver_fixed worldX worldZ time windSpeed Hx Hz) as E.
  split; [exact E |].
  unfold Wave.getSurfaceInfoAtWorldPos. rewrite E. reflexivity.
Qed.

Lemma surface_solver_stays_at_solution_witness :
  Wave.getSurfaceInfoAtWorldPos 3 (-800) 12 0 = Wave.getWaterDisplacement 3 (-800) 12 0.
Proof.
  apply surface_solver_stays_at_solution; rewrite displacement_calm; reflexivity.
Defined.

Section WaveBounds.
Import Wave.

Lemma Rabs_le_between (a b : R) : Rabs a <= b -> - b <= a <= b.
Proof.
  intros H. pose proof (Rle_abs a) as P. pose proof (Rle_abs (- a)) as Q.
  rewrite Rabs_Ropp in Q. lra.
Qed.

(** The vertical term of a wave component is at most its amplitude,
    [steepness * wavelength * windSpeed^2 / (2 pi)]. *)
Lemma specHeightTerm_bound (x z time windSpeed : R) (w : WaveComponent) :
  0 <= steepness w -> 0 < wavelength w ->
  Rabs (specHeightTerm x z time windSpeed w)
  <= steepness w * wavelength w * (windSpeed * windSpeed) / (2 * PI).
Proof.
  intros Hs Hl. unfold specHeightTerm; cbv zeta.
  pose proof PI_RGT_0 as Hpi.
  set (f := 2 * PI / wavelength w * _).
  replace (steepness w * windSpeed ^ 2 / (2 * PI / wavelength w))
    with (steepness w * wavelength w * (windSpeed * windSpeed) / (2 * PI))
    by (field; lra).
  set (a := steepness w * wavelength w * (windSpeed * windSpeed) / (2 * PI)).
  assert (Ha : 0 <= a).
  { subst a. unfold Rdiv. apply Rmult_le_pos.
    - apply Rmult_le_pos; [apply Rmult_le_pos; lra | nra].
    - left. apply Rinv_0_lt_compat. lra. }
  rewrite Rabs_mult, (Rabs_pos_eq a Ha).
  pose proof (SIN_bound f) as [S1 S2].
  assert (Hsin : Rabs (sin f) <= 1) by (apply Rabs_le; lra).
  nra.
Qed.

Lemma height_bound (x z time windSpeed : R) :
  Rabs (getWaterHeightFast x z time windSpeed)
  <= 10.1 * (windSpeed * windSpeed) / (2 * PI).
Proof.
  unfold getWaterHeightFast, heightOver. rewrite height_fold_spec.
  unfold waveConfig, specHeightSum; cbn [fold_right].
  set (w1 := mkWave (Vector2.mk 0.2 0.9) 0.15 40.0 1.2).
  set (w2 := mkWave (Vector2.mk (-0.1) 0.95) 0.1 25.0 1.1).
  set (w3 := mkWave (Vector2.mk 0.3 0.8) 0.08 15.0 1.3).
  set (w4 := mkWave (Vector2.mk (-0.2) 0.9) 0.05 8.0 1.5).
  pose proof (specHeightTerm_bound x z time windSpeed w1) as B1.
  pose proof (specHeightTerm_bound x z time windSpeed w2) as B2.
  pose proof (specHeightTerm_bound x z time windSpeed w3) as B3.
  pose proof (specHeightTerm_bound x z time windSpeed w4) as B4.
  cbn [steepness wavelength w1 w2 w3 w4] in B1, B2, B3, B4.
  specialize (B1 ltac:(lra) ltac:(lra)). specialize (B2 ltac:(lra) ltac:(lra)).
  specialize (B3 ltac:(lra) ltac:(lra)). specialize (B4 ltac:(lra) ltac:(lra)).
  set (t1 := specHeightTerm x z time windSpeed w1) in *.
  set (t2 := specHeightTerm x z time windSpeed w2) in *.
  set (t3 := specHeightTerm x z time windSpeed w3) in *.
  set (t4 := specHeightTerm x z time windSpeed w4) in *.
  set (q := (windSpeed * windSpeed) / (2 * PI)) in *.
  assert (E1 : 0.15 * 40.0 * (windSpeed * windSpeed) / (2 * PI) = 6 * q)
    by (subst q; unfold Rdiv; lra).
  assert (E2 : 0.1 * 25.0 * (windSpeed * windSpeed) / (2 * PI) = 2.5 * q)
    by (subst q; unfold Rdiv; lra).
  assert (E3 : 0.08 * 15.0 * (windSpeed * windSpeed) / (2 * PI) = 1.2 * q)
    by (subst q; unfold Rdiv; lra).
  assert (E4 : 0.05 * 8.0 * (windSpeed * windSpeed) / (2 * PI) = 0.4 * q)
    by (subst q; unfold Rdiv; lra).
  rewrite E1 in B1. rewrite E2 in B2. rewrite E3 in B3. rewrite E4 in B4.
  replace (10.1 * (windSpeed * windSpeed) / (2 * PI)) with (10.1 * q)
    by (subst q; unfold Rdiv; lra).
  apply Rabs_le_between in B1. apply Rabs_le_between in B2.
  apply Rabs_le_between in B3. apply Rabs_le_between in B4.
  apply Rabs_le. lra.
Qed.

(** No component of a normalized vector exceeds 1 in size. *)
Lemma component_le_length (a b c : R) : Rabs a <= sqrt (a * a + b * b + c * c).
Proof.
  rewrite <- sqrt_Rsqr_abs. apply sqrt_le_1_alt. unfold Rsqr. nra.
Qed.

Lemma scaled_component (a l : R) :
  Rabs a <= l -> Rabs (a * (1 / (if Req_dec_T l 0 then 1 else l))) <= 1.
Proof.
  intros H. destruct (Req_dec_T l 0) as [E | N].
  - rewrite E in H. replace (a * (1 / 1)) with a by field.
    pose proof (Rabs_pos a). lra.
  - assert (Hl : 0 < l) by (pose proof (Rabs_pos a); lra).
    replace (a * (1 / l)) with (a / l) by (field; lra).
    unfold Rdiv. rewrite Rabs_mult, (Rabs_pos_eq (/ l)).
    + apply Rmult_le_reg_r with (r := l); [exact Hl |].
      rewrite Rmult_assoc, Rinv_l by lra. lra.
    + left. apply Rinv_0_lt_compat. exact Hl.
Qed.

Lemma normalize_components (v : Vector3.t) :
  Rabs (Vector3.x (Vector3.normalize v)) <= 1
  /\ Rabs (Vector3.y (Vector3.normalize v)) <= 1
  /\ Rabs (Vector3.z (Vector3.normalize v)) <= 1.
Proof.
  destruct v as [a b c].
  unfold Vector3.normalize, Vector3.divideScalar, Vector3.multiplyScalar,
    Vector3.length; cbn.
  split; [| split]; apply scaled_component.
  - apply component_le_length.
  - replace (a * a + b * b + c * c) with (b * b + a * a + c * c) by ring.
    apply component_le_length.
  - replace (a * a + b * b + c * c) with (c * c + b * b + a * a) by ring.
    apply component_le_length.
Qed.

Lemma displacement_normal_components (x z time windSpeed : R) :
  Rabs (Vector3.x (normal (getWaterDisplacement x z time windSpeed))) <= 1
  /\ Rabs (Vector3.z (normal (getWaterDisplacement x z time windSpeed))) <= 1.
Proof.
  unfold getWaterDisplacement, displaceOver; cbv zeta; cbn [normal].
  destruct (normalize_components
              (Vector3.crossVectors
                 (acc_binormal (fold_left (displaceStep x z time windSpeed) waveConfig
                                  (displaceInit x z)))
                 (acc_tangent (fold_left (displaceStep x z time windSpeed) waveConfig
                                 (displaceInit x z))))) as (A & _ & C).
  split; assumption.
Qed.

Lemma floored_quotient (a b : R) : Rabs a <= 1 -> Rabs (- a / Rmax b 0.01) <= 100.
Proof.
  intros H.
  assert (Hm : 0.01 <= Rmax b 0.01) by apply Rmax_r.
  unfold Rdiv. rewrite Rabs_mult, Rabs_Ropp, (Rabs_pos_eq (/ Rmax b 0.01)).
  - apply Rmult_le_reg_r with (r := Rmax b 0.01); [lra |].
    rewrite Rmult_assoc, Rinv_l by lra. nra.
  - left. apply Rinv_0_lt_compat. lra.
Qed.

End WaveBounds.

Lemma solver_result_is_sample (worldX worldZ time windSpeed : R) :
  exists p : R * R,
    Wave.getSurfaceInfoAtWorldPos worldX worldZ time windSpeed
    = Wave.getWaterDisplacement (fst p) (snd p) time windSpeed.
Proof.
  exists (Wave.shiftPoint worldX worldZ time windSpeed
            (Wave.shiftPoint worldX worldZ time windSpeed
               (Wave.shiftPoint worldX worldZ time windSpeed (worldX, worldZ)))).
  reflexivity.
Qed.

(** X16.  The water height is bounded by the sum of the amplitudes of the
    four wave components: at every point and time, the cheap height and
    the y-component of the displacement sample are within
    [10.1 * windSpeed^2 / (2 pi)] of 0. *)
Theorem wave_height_bounded (x z time windSpeed : R) :
  Rabs (Wave.getWaterHeightFast x z time windSpeed)
  <= 10.1 * (windSpeed * windSpeed) / (2 * PI)
  /\ Rabs (Vector3.y (Wave.position (Wave.getWaterDisplacement x z time windSpeed)))
     <= 10.1 * (windSpeed * windSpeed) / (2 * PI).
Proof.
  split; [apply height_bound |].
  unfold Wave.getWaterDisplacement, Wave.displaceOver; cbv zeta; cbn [Wave.position].
  rewrite displace_height_fold. apply height_bound.
Qed.

(** X18.  The slope the wing sampler returns is bounded: the normal of the
    center sample is normalized and its y-component is floored at 0.01
    before the division, so each component of the gradient is at most 100
    in size, for every state, time and wind speed. *)
Theorem wave_gradient_bounded (time windSpeed : R) (w : Sim.World) :
  Rabs (Vector2.x (Sim.gradient (Sim.sampleWaveAtFoilPoints time windSpeed w))) <= 100
  /\ Rabs (Vector2.y (Sim.gradient (Sim.sampleWaveAtFoilPoints time windSpeed w))) <= 100.
Proof.
  unfold Sim.sampleWaveAtFoilPoints; cbv zeta. cbn [Sim.gradient Vector2.x Vector2.y].
  set (c := Wave.getSurfaceInfoAtWorldPos _ _ time windSpeed).
  assert (N : Rabs (Vector3.x (Wave.normal c)) <= 1
              /\ Rabs (Vector3.z (Wave.normal c)) <= 1).
  { subst c.
    destruct (solver_result_is_sample
                (Vector3.x (Sim.position (Sim.foilState w)))
                (Vector3.z (Sim.position (Sim.foilState w))) time windSpeed)
      as [p E].
    rewrite E. apply displacement_normal_components. }
  destruct N as [Nx Nz].
  split; apply floored_quotient; assumption.
Qed.

(** ** Race tracker *)

Section RaceMore.
Import Sim.

Lemma backfill_rest (fuel : nat) :
  forall (len : Z) (r : RaceData),
    totalElapsed (backfill fuel len r) = totalElapsed r
    /\ splitFlashTimer (backfill fuel len r) = splitFlashTimer r.
Proof.
  induction fuel as [| fuel IH]; intros len r; simpl; [split; reflexivity |].
  destruct (Z.of_nat (length (kmSplitTimes r)) <? len)%Z; [| split; reflexivity].
  destruct (IH len (set_kmSplitTimes (kmSplitTimes r ++ [totalElapsed r]) r)) as [A B].
  rewrite A, B. split; reflexivity.
Qed.

Lemma raceFinish_rest (courseKm : Z) (time dwind : R) (w : World) :
  let w' := raceFinish courseKm time dwind w in
  (IZR courseKm * 1000 <= dwind ->
   totalElapsed (race w') = time - startTime (race w)
   /\ splitFlashTimer (race w') = 0
   /\ resultsShown w' = S (resultsShown w))
  /\ (dwind < IZR courseKm * 1000 -> w' = w).
Proof.
  intros w'. subst w'. unfold raceFinish. split; intros H.
  - rewrite (proj2 (Rleb_true _ _) H).
    cbn [race set_resultsShown set_race resultsShown].
    set (r0 := set_splitFlashTimer 0 _).
    destruct (backfill_rest
                (Z.to_nat (courseKm - Z.of_nat (length (kmSplitTimes r0)))) courseKm r0)
      as [A B].
    rewrite A, B. repeat split.
  - rewrite (proj2 (Rleb_false _ _) H). reflexivity.
Qed.

Lemma raceCrash_rest (w : World) :
  totalElapsed (race (raceCrash w)) = totalElapsed (race w)
  /\ splitFlashTimer (race (raceCrash w)) = splitFlashTimer (race w)
  /\ resultsShown (raceCrash w) = resultsShown w.
Proof. unfold raceCrash. destruct (gameState w); repeat split. Qed.

Lemma autoStart_idle (time : R) (w : World) :
  finished (race w) = true \/ gameState w <> Riding -> autoStart time w = w.
Proof.
  intros H. unfold autoStart. destruct (gameState w) eqn:G; try reflexivity.
  destruct H as [F | N]; [| contradiction N; reflexivity].
  rewrite F, andb_false_r. reflexivity.
Qed.

Lemma updateRaceFor_frozen (courseKm : Z) (dt time : R) (w : World) :
  active (race w) = false ->
  finished (race w) = true \/ gameState w <> Riding ->
  updateRaceFor courseKm dt time w = w.
Proof.
  intros A H.
  rewrite updateRaceFor_inactive; rewrite (autoStart_idle time w H);
    [reflexivity | exact A].
Qed.

Lemma autoStart_resultsShown (time : R) (w : World) :
  resultsShown (autoStart time w) = resultsShown w.
Proof.
  unfold autoStart. destruct (gameState w); try reflexivity.
  destruct (negb (active (race w)) && negb (finished (race w))); reflexivity.
Qed.

End RaceMore.

(** X19.  The race update leaves the whole state as it is when the race is
    not active and either is finished or the rider is not riding: a
    finished race is frozen, and so is an abandoned one until the rider
    rides again. *)
Theorem idle_race_is_frozen (courseKm : Z) (dt time : R) (w : Sim.World) :
  Sim.active (Sim.race w) = false ->
  Sim.finished (Sim.race w) = true \/ Sim.gameState w <> Sim.Riding ->
  Sim.updateRaceFor courseKm dt time w = w.
Proof. apply updateRaceFor_frozen. Qed.

Lemma idle_race_is_frozen_witness :
  Sim.updateRaceFor 1 (1 / 60) 30 crashedWorld = crashedWorld.
Proof.
  apply idle_race_is_frozen; [reflexivity | right; discriminate].
Defined.

(** X20.  A race update on an active race finishes it exactly when the
    downwind distance has reached the course distance.  Then the race is
    finished and no longer active, the elapsed time is the clock minus the
    start time, the flash timer is 0, the results are shown once, and at
    least [courseKm] splits are recorded whatever the race data were
    before.  Short of the distance the results are not shown and
    [finished] is as before. *)
Theorem finish_at_course_distance (courseKm : Z) (dt time : R) (w : Sim.World) :
  Sim.active (Sim.race (Sim.autoStart time w)) = true ->
  let r1 := Sim.race (Sim.autoStart time w) in
  let w' := Sim.updateRaceFor courseKm dt time w in
  (IZR courseKm * 1000 <= Sim.downwindDist w ->
   Sim.finished (Sim.race w') = true
   /\ Sim.active (Sim.race w') = false
   /\ Sim.totalElapsed (Sim.race w') = time - Sim.startTime r1
   /\ Sim.splitFlashTimer (Sim.race w') = 0
   /\ (courseKm <= Z.of_nat (length (Sim.kmSplitTimes (Sim.race w'))))%Z
   /\ Sim.resultsShown w' = S (Sim.resultsShown w))
  /\ (Sim.downwindDist w < IZR courseKm * 1000 ->
      Sim.finished (Sim.race w') = Sim.finished r1
      /\ Sim.resultsShown w' = Sim.resultsShown w).
Proof.
  intros A r1 w'. subst w'.
  rewrite updateRaceFor_active by exact A.
  set (dw := Sim.downwindDist w).
  set (w1 := Sim.autoStart time w).
  set (w2 := Sim.raceSplits courseKm dt time dw w1).
  destruct (race_body_fields courseKm dt time dw w1) as (S' & _ & _ & F' & A').
  fold w2 in S', F', A'. fold r1 in S', F', A'.
  destruct (raceFinish_rest courseKm time dw w2) as [Rf Rn].
  destruct (raceCrash_rest (Sim.raceFinish courseKm time dw w2)) as (C1 & C2 & C3).
  destruct (raceSplits_fields courseKm dt time dw w1) as (_ & _ & St & _ & _ & _).
  fold w2 in St. fold r1 in St.
  assert (R2 : Sim.resultsShown w2 = Sim.resultsShown w)
    by (subst w2 w1; cbn; apply autoStart_resultsShown).
  split; intros H.
  - destruct (Rf H) as (T & Fl & Rs).
    rewrite F', A', S', C1, C2, C3, T, Fl, Rs, St, R2.
    rewrite (proj2 (Rleb_true _ _) H).
    repeat (split; [reflexivity |]). split; [| reflexivity].
    rewrite length_app, repeat_length. lia.
  - rewrite F', C3, (Rn H), R2. rewrite (proj2 (Rleb_false _ _) H).
    split; reflexivity.
Qed.

Lemma finish_at_course_distance_witness :
  Sim.finished (Sim.race (Sim.updateRaceFor 1 (1 / 60) 95 crashAtLineWorld)) = true
  /\ Sim.resultsShown (Sim.updateRaceFor 1 (1 / 60) 95 crashAtLineWorld)
     = S (Sim.resultsShown crashAtLineWorld).
Proof.
  destruct (finish_at_course_distance 1 (1 / 60) 95 crashAtLineWorld eq_refl) as [F _].
  assert (H : IZR 1 * 1000 <= Sim.downwindDist crashAtLineWorld)
    by (rewrite crash_at_line_distance; lra).
  destruct (F H) as (A & _ & _ & _ & _ & B).
  split; assumption.
Defined.

(** X21.  In a race update on an active race the km counter becomes the
    larger of its old value and [min (floor (distance / 1000)) courseKm]:
    it never goes back, even when the rider does, and it moves only up to
    the course length. *)
Theorem km_counter_only_advances (courseKm : Z) (dt time : R) (w : Sim.World) :
  Sim.active (Sim.race (Sim.autoStart time w)) = true ->
  let r1 := Sim.race (Sim.autoStart time w) in
  let r' := Sim.race (Sim.updateRaceFor courseKm dt time w) in
  Sim.lastKmReached r'
  = Z.max (Sim.lastKmReached r1)
      (Z.min (Zfloor (Sim.downwindDist w / 1000)) courseKm)
  /\ (Sim.lastKmReached r1 <= Sim.lastKmReached r')%Z
  /\ (Sim.lastKmReached r' <= Z.max (Sim.lastKmReached r1) courseKm)%Z.
Proof.
  intros A r1 r'. subst r'.
  rewrite updateRaceFor_active by exact A.
  destruct (race_body_fields courseKm dt time (Sim.downwindDist w) (Sim.autoStart time w))
    as (_ & L' & _).
  fold r1 in L'. rewrite L'.
  set (hi := Z.min (Zfloor (Sim.downwindDist w / 1000)) courseKm).
  destruct (Z.to_nat (hi - Sim.lastKmReached r1)) eqn:E; subst hi; lia.
Qed.

Lemma km_counter_only_advances_witness :
  (Sim.lastKmReached (Sim.race crashAtLineWorld)
   <= Sim.lastKmReached (Sim.race (Sim.updateRaceFor 3 (1 / 60) 95 crashAtLineWorld)))%Z.
Proof.
  exact (proj1 (proj2 (km_counter_only_advances 3 (1 / 60) 95 crashAtLineWorld eq_refl))).
Defined.

(** ** Lift floor and crash *)

Section CrashMore.
Import Sim.

Lemma smoothstep_above (edge0 edge1 x : R) :
  edge0 < edge1 -> edge1 <= x -> smoothstep edge0 edge1 x = 1.
Proof.
  intros He Hx. unfold smoothstep; cbv zeta.
  assert (Hr : 1 <= (x - edge0) / (edge1 - edge0)).
  { apply Rmult_le_reg_r with (r := edge1 - edge0); [lra |].
    unfold Rdiv. rewrite Rmult_assoc, Rinv_l by lra. lra. }
  rewrite Rmin_left by lra. rewrite Rmax_right by lra. ring.
Qed.

Lemma stepLocals_lift (dt time : R) (w : World) :
  let sp := Vector3.length (velocity (foilState w)) in
  let foil := activeFoil w in
  l_speed (stepLocals dt time w) = sp
  /\ l_liftMag (stepLocals dt time w)
     = 0.5 * RHO_WATER * sp * sp
       * (maxLiftCoeff foil * smoothstep (stallSpeed foil * 0.7) (stallSpeed foil * 1.3) sp)
       * wingArea foil.
Proof. split; reflexivity. Qed.

Lemma rideHeightStep_formula (L : Locals) (s : FoilState) :
  rideHeight (rideHeightStep L s)
  = Rmax (minRideHeightOf L)
      (Rmin MAST_LENGTH
         (rideHeight s
          + (rideHeightVel s
             + ((clamp (clamp ((liftRatioOf L - 0.8) / 1.2 * MAST_LENGTH * 0.8)
                          0 MAST_LENGTH + pitch s * 0.3) 0 MAST_LENGTH
                 - rideHeight s) * HEIGHT_SPRING
                - rideHeightVel s * HEIGHT_DAMPING) * l_dt L) * l_dt L)).
Proof. reflexivity. Qed.

Lemma before_height_fields (L : Locals) (s : FoilState) :
  let s' := integrateStep L (regenStep L s) in
  rideHeight s' = rideHeight s /\ rideHeightVel s' = rideHeightVel s
  /\ pitch s' = pitch s.
Proof. repeat split. Qed.

Lemma prePump_heightVel (dt time : R) (w : World) :
  rideHeightVel (foilState (prePump dt time w)) = rideHeightVel (foilState w).
Proof.
  unfold prePump; cbv zeta; cbn [foilState set_foilState]. unfold turnStep.
  destruct (Rltb 0.01 _ && Rltb 1.0 _); reflexivity.
Qed.

(** With lift above weight the clamp of the ride height has floor 0.12,
    above both thresholds of the crash check. *)
Lemma lift_floor (dt time : R) (w : World) :
  gameState w = Riding ->
  1 < liftRatioOf (stepLocals dt time w) ->
  updatePhysics dt time w = preCrash dt time w
  /\ 0.12 <= rideHeight (foilState (preCrash dt time w)) <= MAST_LENGTH.
Proof.
  intros G Hl.
  assert (Hr : 0.12 <= rideHeight (foilState (preCrash dt time w)) <= MAST_LENGTH).
  { rewrite preCrash_foilState.
    destruct (rideHeightStep_range (stepLocals dt time w)
                (integrateStep (stepLocals dt time w)
                   (regenStep (stepLocals dt time w)
                      (foilState (pumpStep time (prePump dt time w))))))
      as [[A B] _].
    destruct (minRideHeight_cases (stepLocals dt time w)) as [[_ M] | [C _]];
      [rewrite M in A; split; assumption | lra]. }
  split; [| exact Hr].
  rewrite updatePhysics_riding by exact G.
  unfold crashCheck; cbv zeta.
  rewrite (proj2 (Rleb_false _ 0.001)) by lra.
  rewrite (proj2 (Rltb_false _ 0.05)) by lra.
  reflexivity.
Qed.

Lemma launched_lift_ratio (dt time : R) :
  1 < liftRatioOf (stepLocals dt time launchedWorld).
Proof.
  unfold liftRatioOf.
  destruct (stepLocals_lift dt time launchedWorld) as [_ Lm]. rewrite Lm.
  assert (Sp : Vector3.length (velocity (foilState launchedWorld)) = 7.0 * 1.5).
  { unfold launchedWorld. rewrite launch_speed; simpl; lra. }
  rewrite Sp.
  change (activeFoil launchedWorld) with HighAspectRace.
  cbn [stallSpeed maxLiftCoeff wingArea HighAspectRace].
  rewrite smoothstep_above by lra.
  unfold RHO_WATER, RIDER_MASS, GRAVITY.
  apply Rmult_lt_reg_r with (r := 80 * 9.81); [lra |].
  unfold Rdiv. rewrite Rmult_assoc, Rinv_l by lra. lra.
Qed.

Lemma atRest_height (dt time : R) (w : World) :
  atRest w -> rideHeight (foilState (preCrash dt time w)) = 0.
Proof.
  intros (G & V & H & HV & P & U & D & Pm).
  set (L := stepLocals dt time w).
  assert (Sp : l_speed L = 0).
  { subst L. destruct (stepLocals_lift dt time w) as [S _]. rewrite S, V.
    unfold Vector3.length; cbn.
    replace (0 * 0 + 0 * 0 + 0 * 0) with 0 by ring. apply sqrt_0. }
  assert (Lr : liftRatioOf L = 0).
  { unfold liftRatioOf. subst L.
    destruct (stepLocals_lift dt time w) as [S Lm]. rewrite Lm.
    rewrite S in Sp. rewrite Sp. unfold Rdiv, RHO_WATER. lra. }
  assert (Mr : minRideHeightOf L = 0).
  { destruct (minRideHeight_cases L) as [[C _] | [_ M]]; [lra | exact M]. }
  assert (F : pumpFires time (prePump dt time w) = false).
  { destruct (pumpFires time (prePump dt time w)) eqn:E; [| reflexivity].
    apply pumpFires_iff in E. destruct E as (E & _).
    destruct (prePump_keeps dt time w) as (_ & I & _). rewrite I, Pm in E.
    discriminate E. }
  destruct (pumpStep_idle time _ F) as [Ps _].
  rewrite preCrash_foilState. fold L. rewrite rideHeightStep_formula.
  destruct (before_height_fields L (foilState (pumpStep time (prePump dt time w))))
    as (B1 & B2 & B3).
  rewrite B1, B2, B3, Ps, prePump_heightVel.
  destruct (prePump_keeps dt time w) as (_ & _ & _ & _ & _ & _ & _ & Rh & _).
  rewrite Rh, H, HV.
  destruct (prePump_attitude dt time w) as (_ & Pp & _). rewrite Pp.
  destruct (rollPitchStep_fields L (input w) (foilState w)) as (_ & Pf & _).
  fold L. rewrite Pf, P.
  assert (Tp : targetPitchOf (input w) = 0) by (unfold targetPitchOf; rewrite U, D; reflexivity).
  rewrite Tp, Mr, Lr.
  unfold clamp, MAST_LENGTH, HEIGHT_SPRING, HEIGHT_DAMPING.
  rewrite (Rmin_right 0.8 ((0 - 0.8) / 1.2 * 0.8 * 0.8)) by lra.
  rewrite (Rmax_left 0 ((0 - 0.8) / 1.2 * 0.8 * 0.8)) by lra.
  replace (0 + (0 + (0 - 0) * 5.0 * l_dt L) * 0.3) with 0 by lra.
  rewrite (Rmin_right 0.8 0) by lra. rewrite (Rmax_left 0 0) by lra.
  replace (0 + (0 + ((0 - 0) * 8.0 - 0 * 8.0) * l_dt L) * l_dt L) with 0 by lra.
  rewrite (Rmin_right 0.8 0) by lra. apply Rmax_left. lra.
Qed.

Lemma atRest_crashes (dt time : R) (w : World) :
  atRest w -> updatePhysics dt time w = crashNow (preCrash dt time w).
Proof.
  intros H. pose proof (atRest_height dt time w H) as Hh.
  destruct H as (G & _).
  rewrite updatePhysics_riding by exact G.
  unfold crashCheck; cbv zeta. rewrite Hh.
  rewrite (proj2 (Rleb_true 0 0.001)) by lra. reflexivity.
Qed.

End CrashMore.

Section FreezeFacts.
Import Sim.

Lemma integrateStep_position (L : Locals) (s : FoilState) :
  position (integrateStep L s)
  = Vector3.addScaledVector (position s) (velocity (integrateStep L s)) (l_dt L).
Proof. reflexivity. Qed.

(** The position after a riding step: the position on entry moved by the
    velocity at the end of the step for the clamped step. *)
Lemma preCrash_position (dt time : R) (w : World) :
  position (foilState (preCrash dt time w))
  = Vector3.addScaledVector (position (foilState w))
      (velocity (foilState (preCrash dt time w))) (Rmin dt (1 / 30)).
Proof.
  rewrite preCrash_foilState.
  set (L := stepLocals dt time w).
  set (s := regenStep L (foilState (pumpStep time (prePump dt time w)))).
  destruct (rideHeightStep_keeps L (integrateStep L s)) as [V P]. rewrite V, P.
  rewrite integrateStep_position.
  subst s. rewrite regenStep_keeps.
  destruct (pumpStep_keeps time (prePump dt time w)) as (_ & _ & _ & Q & _).
  destruct (prePump_keeps dt time w) as (_ & _ & _ & _ & _ & Q' & _).
  rewrite Q, Q'. reflexivity.
Qed.

Lemma crashNow_position (w : World) :
  position (foilState (crashNow w)) = position (foilState w)
  /\ race (crashNow w) = race w.
Proof. split; reflexivity. Qed.

Lemma resting_is_at_rest : atRest restingWorld.
Proof. unfold atRest. repeat split. Qed.

Lemma resting_crash_distance (time : R) :
  downwindDist (updatePhysics 0 time restingWorld) = 0.
Proof.
  rewrite (atRest_crashes 0 time restingWorld resting_is_at_rest).
  unfold downwindDist.
  destruct (crashNow_position (preCrash 0 time restingWorld)) as [P _].
  rewrite P, preCrash_position.
  rewrite (Rmin_left 0 (1 / 30)) by lra.
  unfold Vector3.addScaledVector; cbn [Vector3.z].
  change (Vector3.z (position (foilState restingWorld))) with (-800).
  unfold RACE_START_Z; cbn [Vector3.z SPAWN_POINT].
  replace (-800 + _ * 0 - -800) with 0 by ring.
  apply Rmax_left. lra.
Qed.

End FreezeFacts.

(** X22.  While the lift exceeds the rider's weight ([liftRatio > 1] for
    the speed on entry) a riding step cannot crash: the ride height is
    clamped to at least 0.12, above both thresholds of the crash check, so
    the step ends riding, on the foil as before, at the state reached
    before the check. *)
Theorem lift_floor_prevents_crash (dt time : R) (w : Sim.World) :
  Sim.gameState w = Sim.Riding ->
  1 < Sim.liftRatioOf (Sim.stepLocals dt time w) ->
  let w' := Sim.updatePhysics dt time w in
  Sim.gameState w' = Sim.Riding
  /\ 0.12 <= Sim.rideHeight (Sim.foilState w') <= Sim.MAST_LENGTH
  /\ Sim.onFoil (Sim.foilState w') = Sim.onFoil (Sim.foilState w)
  /\ w' = Sim.preCrash dt time w.
Proof.
  intros G Hl w'. subst w'.
  destruct (lift_floor dt time w G Hl) as [E Hr].
  destruct (preCrash_keeps dt time w) as (Hg & _ & _ & Ho & _).
  rewrite E. split; [rewrite Hg; exact G |].
  split; [exact Hr |]. split; [exact Ho | reflexivity].
Qed.

Lemma lift_floor_prevents_crash_witness :
  Sim.gameState (Sim.updatePhysics (1 / 60) 0 launchedWorld) = Sim.Riding
  /\ 0.12 <= Sim.rideHeight (Sim.foilState (Sim.updatePhysics (1 / 60) 0 launchedWorld))
     <= Sim.MAST_LENGTH.
Proof.
  destruct (lift_floor_prevents_crash (1 / 60) 0 launchedWorld eq_refl
              (launched_lift_ratio (1 / 60) 0)) as (A & B & _).
  split; assumption.
Defined.

(** X23.  A rider in the riding state with no speed, ride height 0, no
    vertical speed, level pitch and no key held crashes in the next physics
    step, whatever the step and the waves: the step ends crashed, off the
    foil, at ride height 0. *)
Theorem rider_at_rest_crashes (dt time : R) (w : Sim.World) :
  atRest w ->
  let w' := Sim.updatePhysics dt time w in
  Sim.gameState w' = Sim.Crashed
  /\ Sim.onFoil (Sim.foilState w') = false
  /\ Sim.rideHeight (Sim.foilState w') = 0.
Proof.
  intros H w'. subst w'. rewrite (atRest_crashes dt time w H).
  destruct (crashNow_effect (Sim.preCrash dt time w)) as (A & B & C).
  split; [exact C |]. split; assumption.
Qed.

Lemma rider_at_rest_crashes_witness :
  Sim.gameState (Sim.updatePhysics (1 / 60) 3 restingWorld) = Sim.Crashed.
Proof.
  exact (proj1 (rider_at_rest_crashes (1 / 60) 3 restingWorld resting_is_at_rest)).
Defined.

(** X24.  A crash freezes the simulation.  When the physics step of a
    frame ends crashed, short of the finish line, with a race that was
    active and unfinished, the frame leaves the race abandoned (not active,
    not finished), and every later frame, whatever its step and clock,
    returns the state unchanged. *)
Theorem crash_freezes_simulation (dt time dt' time' : R) (w : Sim.World) :
  Sim.active (Sim.race w) = true ->
  Sim.finished (Sim.race w) = false ->
  Sim.gameState (Sim.updatePhysics dt time w) = Sim.Crashed ->
  Sim.downwindDist (Sim.updatePhysics dt time w) < IZR Sim.RACE_LENGTH_KM * 1000 ->
  let w1 := Sim.animate dt time w in
  Sim.gameState w1 = Sim.Crashed
  /\ Sim.active (Sim.race w1) = false
  /\ Sim.finished (Sim.race w1) = false
  /\ Sim.animate dt' time' w1 = w1.
Proof.
  intros A F G D w1.
  assert (E : w1 = Sim.updateRaceFor Sim.RACE_LENGTH_KM dt time
                     (Sim.updatePhysics dt time w)) by reflexivity.
  clearbody w1. subst w1.
  set (wp := Sim.updatePhysics dt time w) in *.
  assert (Rp : Sim.race wp = Sim.race w)
    by (subst wp; apply updatePhysics_surroundings).
  destruct (crashed_race_update Sim.RACE_LENGTH_KM dt time wp G) as [A1 F1];
    [rewrite Rp; exact A |].
  rewrite (proj2 (Rleb_false _ _) D), Rp, F in F1.
  destruct (updateRaceFor_keeps Sim.RACE_LENGTH_KM dt time wp) as (G1 & _).
  set (w1 := Sim.updateRaceFor Sim.RACE_LENGTH_KM dt time wp) in *.
  assert (G2 : Sim.gameState w1 = Sim.Crashed) by (rewrite G1; exact G).
  split; [exact G2 |]. split; [exact A1 |]. split; [exact F1 |].
  unfold Sim.animate, Sim.updateRace.
  rewrite updatePhysics_not_riding by (rewrite G2; discriminate).
  apply updateRaceFor_frozen; [exact A1 | right; rewrite G2; discriminate].
Qed.

Lemma crash_freezes_simulation_witness :
  Sim.animate (1 / 60) 12 (Sim.animate 0 11 restingWorld) = Sim.animate 0 11 restingWorld.
Proof.
  assert (G : Sim.gameState (Sim.updatePhysics 0 11 restingWorld) = Sim.Crashed).
  { rewrite (atRest_crashes 0 11 restingWorld resting_is_at_rest). reflexivity. }
  assert (D : Sim.downwindDist (Sim.updatePhysics 0 11 restingWorld)
              < IZR Sim.RACE_LENGTH_KM * 1000).
  { rewrite resting_crash_distance. unfold Sim.RACE_LENGTH_KM. lra. }
  exact (proj2 (proj2 (proj2
           (crash_freezes_simulation 0 11 (1 / 60) 12 restingWorld eq_refl eq_refl G D)))).
Defined.

(** ** Foam wake trail *)

Section TrailFacts.
Import Trail.

Lemma olderFirst_cons (l : list WakePoint) :
  forall p : WakePoint,
    olderFirst (p :: l) <-> Forall (fun q => age q <= age p) l /\ olderFirst l.
Proof.
  induction l as [| q l IH]; intros p.
  - simpl; split; [intros _; split; [constructor | exact I] | intros _; exact I].
  - change (olderFirst (p :: q :: l)) with (age q <= age p /\ olderFirst (q :: l)).
    split.
    + intros [Hqp Hl]. split; [| exact Hl].
      constructor; [exact Hqp |].
      apply IH in Hl. destruct Hl as [Hf _].
      eapply Forall_impl; [| exact Hf]. intros c Hc; simpl in Hc; lra.
    + intros [Hf Hl]. split; [| exact Hl]. inversion Hf; assumption.
Qed.

Lemma olderFirst_snoc (l : list WakePoint) (p : WakePoint) :
  olderFirst l -> Forall (fun q => age p <= age q) l -> olderFirst (l ++ [p]).
Proof.
  induction l as [| q l IH]; intros Ho Hf; simpl; [exact I |].
  apply olderFirst_cons in Ho. destruct Ho as [Hq Ho].
  inversion Hf as [| ? ? Hpq Hf']; subst.
  apply olderFirst_cons. split.
  - apply Forall_app. split; [exact Hq |]. constructor; [exact Hpq | constructor].
  - apply IH; assumption.
Qed.

Lemma agesOrdered_tl (l : list WakePoint) : agesOrdered l -> agesOrdered (tl l).
Proof.
  intros [Ho Hf]. destruct l as [| p l]; [split; assumption |].
  simpl. apply olderFirst_cons in Ho. inversion Hf; subst. split; tauto.
Qed.

Lemma agesOrdered_snoc (l : list WakePoint) (p : WakePoint) :
  agesOrdered l -> age p = 0 -> agesOrdered (l ++ [p]).
Proof.
  intros [Ho Hf] Hp. split.
  - apply olderFirst_snoc; [exact Ho |].
    eapply Forall_impl; [| exact Hf]. intros q Hq; simpl in Hq; lra.
  - apply Forall_app. split; [exact Hf |]. constructor; [lra | constructor].
Qed.

Lemma agesOrdered_aged (l : list WakePoint) (c : R) :
  0 <= c -> agesOrdered l ->
  agesOrdered (map (fun wp => set_age (age wp + c) wp) l).
Proof.
  intros Hc [Ho Hf]. split.
  - clear Hf. induction l as [| p l IH]; [exact I |].
    apply olderFirst_cons in Ho. destruct Ho as [Hp Ho].
    cbn [map]. apply olderFirst_cons. split; [| apply IH; exact Ho].
    apply Forall_forall. intros q Hq. apply in_map_iff in Hq.
    destruct Hq as (q0 & Eq & Hin). subst q. cbn.
    rewrite Forall_forall in Hp. specialize (Hp q0 Hin). lra.
  - apply Forall_forall. intros q Hq. apply in_map_iff in Hq.
    destruct Hq as (q0 & Eq & Hin). subst q. cbn.
    rewrite Forall_forall in Hf. specialize (Hf q0 Hin). lra.
Qed.

Lemma dropOld_suffix (l : list WakePoint) : exists pre, l = pre ++ dropOld l.
Proof.
  induction l as [| p l [pre E]]; [exists []; reflexivity |].
  simpl. destruct (Rleb WAKE_MAX_AGE (age p)).
  - exists (p :: pre). simpl. f_equal. exact E.
  - exists []. reflexivity.
Qed.

Lemma dropOld_length (l : list WakePoint) : (length (dropOld l) <= length l)%nat.
Proof.
  destruct (dropOld_suffix l) as [pre E].
  rewrite E at 2. rewrite length_app. lia.
Qed.

Lemma agesOrdered_dropOld (l : list WakePoint) :
  agesOrdered l ->
  agesOrdered (dropOld l) /\ Forall (fun p => age p < WAKE_MAX_AGE) (dropOld l).
Proof.
  induction l as [| p l IH]; intros H; [split; [exact H | constructor] |].
  simpl. destruct (Rleb WAKE_MAX_AGE (age p)) eqn:E.
  - apply IH. apply (agesOrdered_tl (p :: l) H).
  - split; [exact H |]. apply Rleb_false in E.
    destruct H as [Ho _]. apply olderFirst_cons in Ho. destruct Ho as [Hp _].
    constructor; [exact E |].
    eapply Forall_impl; [| exact Hp]. intros q Hq; simpl in Hq; lra.
Qed.

Lemma dropOld_all (l : list WakePoint) :
  Forall (fun p => WAKE_MAX_AGE <= age p) l -> dropOld l = [].
Proof.
  induction l as [| p l IH]; intros H; [reflexivity |].
  inversion H as [| ? ? Hp Hl]; subst. simpl.
  rewrite (proj2 (Rleb_true _ _) Hp). apply IH; exact Hl.
Qed.

Lemma capped_length (l : list WakePoint) (p : WakePoint) :
  (length l <= WAKE_MAX_POINTS)%nat ->
  (length (if (WAKE_MAX_POINTS <? length (l ++ [p]))%nat then tl (l ++ [p]) else l ++ [p])
   <= WAKE_MAX_POINTS)%nat.
Proof.
  intros H. destruct (WAKE_MAX_POINTS <? length (l ++ [p]))%nat eqn:E.
  - assert (L : length (l ++ [p]) = S (length l)) by (rewrite length_app; simpl; lia).
    destruct (l ++ [p]) as [| q t]; simpl in *; lia.
  - apply Nat.ltb_ge in E. exact E.
Qed.

(** What the emit block does to the list: nothing, or one point of age 0
    at the end, after which the first point goes if the list is over
    length. *)
Lemma emitWake_cases (time : R) (w : Sim.World) (k : WakeState) :
  emitWake time w k = k
  \/ exists p : WakePoint,
       age p = 0
       /\ Sim.gameState w = Sim.Riding
       /\ (match lastPoint (wakePoints k) with
           | None => True
           | Some last =>
               WAKE_MIN_SPACING_SQ
               <= (x p - x last) * (x p - x last) + (z p - z last) * (z p - z last)
           end)
       /\ wakePoints (emitWake time w k)
          = (if (WAKE_MAX_POINTS <? length (wakePoints k ++ [p]))%nat
             then tl (wakePoints k ++ [p]) else wakePoints k ++ [p]).
Proof.
  unfold emitWake; cbv zeta.
  destruct (Sim.gameState w) eqn:G; cbn [isRiding andb]; try (left; reflexivity).
  destruct (Sim.onFoil (Sim.foilState w)); cbn [andb]; [| left; reflexivity].
  destruct (Rltb 1.0 (Sim.speed (Sim.foilState w))); [| left; reflexivity].
  destruct (Rleb WAKE_EMIT_INTERVAL (time - lastWakeEmitTime k)); [| left; reflexivity].
  destruct (lastPoint (wakePoints k)) as [last |] eqn:E.
  - match goal with
    | |- context [if Rleb ?a ?b then _ else _] => destruct (Rleb a b) eqn:F
    end; [| left; reflexivity].
    right. eexists. split; [| split; [reflexivity | split; [| reflexivity]]].
    + reflexivity.
    + apply Rleb_true in F. exact F.
  - right. eexists. split; [| split; [reflexivity | split; [exact I | reflexivity]]].
    reflexivity.
Qed.

Lemma updateWake_points (dt time : R) (w : Sim.World) (k : WakeState) :
  wakePoints (updateWakeTrail dt time w k)
  = dropOld
      (map (fun wp =>
              set_age
                (age wp
                 + (if negb (isRiding (Sim.gameState w))
                       || negb (Sim.onFoil (Sim.foilState w))
                    then dt * 7.0 else dt)) wp)
         (wakePoints (emitWake time w k))).
Proof. reflexivity. Qed.

Lemma ageStep_nonneg (dt : R) (b : bool) : 0 <= dt -> 0 <= (if b then dt * 7.0 else dt).
Proof. intros H. destruct b; lra. Qed.

Lemma emitWake_ordered (time : R) (w : Sim.World) (k : WakeState) :
  agesOrdered (wakePoints k) -> agesOrdered (wakePoints (emitWake time w k)).
Proof.
  intros H. destruct (emitWake_cases time w k) as [E | (p & Hp & _ & _ & E)];
    rewrite E; [exact H |].
  destruct (WAKE_MAX_POINTS <? length (wakePoints k ++ [p]))%nat.
  - apply agesOrdered_tl, agesOrdered_snoc; assumption.
  - apply agesOrdered_snoc; assumption.
Qed.

End TrailFacts.

Section TrailSamples.
Import Trail.

Lemma lastPoint_snoc (l : list WakePoint) (p : WakePoint) :
  lastPoint (l ++ [p]) = Some p.
Proof.
  induction l as [| q l IH]; [reflexivity |].
  cbn [app lastPoint]. destruct (l ++ [p]) eqn:E; [| exact IH].
  destruct l; discriminate.
Qed.

(** When every test of the emit block passes, the point is pushed, the
    first point goes if the list is then over length, and the emit time is
    the clock. *)
Lemma emitWake_emits (time : R) (w : Sim.World) (k : WakeState) :
  Sim.gameState w = Sim.Riding ->
  Sim.onFoil (Sim.foilState w) = true ->
  1 < Sim.speed (Sim.foilState w) ->
  WAKE_EMIT_INTERVAL <= time - lastWakeEmitTime k ->
  (forall last : WakePoint,
      lastPoint (wakePoints k) = Some last ->
      WAKE_MIN_SPACING_SQ
      <= (x (emittedPoint w) - x last) * (x (emittedPoint w) - x last)
         + (z (emittedPoint w) - z last) * (z (emittedPoint w) - z last)) ->
  emitWake time w k
  = mkWake
      (if (WAKE_MAX_POINTS <? length (wakePoints k ++ [emittedPoint w]))%nat
       then tl (wakePoints k ++ [emittedPoint w])
       else wakePoints k ++ [emittedPoint w])
      time.
Proof.
  intros G F S T D. unfold emitWake; cbv zeta.
  rewrite G, F. cbn [isRiding andb].
  replace (Rltb 1.0 (Sim.speed (Sim.foilState w))) with true
    by (symmetry; apply Rltb_true; lra).
  replace (Rleb WAKE_EMIT_INTERVAL (time - lastWakeEmitTime k)) with true
    by (symmetry; apply Rleb_true; exact T).
  destruct (lastPoint (wakePoints k)) as [last |] eqn:E; [| reflexivity].
  specialize (D last eq_refl). apply Rleb_true in D.
  unfold emittedPoint in D; cbn [x z] in D. rewrite D. reflexivity.
Qed.

Lemma gliding_emitted_point :
  Sim.gameState glidingWorld = Sim.Riding
  /\ Sim.onFoil (Sim.foilState glidingWorld) = true
  /\ Sim.speed (Sim.foilState glidingWorld) = 6
  /\ x (emittedPoint glidingWorld) = 0
  /\ z (emittedPoint glidingWorld) = -800.6
  /\ age (emittedPoint glidingWorld) = 0.
Proof.
  split; [reflexivity |]. split; [reflexivity |]. split; [reflexivity |].
  unfold emittedPoint; cbv zeta; cbn [x z age].
  change (Sim.heading (Sim.foilState glidingWorld)) with 0.
  change (Sim.position (Sim.foilState glidingWorld)) with Sim.SPAWN_POINT.
  unfold Sim.headingToDir, Sim.SPAWN_POINT, WAKE_MAST_OFFSET.
  cbn [Vector3.x Vector3.z]. rewrite sin_0, cos_0.
  repeat split; lra.
Qed.

(** The launched rider at 6 m/s emits behind a trail that ends at
    z = -801. *)
Lemma gliding_emits (time last : R) (l : list WakePoint) (a : R) :
  WAKE_EMIT_INTERVAL <= time - last ->
  emitWake time glidingWorld (mkWake (l ++ [trailPoint (-801) a]) last)
  = mkWake
      (if (WAKE_MAX_POINTS
           <? length ((l ++ [trailPoint (-801) a]) ++ [emittedPoint glidingWorld]))%nat
       then tl ((l ++ [trailPoint (-801) a]) ++ [emittedPoint glidingWorld])
       else (l ++ [trailPoint (-801) a]) ++ [emittedPoint glidingWorld])
      time.
Proof.
  intros T.
  destruct gliding_emitted_point as (G & F & S & X & Z & _).
  apply (emitWake_emits time glidingWorld
           (mkWake (l ++ [trailPoint (-801) a]) last)); auto.
  - rewrite S; lra.
  - cbn [wakePoints]. rewrite lastPoint_snoc. intros p E.
    injection E as <-. rewrite X, Z. unfold WAKE_MIN_SPACING_SQ, trailPoint.
    cbn [x z]. lra.
Qed.

Lemma dropOld_young (p : WakePoint) (t : list WakePoint) :
  age p < WAKE_MAX_AGE -> dropOld (p :: t) = p :: t.
Proof.
  intros H. cbn [dropOld].
  replace (Rleb WAKE_MAX_AGE (age p)) with false
    by (symmetry; apply Rleb_false; exact H).
  reflexivity.
Qed.

Lemma dropOld_expired (p : WakePoint) (t : list WakePoint) :
  WAKE_MAX_AGE <= age p -> dropOld (p :: t) = dropOld t.
Proof.
  intros H. cbn [dropOld].
  replace (Rleb WAKE_MAX_AGE (age p)) with true
    by (symmetry; apply Rleb_true; exact H).
  reflexivity.
Qed.

(** An update of the trail of the launched rider at 6 m/s, 0.5 s after
    the last emission. *)
Lemma gliding_update (dt : R) (l : list WakePoint) (a : R) :
  wakePoints
    (updateWakeTrail dt 1 glidingWorld (mkWake (l ++ [trailPoint (-801) a]) 0.5))
  = dropOld
      (map (fun wp => set_age (age wp + dt) wp)
         (if (WAKE_MAX_POINTS
              <? length ((l ++ [trailPoint (-801) a])
                         ++ [emittedPoint glidingWorld]))%nat
          then tl ((l ++ [trailPoint (-801) a]) ++ [emittedPoint glidingWorld])
          else (l ++ [trailPoint (-801) a]) ++ [emittedPoint glidingWorld]))
  /\ lastWakeEmitTime
       (updateWakeTrail dt 1 glidingWorld
          (mkWake (l ++ [trailPoint (-801) a]) 0.5))
     = 1.
Proof.
  unfold updateWakeTrail.
  rewrite gliding_emits by (unfold WAKE_EMIT_INTERVAL; lra).
  split; reflexivity.
Qed.

End TrailSamples.

(** At the full trail the update pushes the new point and drops the first:
    200 points are left, the last of them the new one. *)
Lemma sample_full_trail_update :
  let k' :=
    Trail.updateWakeTrail (1 / 60) 1 glidingWorld (Trail.mkWake fullTrail 0.5) in
  length fullTrail = 200%nat
  /\ length (Trail.wakePoints k') = 200%nat
  /\ Trail.lastWakeEmitTime k' = 1
  /\ option_map Trail.z (Trail.lastPoint (Trail.wakePoints k')) = Some (-800.6).
Proof.
  intros k'. subst k'. unfold fullTrail.
  destruct (gliding_update (1 / 60) (repeat (trailPoint (-802) 1) 199) 0.5)
    as [E T].
  rewrite E, T. clear E T.
  split; [rewrite length_app, repeat_length; reflexivity |].
  replace (Trail.WAKE_MAX_POINTS <? _)%nat with true
    by (rewrite !length_app, repeat_length; reflexivity).
  change (repeat (trailPoint (-802) 1) 199)
    with (trailPoint (-802) 1 :: trailPoint (-802) 1
          :: repeat (trailPoint (-802) 1) 197).
  cbn [app tl map].
  rewrite dropOld_young
    by (unfold Trail.WAKE_MAX_AGE, trailPoint; cbn [Trail.age Trail.set_age]; lra).
  split.
  { cbn [length]. rewrite length_map, !length_app, repeat_length. reflexivity. }
  split; [reflexivity |].
  rewrite !map_app. cbn [map].
  rewrite app_comm_cons, lastPoint_snoc.
  cbn [option_map Trail.z Trail.set_age]. f_equal.
  apply gliding_emitted_point.
Qed.

(** At the aged trail the update pushes the new point and drops the
    expired first one; the ages that are left are in order. *)
Lemma sample_aged_trail_update :
  map Trail.age
    (Trail.wakePoints
       (Trail.updateWakeTrail (1 / 60) 1 glidingWorld (Trail.mkWake agedTrail 0.5)))
  = [2 + 1 / 60; 0.5 + 1 / 60; 0 + 1 / 60].
Proof.
  change agedTrail
    with ([trailPoint (-803) 3.49; trailPoint (-802) 2] ++ [trailPoint (-801) 0.5]).
  rewrite (proj1 (gliding_update (1 / 60) _ 0.5)).
  replace (Trail.WAKE_MAX_POINTS <? _)%nat with false by reflexivity.
  cbn [app map].
  rewrite dropOld_expired
    by (unfold Trail.WAKE_MAX_AGE, trailPoint; cbn [Trail.age Trail.set_age]; lra).
  rewrite dropOld_young
    by (unfold Trail.WAKE_MAX_AGE, trailPoint; cbn [Trail.age Trail.set_age]; lra).
  reflexivity.
Qed.

(** At the short trail the update pushes the new point 0.4 m from the
    last one. *)
Lemma sample_short_trail_update :
  map Trail.z
    (Trail.wakePoints
       (Trail.updateWakeTrail (1 / 60) 1 glidingWorld (Trail.mkWake shortTrail 0.5)))
  = [-802; -801; -800.6].
Proof.
  change shortTrail with ([trailPoint (-802) 2] ++ [trailPoint (-801) 0.5]).
  rewrite (proj1 (gliding_update (1 / 60) _ 0.5)).
  replace (Trail.WAKE_MAX_POINTS <? _)%nat with false by reflexivity.
  cbn [app map].
  rewrite dropOld_young
    by (unfold Trail.WAKE_MAX_AGE, trailPoint; cbn [Trail.age Trail.set_age]; lra).
  cbn [map Trail.z Trail.set_age trailPoint].
  repeat f_equal. apply gliding_emitted_point.
Qed.

(** X25.  The wake trail never holds more than 200 points: an update of a
    list of at most 200 points leaves at most 200. *)
Theorem wake_trail_capped (dt time : R) (w : Sim.World) (k : Trail.WakeState) :
  (length (Trail.wakePoints k) <= Trail.WAKE_MAX_POINTS)%nat ->
  (length (Trail.wakePoints (Trail.updateWakeTrail dt time w k))
   <= Trail.WAKE_MAX_POINTS)%nat.
Proof.
  intros H. rewrite updateWake_points.
  eapply Nat.le_trans; [apply dropOld_length |].
  rewrite length_map.
  destruct (emitWake_cases time w k) as [E | (p & _ & _ & _ & E)]; rewrite E;
    [exact H | apply capped_length; exact H].
Qed.

Lemma wake_trail_capped_witness :
  (length fullTrail <= Trail.WAKE_MAX_POINTS)%nat
  /\ (length
        (Trail.wakePoints
           (Trail.updateWakeTrail (1 / 60) 1 glidingWorld
              (Trail.mkWake fullTrail 0.5)))
      <= Trail.WAKE_MAX_POINTS)%nat.
Proof.
  assert (H : (length fullTrail <= Trail.WAKE_MAX_POINTS)%nat).
  { unfold fullTrail, Trail.WAKE_MAX_POINTS.
    rewrite length_app, repeat_length. simpl. lia. }
  split; [exact H |].
  exact (wake_trail_capped (1 / 60) 1 glidingWorld (Trail.mkWake fullTrail 0.5) H).
Defined.

(** X26.  With a step that is not negative, a wake list whose points are
    ordered oldest first with no negative age stays so through an update,
    and after the update every point is younger than the maximum age of
    3.5 s: testing only the head of the list is enough to drop every old
    point. *)
Theorem wake_points_stay_young (dt time : R) (w : Sim.World) (k : Trail.WakeState) :
  0 <= dt ->
  Trail.agesOrdered (Trail.wakePoints k) ->
  let k' := Trail.updateWakeTrail dt time w k in
  Trail.agesOrdered (Trail.wakePoints k')
  /\ Forall (fun p => Trail.age p < Trail.WAKE_MAX_AGE) (Trail.wakePoints k').
Proof.
  intros Hdt H k'. subst k'. rewrite updateWake_points.
  apply agesOrdered_dropOld. apply agesOrdered_aged.
  - apply ageStep_nonneg; exact Hdt.
  - apply emitWake_ordered; exact H.
Qed.

Lemma wake_points_stay_young_witness :
  Trail.agesOrdered agedTrail
  /\ Trail.agesOrdered
       (Trail.wakePoints
          (Trail.updateWakeTrail (1 / 60) 1 glidingWorld
             (Trail.mkWake agedTrail 0.5)))
  /\ Forall (fun p => Trail.age p < Trail.WAKE_MAX_AGE)
       (Trail.wakePoints
          (Trail.updateWakeTrail (1 / 60) 1 glidingWorld
             (Trail.mkWake agedTrail 0.5))).
Proof.
  assert (Hd : 0 <= 1 / 60) by lra.
  assert (H : Trail.agesOrdered agedTrail).
  { split.
    - simpl. lra.
    - repeat constructor; simpl; lra. }
  split; [exact H |].
  exact (wake_points_stay_young (1 / 60) 1 glidingWorld
           (Trail.mkWake agedTrail 0.5) Hd H).
Defined.

(** X27.  When the rider is not riding, no wake point is emitted and the
    trail ages seven times as fast: one update with a step of at least
    half a second clears a trail that has no negative age. *)
Theorem wake_fades_after_crash (dt time : R) (w : Sim.World) (k : Trail.WakeState) :
  Sim.gameState w <> Sim.Riding ->
  0.5 <= dt ->
  Forall (fun p => 0 <= Trail.age p) (Trail.wakePoints k) ->
  Trail.emitWake time w k = k
  /\ Trail.wakePoints (Trail.updateWakeTrail dt time w k) = [].
Proof.
  intros G Hdt H.
  assert (E : Trail.emitWake time w k = k).
  { destruct (emitWake_cases time w k) as [E | (p & _ & R & _)];
      [exact E | contradiction]. }
  split; [exact E |].
  rewrite updateWake_points, E.
  assert (N : Trail.isRiding (Sim.gameState w) = false)
    by (destruct (Sim.gameState w); [reflexivity | contradiction G; reflexivity | reflexivity]).
  rewrite N. cbn [negb orb].
  apply dropOld_all. apply Forall_forall. intros q Hq.
  apply in_map_iff in Hq. destruct Hq as (q0 & Eq & Hin). subst q. cbn.
  rewrite Forall_forall in H. specialize (H q0 Hin).
  unfold Trail.WAKE_MAX_AGE. lra.
Qed.

Lemma wake_fades_after_crash_witness :
  Trail.wakePoints
    (Trail.updateWakeTrail 0.5 1 crashedWorld
       (Trail.mkWake [Trail.mkWakePoint 0 (-801) 1 0 0.2 1] 0.5)) = [].
Proof.
  apply wake_fades_after_crash.
  - discriminate.
  - lra.
  - constructor; [simpl; lra | constructor].
Defined.

Section SpacingFacts.
Import Trail.

Lemma wellSpaced_tl (l : list WakePoint) : wellSpaced l -> wellSpaced (tl l).
Proof.
  destruct l as [| p [| q l]]; simpl; try tauto.
Qed.

Lemma wellSpaced_snoc (l : list WakePoint) (p : WakePoint) :
  wellSpaced l ->
  match lastPoint l with
  | None => True
  | Some last =>
      WAKE_MIN_SPACING_SQ
      <= (x p - x last) * (x p - x last) + (z p - z last) * (z p - z last)
  end ->
  wellSpaced (l ++ [p]).
Proof.
  induction l as [| a l IH]; intros Hw Hl; [exact I |].
  destruct l as [| b l].
  - simpl in *. split; [exact Hl | exact I].
  - change (wellSpaced ((a :: b :: l) ++ [p]))
      with (WAKE_MIN_SPACING_SQ
            <= (x b - x a) * (x b - x a) + (z b - z a) * (z b - z a)
            /\ wellSpaced ((b :: l) ++ [p])).
    destruct Hw as [Hab Hw]. split; [exact Hab |].
    apply IH; [exact Hw | exact Hl].
Qed.

Lemma wellSpaced_aged (l : list WakePoint) (f : WakePoint -> R) :
  wellSpaced l -> wellSpaced (map (fun wp => set_age (f wp) wp) l).
Proof.
  induction l as [| a l IH]; intros H; [exact I |].
  destruct l as [| b l]; [exact I |].
  destruct H as [Hab H]. cbn [map]. split; [exact Hab |].
  apply IH. exact H.
Qed.

Lemma wellSpaced_suffix (pre l : list WakePoint) :
  wellSpaced (pre ++ l) -> wellSpaced l.
Proof.
  induction pre as [| a pre IH]; intros H; [exact H |].
  apply IH. apply (wellSpaced_tl ((a :: pre) ++ l) H).
Qed.

End SpacingFacts.

(** X28.  Neighbours in the wake list are never closer than the minimum
    spacing of 0.15 m: an update keeps a well spaced list well spaced,
    because a point is only added when it is that far from the last one. *)
Theorem wake_points_well_spaced (dt time : R) (w : Sim.World) (k : Trail.WakeState) :
  Trail.wellSpaced (Trail.wakePoints k) ->
  Trail.wellSpaced (Trail.wakePoints (Trail.updateWakeTrail dt time w k)).
Proof.
  intros H. rewrite updateWake_points.
  set (l := map _ _).
  destruct (dropOld_suffix l) as [pre E].
  apply (wellSpaced_suffix pre). rewrite <- E. subst l.
  apply (wellSpaced_aged _ (fun wp => Trail.age wp + _)).
  destruct (emitWake_cases time w k) as [Ek | (p & _ & _ & Hs & Ek)]; rewrite Ek;
    [exact H |].
  destruct (Trail.WAKE_MAX_POINTS <? length (Trail.wakePoints k ++ [p]))%nat.
  - apply wellSpaced_tl, wellSpaced_snoc; assumption.
  - apply wellSpaced_snoc; assumption.
Qed.

Lemma wake_points_well_spaced_witness :
  Trail.wellSpaced shortTrail
  /\ Trail.wellSpaced
       (Trail.wakePoints
          (Trail.updateWakeTrail (1 / 60) 1 glidingWorld
             (Trail.mkWake shortTrail 0.5))).
Proof.
  assert (H : Trail.wellSpaced shortTrail).
  { simpl. unfold Trail.WAKE_MIN_SPACING_SQ. split; [lra | exact I]. }
  split; [exact H |].
  exact (wake_points_well_spaced (1 / 60) 1 glidingWorld
           (Trail.mkWake shortTrail 0.5) H).
Defined.

(** ** High scores *)

Section ScoreFacts.
Import Scores.
Context {A : Type} (key : A -> R).

Lemma sortedBy_cons (a : A) (l : list A) :
  sortedBy key (a :: l) <-> Forall (fun b => key a <= key b) l /\ sortedBy key l.
Proof.
  unfold Scores.sortedBy. cbn [map]. rewrite nondecreasing_cons, Forall_map. reflexivity.
Qed.

Lemma insertBy_In (e x : A) (l : list A) :
  In x (insertBy key e l) <-> x = e \/ In x l.
Proof.
  induction l as [| y l IH]; simpl.
  - split; [intros [H | []]; left; symmetry; exact H | intros [H | []]; left; symmetry; exact H].
  - destruct (Rleb (key e) (key y)); simpl.
    + split; [intros [H | H]; [left; symmetry; exact H | right; exact H]
             | intros [H | H]; [left; symmetry; exact H | right; exact H]].
    + rewrite IH. tauto.
Qed.

Lemma insertBy_sorted (e : A) (l : list A) :
  sortedBy key l -> sortedBy key (insertBy key e l).
Proof.
  induction l as [| y l IH]; intros H; simpl.
  - apply sortedBy_cons. split; [constructor | exact I].
  - destruct (Rleb (key e) (key y)) eqn:E.
    + apply Rleb_true in E. apply sortedBy_cons. split; [| exact H].
      apply sortedBy_cons in H. destruct H as [Hf _].
      constructor; [exact E |].
      eapply Forall_impl; [| exact Hf]. intros b Hb; simpl in Hb; lra.
    + apply Rleb_false in E. apply sortedBy_cons in H. destruct H as [Hf Hs].
      apply sortedBy_cons. split; [| apply IH; exact Hs].
      apply Forall_forall. intros b Hb. apply insertBy_In in Hb.
      destruct Hb as [Hb | Hb]; [subst b; lra |].
      rewrite Forall_forall in Hf. apply Hf; exact Hb.
Qed.

Lemma sortBy_sorted (l : list A) : sortedBy key (sortBy key l).
Proof.
  induction l as [| a l IH]; [exact I |]. apply insertBy_sorted. exact IH.
Qed.

Lemma sortBy_In (x : A) (l : list A) : In x (sortBy key l) <-> In x l.
Proof.
  induction l as [| a l IH]; [reflexivity |].
  cbn [sortBy fold_right]. fold (sortBy key l).
  rewrite insertBy_In, IH. simpl. split; intros [H | H]; auto.
Qed.

Lemma insertBy_first (e : A) (l : list A) :
  Forall (fun b => key e <= key b) l -> insertBy key e l = e :: l.
Proof.
  intros H. destruct l as [| y l]; [reflexivity |].
  inversion H; subst. simpl.
  rewrite (proj2 (Rleb_true _ _)) by assumption. reflexivity.
Qed.

Lemma sortBy_sorted_id (l : list A) : sortedBy key l -> sortBy key l = l.
Proof.
  induction l as [| a l IH]; intros H; [reflexivity |].
  apply sortedBy_cons in H. destruct H as [Hf Hs].
  cbn [sortBy fold_right]. fold (sortBy key l).
  rewrite (IH Hs). apply insertBy_first. exact Hf.
Qed.

Lemma sortedBy_prefix (l1 l2 : list A) : sortedBy key (l1 ++ l2) -> sortedBy key l1.
Proof.
  induction l1 as [| a l1 IH]; intros H; [exact I |].
  cbn [app] in H. apply sortedBy_cons in H. destruct H as [Hf Hs].
  apply sortedBy_cons. split; [| apply IH; exact Hs].
  apply Forall_app in Hf. tauto.
Qed.

Lemma sortedBy_firstn (n : nat) (l : list A) : sortedBy key l -> sortedBy key (firstn n l).
Proof.
  intros H. apply (sortedBy_prefix (firstn n l) (skipn n l)).
  rewrite firstn_skipn. exact H.
Qed.

(** Sorting a sorted list with one more element at its end: the element
    goes after those that are not larger. *)
Lemma sortBy_snoc (x : A) (l : list A) :
  sortedBy key l ->
  sortBy key (l ++ [x])
  = filter (fun e => Rleb (key e) (key x)) l
    ++ x :: filter (fun e => negb (Rleb (key e) (key x))) l.
Proof.
  induction l as [| a l IH]; intros H; [reflexivity |].
  apply sortedBy_cons in H. destruct H as [Hf Hs].
  cbn [app sortBy fold_right]. fold (sortBy key (l ++ [x])).
  rewrite (IH Hs). cbn [filter].
  destruct (Rleb (key a) (key x)) eqn:E; cbn [negb].
  - apply Rleb_true in E. apply insertBy_first.
    apply Forall_app. split.
    + apply Forall_forall. intros b Hb. apply filter_In in Hb.
      rewrite Forall_forall in Hf. apply Hf. tauto.
    + constructor; [exact E |].
      apply Forall_forall. intros b Hb. apply filter_In in Hb.
      rewrite Forall_forall in Hf. apply Hf. tauto.
  - apply Rleb_false in E.
    assert (N : filter (fun e => Rleb (key e) (key x)) l = []).
    { clear IH Hs. induction l as [| b l IHl]; [reflexivity |].
      inversion Hf; subst. cbn [filter].
      rewrite (proj2 (Rleb_false (key b) (key x))) by lra. apply IHl; assumption. }
    assert (M : filter (fun e => negb (Rleb (key e) (key x))) l = l).
    { clear IH Hs N. induction l as [| b l IHl]; [reflexivity |].
      inversion Hf; subst. cbn [filter].
      rewrite (proj2 (Rleb_false (key b) (key x))) by lra. cbn [negb].
      f_equal. apply IHl; assumption. }
    rewrite N, M. cbn [app insertBy].
    rewrite (proj2 (Rleb_false (key a) (key x))) by lra.
    f_equal. apply insertBy_first. exact Hf.
Qed.

End ScoreFacts.

Section ScoreTable.
Import Scores.

Lemma loadHighScores_cases (km : Z) (st : Storage) :
  loadHighScores km st = []
  \/ exists l : list Stored,
       st km = Some (Arr l) /\ existsb isNull l = false
       /\ loadHighScores km st
          = firstn HIGH_SCORE_MAX (sortBy time (validEntries l)).
Proof.
  unfold loadHighScores.
  destruct (st km) as [[| | l] |]; try (left; reflexivity).
  destruct (existsb isNull l) eqn:E; [left; reflexivity |].
  right. exists l. repeat split. exact E.
Qed.

Lemma load_sorted (km : Z) (st : Storage) :
  sortedBy time (loadHighScores km st).
Proof.
  destruct (loadHighScores_cases km st) as [E | (l & _ & _ & E)]; rewrite E;
    [exact I |].
  apply sortedBy_firstn, sortBy_sorted.
Qed.

Lemma load_length (km : Z) (st : Storage) :
  (length (loadHighScores km st) <= HIGH_SCORE_MAX)%nat.
Proof.
  destruct (loadHighScores_cases km st) as [E | (l & _ & _ & E)]; rewrite E;
    [simpl; lia | apply firstn_le_length].
Qed.

Lemma validEntries_In (e : HighScoreEntry) (l : list Stored) :
  In e (validEntries l) <-> In (SEntry e) l.
Proof.
  unfold validEntries. rewrite in_flat_map. split.
  - intros (s & Hs & He).
    destruct s as [| | e']; simpl in He; try contradiction.
    destruct He as [He | []]. subst e'. exact Hs.
  - intros H. exists (SEntry e). split; [exact H | left; reflexivity].
Qed.

Lemma validEntries_written (l : list HighScoreEntry) :
  validEntries (map SEntry l) = l /\ existsb isNull (map SEntry l) = false.
Proof.
  induction l as [| e l [IH1 IH2]]; [split; reflexivity |].
  cbn. unfold validEntries in IH1. rewrite IH1, IH2. split; reflexivity.
Qed.

Lemma load_written (km : Z) (l : list HighScoreEntry) (st : Storage) :
  sortedBy time l -> (length l <= HIGH_SCORE_MAX)%nat ->
  loadHighScores km (setItem km (Arr (map SEntry l)) st) = l.
Proof.
  intros Hs Hl. unfold loadHighScores, setItem. rewrite Z.eqb_refl.
  destruct (validEntries_written l) as [V N]. rewrite N, V.
  rewrite (sortBy_sorted_id time l Hs). apply firstn_all2. exact Hl.
Qed.

Lemma findIndex_marked {A : Type} (f : A -> bool) (l1 l2 : list A) (x : A) :
  Forall (fun a => f a = false) l1 -> f x = true ->
  findIndex f (l1 ++ x :: l2) = Z.of_nat (length l1).
Proof.
  intros H Hx. induction l1 as [| a l1 IH]; simpl.
  - rewrite Hx. reflexivity.
  - inversion H as [| ? ? Ha Hl]; subst. rewrite Ha, (IH Hl).
    destruct (Z.of_nat (length l1) <? 0)%Z eqn:E;
      [apply Z.ltb_lt in E; lia | lia].
Qed.

Lemma filter_tagged (g : HighScoreEntry -> bool) (l : list HighScoreEntry) :
  filter (fun p : HighScoreEntry * bool => g (fst p))
    (map (fun e => (e, false)) l)
  = map (fun e => (e, false)) (filter g l).
Proof.
  induction l as [| e l IH]; [reflexivity |].
  cbn. destruct (g e); cbn; rewrite IH; reflexivity.
Qed.

Lemma map_fst_tagged (l : list HighScoreEntry) :
  map fst (map (fun e : HighScoreEntry => (e, false)) l) = l.
Proof.
  induction l as [| e l IH]; [reflexivity |]. cbn. rewrite IH. reflexivity.
Qed.

(** The list [saveHighScore] sorts, once sorted: the loaded entries at or
    before the new time, the new entry, the loaded entries after it. *)
Lemma saved_order (t : R) (now : string) (scores : list HighScoreEntry) :
  sortedBy time scores ->
  sortBy (fun p : HighScoreEntry * bool => time (fst p))
    (map (fun e => (e, false)) scores ++ [(mkEntry t now, true)])
  = map (fun e => (e, false)) (notAfter t scores)
    ++ (mkEntry t now, true) :: map (fun e => (e, false)) (after t scores).
Proof.
  intros H.
  rewrite sortBy_snoc.
  - cbn [fst time]. unfold notAfter, after.
    rewrite <- !filter_tagged. reflexivity.
  - unfold sortedBy. rewrite map_map. cbn [fst]. exact H.
Qed.

Lemma saveHighScore_fields (km : Z) (t : R) (now : string) (quotaOk : bool)
    (st : Storage) :
  let scores := loadHighScores km st in
  let table :=
    firstn HIGH_SCORE_MAX
      (notAfter t scores ++ mkEntry t now :: after t scores) in
  saveHighScore km t now quotaOk st
  = ((Z.of_nat (length (notAfter t scores)) + 1)%Z,
     (Z.of_nat (length (notAfter t scores)) + 1 <=? Z.of_nat HIGH_SCORE_MAX)%Z,
     if quotaOk then setItem km (Arr (map SEntry table)) st else st).
Proof.
  intros scores table. unfold saveHighScore; cbv zeta. fold scores.
  rewrite (saved_order t now scores (load_sorted km st)).
  rewrite findIndex_marked, length_map;
    [| apply Forall_forall; intros p Hp; apply in_map_iff in Hp;
       destruct Hp as (e & E & _); subst p; reflexivity
     | reflexivity].
  rewrite map_app. cbn [map fst]. rewrite !map_fst_tagged.
  reflexivity.
Qed.

Lemma filter_length_le {A : Type} (g : A -> bool) (l : list A) :
  (length (filter g l) <= length l)%nat.
Proof.
  induction l as [| a l IH]; [simpl; lia |].
  cbn. destruct (g a); simpl; lia.
Qed.

Lemma filter_full {A : Type} (g : A -> bool) (l : list A) :
  length (filter g l) = length l -> filter g l = l.
Proof.
  induction l as [| a l IH]; intros H; [reflexivity |].
  cbn in *. destruct (g a).
  - simpl in H. f_equal. apply IH. lia.
  - pose proof (filter_length_le g l). lia.
Qed.

Lemma table_sorted (t : R) (now : string) (scores : list HighScoreEntry) :
  sortedBy time scores ->
  sortedBy time (notAfter t scores ++ mkEntry t now :: after t scores).
Proof.
  intros H.
  pose proof (sortBy_sorted (fun p : HighScoreEntry * bool => time (fst p))
                (map (fun e => (e, false)) scores
                 ++ [(mkEntry t now, true)])) as S.
  rewrite (saved_order t now scores H) in S.
  unfold sortedBy in *. rewrite map_app in S. cbn [map fst] in S.
  rewrite !map_map in S. cbn [fst] in S.
  rewrite map_app. exact S.
Qed.

Lemma firstn_In_list {A : Type} (n : nat) (l : list A) (x : A) :
  In x (firstn n l) -> In x l.
Proof.
  intros H. rewrite <- (firstn_skipn n l). apply in_or_app. left. exact H.
Qed.

Lemma filter_rest_empty {A : Type} (g : A -> bool) (l : list A) :
  filter g l = l -> filter (fun a => negb (g a)) l = [].
Proof.
  induction l as [| a l IH]; intros H; [reflexivity |].
  cbn in *. destruct (g a) eqn:E; cbn.
  - apply IH. congruence.
  - pose proof (filter_length_le g l) as L. rewrite H in L. simpl in L. lia.
Qed.

Lemma firstn_exact {A : Type} (l r : list A) :
  firstn (length l) (l ++ r) = l.
Proof.
  induction l as [| a l IH]; [destruct r; reflexivity |].
  cbn. rewrite IH. reflexivity.
Qed.

(** A time that does not make the table leaves the table as it was. *)
Lemma table_unchanged (t : R) (now : string) (scores : list HighScoreEntry) :
  (length scores <= HIGH_SCORE_MAX)%nat ->
  (HIGH_SCORE_MAX <= length (notAfter t scores))%nat ->
  firstn HIGH_SCORE_MAX (notAfter t scores ++ mkEntry t now :: after t scores)
  = scores.
Proof.
  intros L G.
  pose proof (filter_length_le (fun e => Rleb (time e) t) scores) as F.
  assert (E : notAfter t scores = scores)
    by (unfold notAfter in *; apply filter_full; lia).
  unfold after.
  rewrite (filter_rest_empty (fun e => Rleb (time e) t) scores E), E.
  replace HIGH_SCORE_MAX with (length scores) by (rewrite E in G; lia).
  apply firstn_exact.
Qed.

(** A time that makes the table stands in it at the place before its rank. *)
Lemma table_place (t : R) (now : string) (scores : list HighScoreEntry) :
  (length (notAfter t scores) < HIGH_SCORE_MAX)%nat ->
  nth_error
    (firstn HIGH_SCORE_MAX
       (notAfter t scores ++ mkEntry t now :: after t scores))
    (length (notAfter t scores))
  = Some (mkEntry t now).
Proof.
  intros L. rewrite nth_error_firstn.
  destruct (Nat.ltb_spec (length (notAfter t scores)) HIGH_SCORE_MAX)
    as [_ | G];
    [| lia].
  rewrite nth_error_app2, Nat.sub_diag by lia. reflexivity.
Qed.

Lemma notAfter_length (t : R) (km : Z) (st : Storage) :
  (length (notAfter t (loadHighScores km st)) <= HIGH_SCORE_MAX)%nat.
Proof.
  pose proof (filter_length_le (fun e => Rleb (time e) t)
                (loadHighScores km st)).
  pose proof (load_length km st). unfold notAfter. lia.
Qed.

Lemma saved_table_loads (km : Z) (t : R) (now : string) (st : Storage) :
  let table :=
    firstn HIGH_SCORE_MAX
      (notAfter t (loadHighScores km st)
       ++ mkEntry t now :: after t (loadHighScores km st)) in
  loadHighScores km (setItem km (Arr (map SEntry table)) st) = table.
Proof.
  intros table. apply load_written.
  - apply sortedBy_firstn, table_sorted, load_sorted.
  - apply firstn_le_length.
Qed.

End ScoreTable.

(** X29.  [loadHighScores] always returns at most 3 entries in
    non-decreasing order of time, each of them an entry of the stored
    array; it returns the empty list when the key is missing, when the
    text does not parse, when the value is not an array and when the array
    holds a [null]. *)
Theorem high_scores_load_best_three (km : Z) (st : Scores.Storage) :
  Scores.sortedBy Scores.time (Scores.loadHighScores km st)
  /\ (length (Scores.loadHighScores km st) <= 3)%nat
  /\ (forall e : Scores.HighScoreEntry,
        In e (Scores.loadHighScores km st) ->
        exists l, st km = Some (Scores.Arr l) /\ In (Scores.SEntry e) l)
  /\ (st km = None \/ st km = Some Scores.Garbage
      \/ st km = Some Scores.NotArray
      \/ (exists l, st km = Some (Scores.Arr l) /\ In Scores.SNull l) ->
      Scores.loadHighScores km st = []).
Proof.
  split; [apply load_sorted |]. split; [apply load_length |]. split.
  - intros e He.
    destruct (loadHighScores_cases km st) as [E | (l & Hl & _ & E)];
      rewrite E in He; [contradiction |].
    exists l. split; [exact Hl |].
    apply validEntries_In. apply (sortBy_In Scores.time).
    exact (firstn_In_list _ _ _ He).
  - intros [H | [H | [H | (l & H & Hn)]]];
      unfold Scores.loadHighScores; rewrite H;
      try reflexivity.
    assert (E : existsb Scores.isNull l = true).
    { apply existsb_exists. exists Scores.SNull.
      split; [exact Hn | reflexivity]. }
    rewrite E. reflexivity.
Qed.

(** X30.  [saveHighScore] ranks the new time one place after the loaded
    entries that are not slower than it: a time equal to an entry of the
    table goes behind it.  The rank is between 1 and 4, and [isNew] holds
    exactly when it is at most 3.  When [setItem] succeeds, the table that
    [showRaceResults] loads next is the loaded table with the new entry at
    its place, cut to 3 entries: it is unchanged when the time did not make
    the table, and otherwise holds the new entry at index [rank - 1].  No
    other key of the store is touched, and a failing [setItem] leaves the
    store as it was. *)
Theorem high_score_save_rank_and_table (km : Z) (t : R) (now : string)
    (quotaOk : bool) (st : Scores.Storage) :
  let scores := Scores.loadHighScores km st in
  let r := Scores.saveHighScore km t now quotaOk st in
  let rank := fst (fst r) in
  let isNew := snd (fst r) in
  let st' := snd r in
  rank = (Z.of_nat (length (Scores.notAfter t scores)) + 1)%Z
  /\ (1 <= rank <= 4)%Z
  /\ (isNew = true <-> (rank <= 3)%Z)
  /\ (quotaOk = true ->
      Scores.loadHighScores km st'
      = firstn 3 (Scores.notAfter t scores
                  ++ Scores.mkEntry t now :: Scores.after t scores))
  /\ (quotaOk = true -> isNew = true ->
      nth_error (Scores.loadHighScores km st') (Z.to_nat (rank - 1))
      = Some (Scores.mkEntry t now))
  /\ (isNew = false -> Scores.loadHighScores km st' = scores)
  /\ (forall k : Z, k <> km -> st' k = st k)
  /\ (quotaOk = false -> st' = st).
Proof.
  intros scores r rank isNew st'.
  pose proof (saveHighScore_fields km t now quotaOk st) as E.
  pose proof (saved_table_loads km t now st) as T.
  pose proof (notAfter_length t km st) as L.
  cbv zeta in E, T. fold scores in E, T, L.
  change Scores.HIGH_SCORE_MAX with 3%nat in E, T, L.
  assert (Er : rank = (Z.of_nat (length (Scores.notAfter t scores)) + 1)%Z)
    by (unfold rank, r; rewrite E; reflexivity).
  assert (Ei : isNew = (rank <=? 3)%Z)
    by (rewrite Er; unfold isNew, r; rewrite E; reflexivity).
  assert (Es : quotaOk = true ->
               Scores.loadHighScores km st'
               = firstn 3 (Scores.notAfter t scores
                           ++ Scores.mkEntry t now :: Scores.after t scores))
    by (intros Q; unfold st', r; rewrite E, Q; exact T).
  assert (Ek : forall k : Z, k <> km -> st' k = st k).
  { intros k Hk. unfold st', r. rewrite E. cbn [snd].
    destruct quotaOk; [| reflexivity].
    unfold Scores.setItem. apply Z.eqb_neq in Hk. rewrite Hk. reflexivity. }
  assert (Eq : quotaOk = false -> st' = st)
    by (intros Q; unfold st', r; rewrite E, Q; reflexivity).
  clearbody st' isNew rank. clear E T r.
  split; [exact Er |]. split; [lia |].
  split; [rewrite Ei; apply Z.leb_le |].
  split; [exact Es |].
  split.
  { intros Q N. rewrite Ei in N. apply Z.leb_le in N. rewrite (Es Q).
    replace (Z.to_nat (rank - 1))
      with (length (Scores.notAfter t scores)) by lia.
    apply (table_place t now scores).
    change Scores.HIGH_SCORE_MAX with 3%nat. lia. }
  split.
  { intros N. rewrite Ei in N. apply Z.leb_gt in N.
    destruct quotaOk; [| rewrite (Eq eq_refl); reflexivity].
    rewrite (Es eq_refl).
    apply (table_unchanged t now scores).
    - apply load_length.
    - change Scores.HIGH_SCORE_MAX with 3%nat. lia. }
  split; [exact Ek | exact Eq].
Qed.
